(** * keyspaces-migrator: the migration engine, its loader and its commands

    A shallow embedding of [src/migrator.ts] (class [Migrator]), of
    [src/fs.ts] (class [FileSystemManager]), of [Logger.table] of
    [src/logger.ts], of [src/config.ts] (class [ConfigLoader]) and of
    the commands [up], [down], [reset], [status] and [create] of
    [src/cli.ts], with the properties of the program stated over it.

    Modelling conventions.
    - A JavaScript string is a [string]: a sequence of 8-bit code units.
    - The database client, the file system, the wall clock and the hash
      function are collaborators of the engine; they are the variables of
      the sections below.  The client answers each [execute] call either
      by resolving or by rejecting, as an arbitrary function of the calls
      issued so far.
    - The tracking table is a finite map from the primary key [id] to the
      remaining columns; [INSERT] is an upsert and [DELETE] is idempotent.
    - Every effect of the engine (client calls, logger calls, file loads)
      is appended to a trace kept in the world, so that "is never
      attempted" and "performs no insert" are statements about traces. *)

From stdpp Require Import base strings list gmap fin_maps sorting pretty.
From Stdlib Require Import ZArith Ascii String Lia.

Set Default Proof Using "Type".

Local Open Scope Z_scope.
Local Open Scope string_scope.
Local Open Scope list_scope.

(** ** Strings, as the JavaScript string methods used by the sources *)

Module Js.

(** [WhiteSpace] and [LineTerminator] code units below 256, the ones that
    [String.prototype.trim] strips: TAB, LF, VT, FF, CR, SP and NBSP. *)
Definition is_white (c : ascii) : bool :=
  let n := nat_of_ascii c in
  ((9 <=? n)%nat && (n <=? 13)%nat) || (n =? 32)%nat || (n =? 160)%nat.

Definition is_digit (c : ascii) : bool :=
  let n := nat_of_ascii c in (48 <=? n)%nat && (n <=? 57)%nat.

Fixpoint trimStart (s : string) : string :=
  match s with
  | String c s' => if is_white c then trimStart s' else s
  | EmptyString => EmptyString
  end.

Definition trimEnd (s : string) : string :=
  String.rev (trimStart (String.rev s)).

Definition trim (s : string) : string := trimEnd (trimStart s).

(** [s.startsWith(p)] *)
Definition startsWith (s p : string) : bool := String.prefix p s.

(** [s.endsWith(p)] *)
Definition endsWith (s p : string) : bool :=
  String.prefix (String.rev p) (String.rev s).

(** [s.split(sep)] for a one-character separator: never the empty list. *)
Fixpoint split (sep : ascii) (s : string) : list string :=
  match s with
  | EmptyString => [EmptyString]
  | String c s' =>
      if Ascii.eqb c sep then EmptyString :: split sep s'
      else match split sep s' with
           | x :: xs => String c x :: xs
           | [] => [String c EmptyString]
           end
  end.

(** [s.substring(0, n)] *)
Fixpoint take (n : nat) (s : string) : string :=
  match n, s with
  | S n', String c s' => String c (take n' s')
  | _, _ => EmptyString
  end.
Arguments take : simpl never.

(** The capture of [/^(\d+)/]: the longest run of leading digits. *)
Fixpoint leadingDigits (s : string) : string :=
  match s with
  | String c s' => if is_digit c then String c (leadingDigits s') else EmptyString
  | EmptyString => EmptyString
  end.

Definition nl : string := String (ascii_of_nat 10) EmptyString.

(** The double-quote character, as a string. *)
Definition dq : string := String (ascii_of_nat 34) EmptyString.

(** [`${n}`] for a non-negative integer. *)
Definition ofNat (n : nat) : string := pretty n.

(** [l.join(sep)] for an array of strings. *)
Fixpoint join (sep : string) (l : list string) : string :=
  match l with
  | [] => EmptyString
  | x :: l' =>
      match l' with
      | [] => x
      | _ :: _ => x +:+ sep +:+ join sep l'
      end
  end.

(** [s.repeat(n)] *)
Fixpoint repeat (s : string) (n : nat) : string :=
  match n with
  | O => EmptyString
  | S n' => s +:+ repeat s n'
  end.

(** [s.padStart(targetLength, filler)] and [s.padEnd(targetLength, filler)]
    for a filler of one character. *)
Definition padStart (s : string) (targetLength : nat) (filler : ascii) : string :=
  repeat (String filler EmptyString) (targetLength - String.length s) +:+ s.

Definition padEnd (s : string) (targetLength : nat) (filler : ascii) : string :=
  s +:+ repeat (String filler EmptyString) (targetLength - String.length s).

(** [s.toLowerCase()] on code units below 256: the letters [A] to [Z]
    and the capital letters of Latin-1, which are [À] to [Þ] without the
    multiplication sign. *)
Definition lower (c : ascii) : ascii :=
  let n := nat_of_ascii c in
  if ((65 <=? n)%nat && (n <=? 90)%nat)
     || ((192 <=? n)%nat && (n <=? 222)%nat && negb (n =? 215)%nat)
  then ascii_of_nat (n + 32) else c.

Fixpoint toLowerCase (s : string) : string :=
  match s with
  | EmptyString => EmptyString
  | String c s' => String (lower c) (toLowerCase s')
  end.

(** [s.replace(/\s+/g, r)]: every maximal run of white space becomes
    one [r]; [in_run] says that the code unit before was white space. *)
Fixpoint replaceWhiteRuns_from (in_run : bool) (r s : string) : string :=
  match s with
  | EmptyString => EmptyString
  | String c s' =>
      if is_white c then
        if in_run then replaceWhiteRuns_from true r s'
        else r +:+ replaceWhiteRuns_from true r s'
      else String c (replaceWhiteRuns_from false r s')
  end.

Definition replaceWhiteRuns (r s : string) : string := replaceWhiteRuns_from false r s.

(** [s.includes(sub)] *)
Fixpoint includes (s sub : string) : bool :=
  String.prefix sub s
  || match s with
     | String _ s' => includes s' sub
     | EmptyString => false
     end.

(** [v || d] for a value that is a string or [undefined]. *)
Definition or_else (v : option string) (d : string) : string :=
  match v with
  | Some s => if (String.length s =? 0)%nat then d else s
  | None => d
  end.

End Js.

(** ** Data model ([src/types.ts]) *)

(** [interface Migration].  [appliedAt] is the optional [Date], kept as
    its [getTime()] value in milliseconds. *)
Record Migration := mkMigration {
  id : string;
  filename : string;
  up : string;
  down : string;
  appliedAt : option Z
}.

#[global] Instance Migration_eq_dec : EqDecision Migration.
Proof. solve_decision. Defined.

Inductive StatusKind := applied | pending.

(** [interface MigrationStatus] *)
Record MigrationStatus := mkStatus {
  st_id : string;
  st_filename : string;
  st_status : StatusKind;
  st_appliedAt : option Z
}.

(** The columns of a tracking-table row other than the primary key. *)
Record Row := mkRow {
  row_filename : string;
  row_applied_at : option Z;
  row_checksum : string
}.

(** ** The world the engine runs in *)

(** The five shapes of [client.execute] that the engine issues. *)
Inductive Call :=
| CreateTable
| SelectApplied
| InsertRow (i f : string) (now : Z) (checksum : string)
| DeleteRow (i : string)
| Statement (cql : string).

Inductive Level := LInfo | LSuccess | LWarn | LError | LDebug.

(** A thrown value: [new Error(message)], or an error object of an
    external library, known by the text [`${error}`] gives for it. *)
Inductive Exn :=
| JsError (message : string)
| External (text : string).

(** [`${error}`] *)
Definition show (e : Exn) : string :=
  match e with
  | JsError m => "Error: " +:+ m
  | External t => t
  end.

Record World := mkWorld {
  table : gmap string Row;       (* the tracking table *)
  calls : list Call;             (* client.execute calls, oldest first *)
  log : list (Level * string);   (* logger calls, oldest first *)
  ticks : nat;                   (* how often the clock was read *)
  loaded : list string           (* file paths imported or read, oldest first *)
}.

Inductive Result (A : Type) :=
| Ok (a : A)
| Throw (e : Exn).
Arguments Ok {A} a.
Arguments Throw {A} e.

(** A computation with effects on the world that survive a throw. *)
Definition M (A : Type) : Type := World -> Result A * World.

Definition ret {A} (a : A) : M A := fun w => (Ok a, w).

Definition throw {A} (e : Exn) : M A := fun w => (Throw e, w).

Definition bind {A B} (m : M A) (k : A -> M B) : M B :=
  fun w => match m w with
           | (Ok a, w') => k a w'
           | (Throw e, w') => (Throw e, w')
           end.

(** [try { m } catch (error) { h error }] *)
Definition try_catch {A} (m : M A) (h : Exn -> M A) : M A :=
  fun w => match m w with
           | (Ok a, w') => (Ok a, w')
           | (Throw e, w') => h e w'
           end.

Declare Scope m_scope.
Delimit Scope m_scope with m.
Notation "x <- c1 ;; c2" := (bind c1 (fun x => c2))
  (at level 100, c1 at next level, right associativity) : m_scope.
Notation "c1 ;; c2" := (bind c1 (fun _ => c2))
  (at level 100, right associativity) : m_scope.
Local Open Scope m_scope.

(** [for (const x of l) { body x }] *)
Fixpoint for_each {A} (body : A -> M unit) (l : list A) : M unit :=
  match l with
  | [] => ret tt
  | x :: l' => body x ;; for_each body l'
  end.

Definition logger (lv : Level) (msg : string) : M unit :=
  fun w => (Ok tt, mkWorld (table w) (calls w) (log w ++ [(lv, msg)]) (ticks w) (loaded w)).

Definition note_load (path : string) : M unit :=
  fun w => (Ok tt, mkWorld (table w) (calls w) (log w) (ticks w) (loaded w ++ [path])).

(** What a resolved call does to the tracking table.  Migration
    statements are taken not to touch it: the table belongs to the
    engine alone. *)
Definition effect (c : Call) (t : gmap string Row) : gmap string Row :=
  match c with
  | InsertRow i f now cs => <[i := mkRow f (Some now) cs]> t
  | DeleteRow i => delete i t
  | _ => t
  end.

(** The rows of [SELECT id, filename, applied_at], as the objects that
    [getAppliedMigrations] builds from them. *)
Definition rows_of (t : gmap string Row) : list Migration :=
  (fun kv => mkMigration kv.1 (row_filename kv.2) EmptyString EmptyString (row_applied_at kv.2))
    <$> map_to_list t.

(** [(m.appliedAt?.getTime() || 0)] *)
Definition time_key (m : Migration) : Z :=
  match appliedAt m with
  | Some t => t
  | None => 0
  end.

(** [Array.prototype.sort] with the comparator
    [(a, b) => key(b) - key(a)]: a stable sort, newest first. *)
Fixpoint insert_desc (x : Migration) (l : list Migration) : list Migration :=
  match l with
  | [] => [x]
  | y :: l' =>
      if Z.ltb (time_key x) (time_key y) then y :: insert_desc x l' else x :: y :: l'
  end.

Fixpoint sort_desc (l : list Migration) : list Migration :=
  match l with
  | [] => []
  | x :: l' => insert_desc x (sort_desc l')
  end.

(** [fileMigrations.find(m => m.id === i)] *)
Definition find_by_id (i : string) (ms : list Migration) : option Migration :=
  List.find (fun m => String.eqb (id m) i) ms.

(** The statements of a script, as [executeCQL] computes them:
    [cql.split(';').map(s => s.trim()).filter(s => s.length > 0 && !s.startsWith('--'))] *)
Definition keep_fragment (stmt : string) : bool :=
  (0 <? String.length stmt)%nat && negb (Js.startsWith stmt "--").

Definition statements (cql : string) : list string :=
  List.filter keep_fragment (Js.trim <$> Js.split ";" cql).

(** ** The loader ([src/fs.ts], class [FileSystemManager]) *)

(** What [await import(path)] gives: a rejection, or a module whose
    exports [up] and [down] may be absent. *)
Inductive Imported :=
| ImportRejects (e : Exn)
| Module_ (up_export down_export : option string).

(** [!v] for an export that is a string or absent. *)
Definition falsy (v : option string) : bool :=
  match v with
  | None => true
  | Some s => (String.length s =? 0)%nat
  end.

Definition export_text (v : option string) : string := default EmptyString v.

(** [Array.prototype.sort()] on file names: code-unit order, stable. *)
Fixpoint insert_name (x : string) (l : list string) : list string :=
  match l with
  | [] => [x]
  | y :: l' => if String.ltb y x then y :: insert_name x l' else x :: y :: l'
  end.

Fixpoint sort_names (l : list string) : list string :=
  match l with
  | [] => []
  | x :: l' => insert_name x (sort_names l')
  end.

(** [path.extname], for a file name that does not start with a dot. *)
Definition extname (name : string) : string :=
  match reverse (Js.split "." name) with
  | ext :: _ :: _ => "." +:+ ext
  | _ => EmptyString
  end.

(** [path.join(dir, name)], without the normalisation of [dir]. *)
Definition path_join (dir name : string) : string := dir +:+ "/" +:+ name.

Definition extractMigrationId (name : string) : Result string :=
  match Js.leadingDigits name with
  | EmptyString =>
      Throw (JsError ("Invalid migration filename format: " +:+ name
                      +:+ ". Expected format: 001_migration_name.ts"))
  | digits => Ok digits
  end.

Definition lift {A} (r : Result A) : M A := fun w => (r, w).

Inductive SectionName := SecUp | SecDown.

(** One turn of the loop of [parseCQLFile]; the state is the current
    section and the two texts accumulated so far. *)
Definition parse_line (st : option SectionName * (string * string)) (line : string)
  : option SectionName * (string * string) :=
  let '(currentSection, (sup, sdown)) := st in
  let trimmed := Js.trim line in
  if Js.startsWith trimmed "-- +migrate Up" then (Some SecUp, (sup, sdown))
  else if Js.startsWith trimmed "-- +migrate Down" then (Some SecDown, (sup, sdown))
  else match currentSection with
       | Some sec =>
           if negb (Js.startsWith trimmed "--") then
             match sec with
             | SecUp => (currentSection, (sup +:+ line +:+ Js.nl, sdown))
             | SecDown => (currentSection, (sup, sdown +:+ line +:+ Js.nl))
             end
           else st
       | None => st
       end.

Definition parseCQLFile (content : string) : Result (string * string) :=
  let '(_, (sup, sdown)) :=
    foldl parse_line (None, (EmptyString, EmptyString))
      (Js.split (ascii_of_nat 10) content) in
  if (String.length (Js.trim sup) =? 0)%nat then
    Throw (JsError ("CQL migration must contain " +:+ Js.dq +:+ "-- +migrate Up"
                    +:+ Js.dq +:+ " section"))
  else if (String.length (Js.trim sdown) =? 0)%nat then
    Throw (JsError ("CQL migration must contain " +:+ Js.dq +:+ "-- +migrate Down"
                    +:+ Js.dq +:+ " section"))
  else Ok (sup, sdown).

(** ** [FileSystemManager] *)

Module FileSystemManager.
Section WithFileSystem.

(** The file system, as [fs] and dynamic [import] answer. *)
Variable existsSync : string -> bool.
Variable readdirSync : string -> list string.
Variable importModule : string -> Imported.
Variable readFileSync : string -> Result string.

Definition loadTypeScriptMigration (filePath i name : string) : M Migration :=
  try_catch
    (note_load filePath ;;
     match importModule filePath with
     | ImportRejects e => throw e
     | Module_ u d =>
         if falsy u || falsy d then
           throw (JsError ("Migration " +:+ name
                           +:+ " must export 'up' and 'down' functions"))
         else ret (mkMigration i name (export_text u) (export_text d) None)
     end)
    (fun error =>
       throw (JsError ("Failed to load TypeScript migration " +:+ name
                       +:+ ": " +:+ show error))).

Definition loadCQLMigration (filePath i name : string) : M Migration :=
  try_catch
    (note_load filePath ;;
     content <- lift (readFileSync filePath) ;;
     sections <- lift (parseCQLFile content) ;;
     ret (mkMigration i name sections.1 sections.2 None))
    (fun error =>
       throw (JsError ("Failed to load CQL migration " +:+ name
                       +:+ ": " +:+ show error))).

(** [path.extname(filePath)] is the extension of the last component of
    the path, which is the file name [readdirSync] gave. *)
Definition loadMigrationFile (filePath i name : string) : M Migration :=
  let ext := extname name in
  if String.eqb ext ".ts" then loadTypeScriptMigration filePath i name
  else if String.eqb ext ".cql" then loadCQLMigration filePath i name
  else throw (JsError ("Unsupported migration file extension: " +:+ ext)).

(** The loop of [loadMigrations]; [migrations] is the array being
    filled. *)
Fixpoint load_loop (dir : string) (files : list string) (migrations : list Migration)
  : M (list Migration) :=
  match files with
  | [] => ret migrations
  | name :: rest =>
      let filePath := path_join dir name in
      i <- lift (extractMigrationId name) ;;
      migration <-
        try_catch (loadMigrationFile filePath i name)
          (fun error =>
             logger LError ("Failed to load migration " +:+ name +:+ ": "
                            +:+ show error) ;;
             throw error) ;;
      load_loop dir rest (migrations ++ [migration])
  end.

(** The file names [loadMigrations] walks through, in its order. *)
Definition recognized (dir : string) : list string :=
  sort_names
    (List.filter (fun file => Js.endsWith file ".ts" || Js.endsWith file ".cql")
       (readdirSync dir)).

Definition loadMigrations (dir : string) : M (list Migration) :=
  if negb (existsSync dir) then
    logger LWarn ("Migrations directory does not exist: " +:+ dir) ;;
    ret []
  else load_loop dir (recognized dir) [].

End WithFileSystem.
End FileSystemManager.

(** ** [Migrator] *)

Module Migrator.
Section WithCollaborators.

Variable existsSync : string -> bool.
Variable readdirSync : string -> list string.
Variable importModule : string -> Imported.
Variable readFileSync : string -> Result string.

(** The database client: [None] resolves the call, [Some e] rejects it
    with [e]; the answer may depend on every call issued before. *)
Variable client : list Call -> Call -> option Exn.

(** [new Date().getTime()] at the n-th reading of the clock. *)
Variable clock : nat -> Z.

(** [crypto.createHash('md5').update(content).digest('hex')] *)
Variable calculateChecksum : string -> string.

(** The configuration of the [Migrator]. *)
Variable migrationsDir : string.
Variable migrationsTable : string.

(** [await this.client.execute(...)], and the rows it resolves with. *)
Definition execute (c : Call) : M (list Migration) :=
  fun w =>
    match client (calls w) c with
    | Some e =>
        (Throw e, mkWorld (table w) (calls w ++ [c]) (log w) (ticks w) (loaded w))
    | None =>
        (Ok (match c with SelectApplied => rows_of (table w) | _ => [] end),
         mkWorld (effect c (table w)) (calls w ++ [c]) (log w) (ticks w) (loaded w))
    end.

(** [new Date()] *)
Definition new_date : M Z :=
  fun w => (Ok (clock (ticks w)),
            mkWorld (table w) (calls w) (log w) (S (ticks w)) (loaded w)).

Definition initializeMigrationsTable : M unit :=
  try_catch
    (execute CreateTable ;;
     logger LDebug ("Migrations table " +:+ migrationsTable +:+ " initialized"))
    (fun error =>
       throw (JsError ("Failed to initialize migrations table: " +:+ show error))).

Definition getAppliedMigrations : M (list Migration) :=
  initializeMigrationsTable ;;
  try_catch (execute SelectApplied)
    (fun error =>
       throw (JsError ("Failed to get applied migrations: " +:+ show error))).

Definition recordMigration (migration : Migration) : M unit :=
  let checksum := calculateChecksum (up migration) in
  now <- new_date ;;
  try_catch
    (execute (InsertRow (id migration) (filename migration) now checksum) ;;
     logger LDebug ("Recorded migration: " +:+ filename migration))
    (fun error =>
       throw (JsError ("Failed to record migration " +:+ filename migration
                       +:+ ": " +:+ show error))).

Definition removeMigrationRecord (migrationId : string) : M unit :=
  try_catch
    (execute (DeleteRow migrationId) ;;
     logger LDebug ("Removed migration record: " +:+ migrationId))
    (fun error =>
       throw (JsError ("Failed to remove migration record " +:+ migrationId
                       +:+ ": " +:+ show error))).

(** The body of the loop of [executeCQL]. *)
Definition run_statement (dryRun : bool) (statement : string) : M unit :=
  if dryRun then logger LInfo ("[DRY RUN] Would execute: " +:+ statement)
  else
    try_catch
      (execute (Statement statement) ;;
       logger LDebug ("Executed: " +:+ Js.take 50 statement +:+ "..."))
      (fun error =>
         throw (JsError ("Failed to execute CQL: " +:+ statement +:+ Js.nl
                         +:+ "Error: " +:+ show error))).

Definition executeCQL (cql : string) (dryRun : bool) : M unit :=
  for_each (run_statement dryRun) (statements cql).

(** [await Promise.all([loadMigrations(dir), getAppliedMigrations()])]:
    both reads are started and run to their end whatever the other does;
    the two touch disjoint parts of the world. *)
Definition load_both : M (list Migration * list Migration) :=
  fun w =>
    let '(r1, w1) :=
      FileSystemManager.loadMigrations existsSync readdirSync importModule
        readFileSync migrationsDir w in
    let '(r2, w2) := getAppliedMigrations w1 in
    match r1, r2 with
    | Ok fileMigrations, Ok appliedMigrations =>
        (Ok (fileMigrations, appliedMigrations), w2)
    | Throw e, _ => (Throw e, w2)
    | Ok _, Throw e => (Throw e, w2)
    end.

(** [fileMigrations.filter(m => !appliedIds.has(m.id))] with
    [appliedIds = new Set(appliedMigrations.map(m => m.id))] *)
Definition pendingMigrations (fileMigrations appliedMigrations : list Migration)
  : list Migration :=
  let appliedIds : gset string := list_to_set (id <$> appliedMigrations) in
  List.filter (fun m => negb (bool_decide (id m ∈ appliedIds))) fileMigrations.

(** The body of the loop of [up]. *)
Definition apply_one (dryRun : bool) (migration : Migration) : M unit :=
  try_catch
    (logger LInfo ("Applying migration: " +:+ filename migration) ;;
     executeCQL (up migration) dryRun ;;
     (if negb dryRun then recordMigration migration else ret tt) ;;
     logger LSuccess ("Applied migration: " +:+ filename migration))
    (fun error =>
       logger LError ("Failed to apply migration " +:+ filename migration
                      +:+ ": " +:+ show error) ;;
       throw error).

Definition up (dryRun : bool) : M unit :=
  logger LInfo "Starting migration up..." ;;
  both <- load_both ;;
  let pendings := pendingMigrations both.1 both.2 in
  if (List.length pendings =? 0)%nat then
    logger LSuccess "No pending migrations found"
  else
    logger LInfo ("Found " +:+ Js.ofNat (List.length pendings) +:+ " pending migration(s)") ;;
    for_each (apply_one dryRun) pendings ;;
    logger LSuccess ("Successfully applied " +:+ Js.ofNat (List.length pendings)
                     +:+ " migration(s)").

(** The [try] block shared by [down] and [reset]. *)
Definition rollback_one (dryRun : bool) (migrationToRollback : Migration) : M unit :=
  try_catch
    (logger LInfo ("Rolling back migration: " +:+ filename migrationToRollback) ;;
     executeCQL (down migrationToRollback) dryRun ;;
     (if negb dryRun then removeMigrationRecord (id migrationToRollback) else ret tt) ;;
     logger LSuccess ("Rolled back migration: " +:+ filename migrationToRollback))
    (fun error =>
       logger LError ("Failed to rollback migration " +:+ filename migrationToRollback
                      +:+ ": " +:+ show error) ;;
       throw error).

Definition down (dryRun : bool) : M unit :=
  logger LInfo "Starting migration down..." ;;
  both <- load_both ;;
  let fileMigrations := both.1 in
  let appliedMigrations := both.2 in
  if (List.length appliedMigrations =? 0)%nat then
    logger LWarn "No applied migrations found"
  else
    match sort_desc appliedMigrations with
    | [] => throw (External "TypeError: Cannot read properties of undefined (reading 'id')")
    | lastApplied :: _ =>
        match find_by_id (id lastApplied) fileMigrations with
        | None =>
            throw (JsError ("Migration file not found for applied migration: "
                            +:+ filename lastApplied))
        | Some migrationToRollback => rollback_one dryRun migrationToRollback
        end
    end.

(** The body of the loop of [reset]. *)
Definition reset_one (dryRun : bool) (fileMigrations : list Migration)
    (appliedMigration : Migration) : M unit :=
  match find_by_id (id appliedMigration) fileMigrations with
  | None =>
      logger LWarn ("Migration file not found for applied migration: "
                    +:+ filename appliedMigration)
  | Some migrationToRollback => rollback_one dryRun migrationToRollback
  end.

Definition reset (dryRun : bool) : M unit :=
  logger LInfo "Starting migration reset..." ;;
  both <- load_both ;;
  let fileMigrations := both.1 in
  let appliedMigrations := both.2 in
  if (List.length appliedMigrations =? 0)%nat then
    logger LWarn "No applied migrations found"
  else
    let sortedApplied := sort_desc appliedMigrations in
    logger LInfo ("Found " +:+ Js.ofNat (List.length sortedApplied)
                  +:+ " applied migration(s) to rollback") ;;
    for_each (reset_one dryRun fileMigrations) sortedApplied ;;
    logger LSuccess ("Successfully rolled back " +:+ Js.ofNat (List.length sortedApplied)
                     +:+ " migration(s)").

(** [new Map(appliedMigrations.map(m => [m.id, m]))]: a later entry
    replaces an earlier one with the same key. *)
Definition appliedMap_of (appliedMigrations : list Migration) : gmap string Migration :=
  foldl (fun acc m => <[id m := m]> acc) ∅ appliedMigrations.

Definition status_entry (appliedMap : gmap string Migration) (migration : Migration)
  : MigrationStatus :=
  mkStatus (id migration) (filename migration)
    (if bool_decide (is_Some (appliedMap !! id migration)) then applied else pending)
    (appliedMap !! id migration ≫= appliedAt).

Definition status : M (list MigrationStatus) :=
  both <- load_both ;;
  let appliedMap := appliedMap_of both.2 in
  ret (status_entry appliedMap <$> both.1).

End WithCollaborators.
End Migrator.

(** ** Vocabulary of the statements *)

(** [w'] differs from [w] at most in the log and in the files loaded. *)
Definition same_db (w w' : World) : Prop :=
  table w' = table w /\ calls w' = calls w /\ ticks w' = ticks w.

(** [w] with further logger calls. *)
Definition add_log (w : World) (lg : list (Level * string)) : World :=
  mkWorld (table w) (calls w) (log w ++ lg) (ticks w) (loaded w).

(** The messages a dry run emits for a script: one per statement. *)
Definition dry_messages (cql : string) : list (Level * string) :=
  (fun s => (LInfo, "[DRY RUN] Would execute: " +:+ s)) <$> statements cql.

(** What [up(true)] logs for one pending migration. *)
Definition dry_apply_log (m : Migration) : list (Level * string) :=
  [(LInfo, "Applying migration: " +:+ filename m)]
  ++ dry_messages (up m)
  ++ [(LSuccess, "Applied migration: " +:+ filename m)].

(** What [down(true)] and [reset(true)] log for one migration. *)
Definition dry_rollback_log (m : Migration) : list (Level * string) :=
  [(LInfo, "Rolling back migration: " +:+ filename m)]
  ++ dry_messages (down m)
  ++ [(LSuccess, "Rolled back migration: " +:+ filename m)].

(** The client calls of a whole operation are those of the initial read. *)
Definition reads_only (w w' : World) : Prop :=
  table w' = table w
  /\ ticks w' = ticks w
  /\ (calls w' = calls w ++ [CreateTable]
      \/ calls w' = calls w ++ [CreateTable; SelectApplied]).

(** Between [w] and [w'] the tracking table is untouched and the client
    saw nothing but the creation of the table and the read of its rows. *)
Definition nothing_written (w w' : World) : Prop :=
  table w' = table w
  /\ exists k, calls w' = calls w ++ k
               /\ Forall (fun c => c = CreateTable \/ c = SelectApplied) k.

(** A fragment that is nothing but comment lines: each of its lines,
    trimmed, starts with the comment token. *)
Definition pure_comment_lines (fragment : string) : bool :=
  forallb (fun line => Js.startsWith (Js.trim line) "--")
    (Js.split (ascii_of_nat 10) fragment).

(** The statements of a script in the words of the specification: split
    on the terminator, trim, discard the empty fragments and the
    fragments that are pure comment lines. *)
Definition spec_statements (cql : string) : list string :=
  List.filter
    (fun fragment =>
       (0 <? String.length fragment)%nat && negb (pure_comment_lines fragment))
    (Js.trim <$> Js.split ";" cql).

(** The call is a [DELETE] on the tracking table. *)
Definition is_delete (c : Call) : bool :=
  match c with
  | DeleteRow _ => true
  | _ => false
  end.

(** The client resolves each call of [k], issued in turn after the
    history [h]. *)
Fixpoint resolves_all (client : list Call -> Call -> option Exn)
    (h k : list Call) : Prop :=
  match k with
  | [] => True
  | c :: k' => client h c = None /\ resolves_all client (h ++ [c]) k'
  end.

(** The calls of one migration applied in full at clock reading [tick]:
    its statements in order, then the insert of its record. *)
Definition apply_calls (clock : nat -> Z) (checksum : string -> string)
    (tick : nat) (m : Migration) : list Call :=
  (Statement <$> statements (up m))
  ++ [InsertRow (id m) (filename m) (clock tick) (checksum (up m))].

(** The row that insert leaves in the tracking table. *)
Definition recorded_row (clock : nat -> Z) (checksum : string -> string)
    (tick : nat) (m : Migration) : Row :=
  mkRow (filename m) (Some (clock tick)) (checksum (up m)).

(** The calls of a list of migrations applied in full, one after the
    other, from clock reading [tick] on, and the table they leave. *)
Fixpoint up_calls (clock : nat -> Z) (checksum : string -> string)
    (tick : nat) (l : list Migration) : list Call :=
  match l with
  | [] => []
  | m :: l' => apply_calls clock checksum tick m ++ up_calls clock checksum (S tick) l'
  end.

Fixpoint up_table (clock : nat -> Z) (checksum : string -> string)
    (tick : nat) (l : list Migration) (t : gmap string Row) : gmap string Row :=
  match l with
  | [] => t
  | m :: l' =>
      up_table clock checksum (S tick) l'
        (<[id m := recorded_row clock checksum tick m]> t)
  end.

(** The error [up] raises when the client rejects the call [c] of the
    migration [m] with [cause]. *)
Definition apply_error (m : Migration) (c : Call) (cause : Exn) : Exn :=
  match c with
  | Statement s =>
      JsError ("Failed to execute CQL: " +:+ s +:+ Js.nl +:+ "Error: " +:+ show cause)
  | _ =>
      JsError ("Failed to record migration " +:+ filename m +:+ ": " +:+ show cause)
  end.

(** The calls of one migration rolled back in full: the statements of
    its down-script in order, then the delete of its record. *)
Definition rollback_calls (m : Migration) : list Call :=
  (Statement <$> statements (down m)) ++ [DeleteRow (id m)].

Definition rollback_error (m : Migration) (c : Call) (cause : Exn) : Exn :=
  match c with
  | Statement s =>
      JsError ("Failed to execute CQL: " +:+ s +:+ Js.nl +:+ "Error: " +:+ show cause)
  | _ =>
      JsError ("Failed to remove migration record " +:+ id m +:+ ": " +:+ show cause)
  end.

(** The calls of [reset] for a list of applied records handled in full:
    nothing for a record without a definition, a full rollback of the
    definition found otherwise; and the table they leave. *)
Fixpoint reset_calls (defs : list Migration) (l : list Migration) : list Call :=
  match l with
  | [] => []
  | r :: l' =>
      match find_by_id (id r) defs with
      | None => reset_calls defs l'
      | Some m => rollback_calls m ++ reset_calls defs l'
      end
  end.

Fixpoint reset_table (defs : list Migration) (l : list Migration)
    (t : gmap string Row) : gmap string Row :=
  match l with
  | [] => t
  | r :: l' =>
      match find_by_id (id r) defs with
      | None => reset_table defs l' t
      | Some m => reset_table defs l' (delete (id m) t)
      end
  end.

(** The applied records that [reset] meets with a definition at hand. *)
Definition rolled_back (defs : list Migration) (l : list Migration) : list Migration :=
  List.filter (fun r => bool_decide (is_Some (find_by_id (id r) defs))) l.

(** The log of [w'] continues the log of [w]. *)
Definition log_extends (w w' : World) : Prop :=
  exists lg, log w' = log w ++ lg.

(** [a] may stand before [b] in an array sorted newest first. *)
Definition newest_first (a b : Migration) : Prop := time_key b <= time_key a.

(** The answer of [status] over definitions [defs] and tracking table
    [t]. *)
Definition status_of_table (defs : list Migration) (t : gmap string Row)
  : list MigrationStatus :=
  (fun d =>
     mkStatus (id d) (filename d)
       (if bool_decide (is_Some (t !! id d)) then applied else pending)
       (t !! id d ≫= row_applied_at)) <$> defs.

(** The operation [op], started in [w], raises [e] after the client
    calls [k] and leaves the tracking table as it was. *)
Definition aborts {A} (op : M A) (w : World) (e : Exn) (k : list Call) : Prop :=
  exists w', op w = (Throw e, w') /\ calls w' = calls w ++ k /\ table w' = table w.

(** The errors of the read that opens every operation. *)
Definition init_error (cause : Exn) : Exn :=
  JsError ("Failed to initialize migrations table: " +:+ show cause).

Definition read_error (cause : Exn) : Exn :=
  JsError ("Failed to get applied migrations: " +:+ show cause).

(** [s] without its prefix [p], when it starts with [p]. *)
Fixpoint after_prefix (p s : string) : option string :=
  match p, s with
  | EmptyString, _ => Some s
  | String a p', String b s' => if Ascii.eqb a b then after_prefix p' s' else None
  | String _ _, EmptyString => None
  end.

(** The statements that a dry run announced, read back from the logger
    calls in their order. *)
Definition previewed (lg : list (Level * string)) : list string :=
  omap (fun entry =>
          match entry.1 with
          | LInfo => after_prefix "[DRY RUN] Would execute: " entry.2
          | _ => None
          end) lg.

(** The statements of scripts among client calls, in their order. *)
Definition sent (k : list Call) : list string :=
  omap (fun c => match c with Statement s => Some s | _ => None end) k.

(** What [reset(true)] logs for one applied record. *)
Definition dry_reset_log (defs : list Migration) (r : Migration)
  : list (Level * string) :=
  match find_by_id (id r) defs with
  | Some m => dry_rollback_log m
  | None => [(LWarn, "Migration file not found for applied migration: " +:+ filename r)]
  end.

(** The dry run of [op] from [w] announces the statements that its live
    run from [w] sends, in the same order; both return normally. *)
Definition previews (op : bool -> M unit) (w : World) : Prop :=
  exists wd wl lg k,
    op true w = (Ok tt, wd) /\ log wd = log w ++ lg
    /\ op false w = (Ok tt, wl) /\ calls wl = calls w ++ k
    /\ previewed lg = sent k.

(** Every record of the tracking table of [w] is in the table of [w'],
    unchanged. *)
Definition keeps_records (w w' : World) : Prop := table w ⊆ table w'.

(** The tracking table of [w'] is that of [w], or that of [w] without
    one record. *)
Definition removes_at_most_one (w w' : World) : Prop :=
  table w' = table w \/ exists i, table w' = delete i (table w).

(** The code units of a string, and the strings that hold a given one. *)
Definition chars (s : string) : list ascii := list_ascii_of_string s.

Definition has_char (c : ascii) (s : string) : Prop := In c (chars s).

(** A list of code units without its leading white space. *)
Fixpoint drop_white (l : list ascii) : list ascii :=
  match l with
  | c :: l' => if Js.is_white c then drop_white l' else l
  | [] => []
  end.

(** A string of decimal digits. *)
Definition all_digits (s : string) : Prop :=
  Forall (fun c => Js.is_digit c = true) (chars s).

(** [a] may stand before [b] in an array that the default [sort()]
    ordered: [b] is not below [a] in the order of the code units. *)
Definition name_le (a b : string) : Prop := String.ltb b a = false.

(** The fields that the loader gives a definition read from the file
    [name]. *)
Definition loaded_from (name : string) (m : Migration) : Prop :=
  filename m = name
  /\ id m = Js.leadingDigits name
  /\ id m <> EmptyString
  /\ appliedAt m = None.

(** The errors that [loadMigrations] raises for the file [name]: the
    name has no leading digits, or the file is a [.ts] module or a
    [.cql] script that did not load for the reason [cause]. *)
Definition load_error_of (name : string) (e : Exn) : Prop :=
  (Js.leadingDigits name = EmptyString
   /\ e = JsError ("Invalid migration filename format: " +:+ name
                   +:+ ". Expected format: 001_migration_name.ts"))
  \/ (Js.endsWith name ".ts" = true
      /\ exists cause,
           e = JsError ("Failed to load TypeScript migration " +:+ name
                        +:+ ": " +:+ cause))
  \/ (Js.endsWith name ".cql" = true
      /\ exists cause,
           e = JsError ("Failed to load CQL migration " +:+ name +:+ ": " +:+ cause)).

(** The lines of a text, as [content.split('\n')] gives them. *)
Definition lines (content : string) : list string :=
  Js.split (ascii_of_nat 10) content.

(** The marker lines of a [.cql] file, its comment lines and its blank
    lines, as [parseCQLFile] tells them apart. *)
Definition is_up_marker (line : string) : bool :=
  Js.startsWith (Js.trim line) "-- +migrate Up".

Definition is_down_marker (line : string) : bool :=
  Js.startsWith (Js.trim line) "-- +migrate Down".

Definition is_comment (line : string) : bool :=
  Js.startsWith (Js.trim line) "--".

Definition is_blank (line : string) : bool :=
  (String.length (Js.trim line) =? 0)%nat.

(** The text of a section that holds the lines [ls]: every line is
    followed by a line end. *)
Definition section_text (ls : list string) : string :=
  foldr (fun line text => line +:+ Js.nl +:+ text) EmptyString ls.

(** The errors of [parseCQLFile]. *)
Definition no_up_section : Exn :=
  JsError ("CQL migration must contain " +:+ Js.dq +:+ "-- +migrate Up"
           +:+ Js.dq +:+ " section").

Definition no_down_section : Exn :=
  JsError ("CQL migration must contain " +:+ Js.dq +:+ "-- +migrate Down"
           +:+ Js.dq +:+ " section").

(** The loop of [parseCQLFile] over some lines, from a given state. *)
Definition parse_lines (st : option SectionName * (string * string))
    (ls : list string) : option SectionName * (string * string) :=
  foldl parse_line st ls.

(** ** New migration files ([src/fs.ts], [createMigration] and
    [createCQLMigration]) *)

(** A [Date], by the fields that its local-time getters give. *)
Record LocalTime := mkLocalTime {
  getFullYear : nat;
  getMonth : nat;     (* 0 to 11 *)
  getDate : nat;      (* 1 to 31 *)
  getHours : nat;
  getMinutes : nat;
  getSeconds : nat
}.

Definition generateTimestamp (now : LocalTime) : string :=
  let year := getFullYear now in
  let month := Js.padStart (Js.ofNat (getMonth now + 1)) 2 "0" in
  let day := Js.padStart (Js.ofNat (getDate now)) 2 "0" in
  let hour := Js.padStart (Js.ofNat (getHours now)) 2 "0" in
  let minute := Js.padStart (Js.ofNat (getMinutes now)) 2 "0" in
  let second := Js.padStart (Js.ofNat (getSeconds now)) 2 "0" in
  Js.ofNat year +:+ month +:+ day +:+ hour +:+ minute +:+ second.

(** The texts that the module written by [createMigration] exports as
    [up] and [down]: what stands between the backquotes. *)
Definition template_up : string :=
  Js.nl
  +:+ "  -- Add your up migration SQL here" +:+ Js.nl
  +:+ "  -- Example:" +:+ Js.nl
  +:+ "  -- CREATE TABLE IF NOT EXISTS example_table (" +:+ Js.nl
  +:+ "  --   id UUID PRIMARY KEY," +:+ Js.nl
  +:+ "  --   name text," +:+ Js.nl
  +:+ "  --   created_at timestamp" +:+ Js.nl
  +:+ "  -- );" +:+ Js.nl.

Definition template_down : string :=
  Js.nl
  +:+ "  -- Add your down migration SQL here" +:+ Js.nl
  +:+ "  -- Example:" +:+ Js.nl
  +:+ "  -- DROP TABLE IF EXISTS example_table;" +:+ Js.nl.

(** [created] is [new Date().toISOString()]. *)
Definition getMigrationTemplate (name created : string) : string :=
  "/**" +:+ Js.nl
  +:+ " * Migration: " +:+ name +:+ Js.nl
  +:+ " * Created: " +:+ created +:+ Js.nl
  +:+ " */" +:+ Js.nl
  +:+ Js.nl
  +:+ "export const up = `" +:+ template_up +:+ "`;" +:+ Js.nl
  +:+ Js.nl
  +:+ "export const down = `" +:+ template_down +:+ "`;" +:+ Js.nl.

(** The lines of the text that [createCQLMigration] writes. *)
Definition cql_template_lines (name created : string) : list string :=
  [ "-- Migration: " +:+ name;
    "-- Created: " +:+ created;
    EmptyString;
    "-- +migrate Up";
    "-- Add your up migration CQL here";
    "-- Example:";
    "-- CREATE TABLE IF NOT EXISTS example_table (";
    "--   id UUID PRIMARY KEY,";
    "--   name text,";
    "--   created_at timestamp";
    "-- );";
    EmptyString;
    "-- +migrate Down";
    "-- Add your down migration CQL here";
    "-- Example:";
    "-- DROP TABLE IF EXISTS example_table;";
    EmptyString ].

Definition getCQLMigrationTemplate (name created : string) : string :=
  Js.join Js.nl (cql_template_lines name created).

(** The calls of [fs] that write. *)
Inductive FsWrite :=
| Mkdir (path : string)
| WriteFile (path content : string).

Section Scaffold.

Variable existsSync : string -> bool.

(** [fs.mkdirSync] and [fs.writeFileSync]: [None] when the call
    returns, [Some e] when it throws [e]; the answer may depend on the
    writes made before. *)
Variable fs_write : list FsWrite -> FsWrite -> option Exn.

(** [path.join] *)
Variable join : string -> string -> string.

(** [now] is the [new Date()] of [generateTimestamp] and [created] the
    [new Date().toISOString()] of the template.  The result comes with
    the writes made, oldest first. *)
Definition createMigration (now : LocalTime) (created : string)
    (migrationsDir name : string) : Result string * list FsWrite :=
  let made := if negb (existsSync migrationsDir) then [Mkdir migrationsDir] else [] in
  match (if negb (existsSync migrationsDir)
         then fs_write [] (Mkdir migrationsDir) else None) with
  | Some e => (Throw e, made)
  | None =>
      let timestamp := generateTimestamp now in
      let filename :=
        timestamp +:+ "_" +:+ Js.toLowerCase (Js.replaceWhiteRuns "_" name)
        +:+ ".ts" in
      let filePath := join migrationsDir filename in
      let template := getMigrationTemplate name created in
      match fs_write made (WriteFile filePath template) with
      | Some e => (Throw e, made ++ [WriteFile filePath template])
      | None => (Ok filePath, made ++ [WriteFile filePath template])
      end
  end.

Definition createCQLMigration (now : LocalTime) (created : string)
    (migrationsDir name : string) : Result string * list FsWrite :=
  let made := if negb (existsSync migrationsDir) then [Mkdir migrationsDir] else [] in
  match (if negb (existsSync migrationsDir)
         then fs_write [] (Mkdir migrationsDir) else None) with
  | Some e => (Throw e, made)
  | None =>
      let timestamp := generateTimestamp now in
      let filename :=
        timestamp +:+ "_" +:+ Js.toLowerCase (Js.replaceWhiteRuns "_" name)
        +:+ ".cql" in
      let filePath := join migrationsDir filename in
      let template := getCQLMigrationTemplate name created in
      match fs_write made (WriteFile filePath template) with
      | Some e => (Throw e, made ++ [WriteFile filePath template])
      | None => (Ok filePath, made ++ [WriteFile filePath template])
      end
  end.

End Scaffold.

(** The file that [createMigration] or [createCQLMigration] made at
    [path], in the directory [dir] at the time [now]: its name ends in
    [extension], and its id, as the loader will read it, is the
    timestamp of [now]. *)
Definition created_as (join : string -> string -> string) (dir extension : string)
    (now : LocalTime) (path : string) : Prop :=
  exists filename,
    path = join dir filename
    /\ Js.endsWith filename extension = true
    /\ extractMigrationId filename = Ok (generateTimestamp now).

(** ** The table of the logger ([src/logger.ts], [Logger.table]) *)

(** What [Logger.table] writes: a call of [this.info], or a line given
    to [console.log], in bold or plain. *)
Inductive Output :=
| Say (level : Level) (message : string)
| Print (bold : bool) (text : string).

Module Logger.
Section Table.

(** The rows are objects.  [keys row] is [Object.keys(row)] and
    [cell row header] is [String(row[header] || '')]. *)
Variable Rec : Type.
Variable keys : Rec -> list string.
Variable cell : Rec -> string -> string.

(** [Math.max(header.length, ...data.map(row => String(row[header] || '').length))] *)
Definition maxWidth (data : list Rec) (header : string) : nat :=
  list_max (String.length header
            :: ((fun row => String.length (cell row header)) <$> data)).

Definition table (data : list Rec) : list Output :=
  match data with
  | [] => [Say LInfo "No data to display"]
  | first :: _ =>
      let headers := keys first in
      let maxWidths := maxWidth data <$> headers in
      let headerRow :=
        Js.join " | "
          (zip_with (fun header width => Js.padEnd header width " ") headers maxWidths) in
      [Print true headerRow;
       Print false (Js.join "-+-" ((fun width => Js.repeat "-" width) <$> maxWidths))]
      ++ ((fun row =>
             Print false
               (Js.join " | "
                  (zip_with (fun header width => Js.padEnd (cell row header) width " ")
                     headers maxWidths)))
          <$> data)
  end.

End Table.
End Logger.

(** The text of a line that was printed. *)
Definition printed (o : Output) : option string :=
  match o with
  | Print _ text => Some text
  | Say _ _ => None
  end.

(** [line] is made of one field per column with [sep] between them;
    the field of a column is as wide as the column and starts with the
    text of that column. *)
Definition in_columns (widths : list nat) (sep : string) (texts : list string)
    (line : string) : Prop :=
  exists fields,
    line = Js.join sep fields
    /\ Forall2 (fun field width => String.length field = width) fields widths
    /\ Forall2 (fun field text => exists filler, field = text +:+ filler) fields texts.

(** ** The configuration ([src/config.ts], class [ConfigLoader]) *)

Module ConfigLoader.

(** [process.env]: the variables that are set, with their values. *)
Definition Env : Type := gmap string string.

Record SslConfig := mkSslConfig {
  enabled : bool;
  rejectUnauthorized : bool
}.

(** [interface DatabaseConfig] *)
Record DatabaseConfig := mkDatabaseConfig {
  contactPoints : list string;
  username : option string;
  password : option string;
  keyspace : string;
  secureConnectBundle : option string;
  ssl : option SslConfig
}.

(** [Partial<DatabaseConfig>]: [None] for a property that the object
    does not hold.  A property that it holds has a value, which for the
    optional properties of [DatabaseConfig] may be [undefined]. *)
Record PartialConfig := mkPartialConfig {
  p_contactPoints : option (list string);
  p_username : option (option string);
  p_password : option (option string);
  p_keyspace : option string;
  p_secureConnectBundle : option (option string);
  p_ssl : option (option SslConfig)
}.

(** The options that [createClient] gives to [new Client]. *)
Record ClientOptions := mkClientOptions {
  o_contactPoints : list string;
  o_localDataCenter : string;
  o_keyspace : string;
  o_authProvider : option (string * string);
  o_cloud : option string;
  o_sslOptions : option bool;
  o_protocolOptions : option Z;
  o_socketOptions : option (Z * Z)
}.

Definition loadDatabaseConfig (env : Env) : Result DatabaseConfig :=
  let contactPoints :=
    match env !! "KEYSPACE_CONTACT_POINTS" with
    | Some points => Js.split "," points
    | None => ["127.0.0.1:9042"]
    end in
  let username := env !! "KEYSPACE_USERNAME" in
  let password := env !! "KEYSPACE_PASSWORD" in
  let keyspace := env !! "KEYSPACE_KEYSPACE" in
  let secureConnectBundle := env !! "KEYSPACE_SECURE_CONNECT_BUNDLE" in
  let sslEnabled := bool_decide (env !! "KEYSPACE_SSL_ENABLED" = Some "true") in
  let sslRejectUnauthorized :=
    negb (bool_decide (env !! "KEYSPACE_SSL_REJECT_UNAUTHORIZED" = Some "false")) in
  if falsy keyspace then
    Throw (JsError "KEYSPACE_KEYSPACE environment variable is required")
  else
    Ok (mkDatabaseConfig contactPoints username password
          (default EmptyString keyspace) secureConnectBundle
          (Some (mkSslConfig sslEnabled sslRejectUnauthorized))).

(** [{ ...base, ...config }] *)
Definition spread (base : DatabaseConfig) (config : PartialConfig) : DatabaseConfig :=
  mkDatabaseConfig
    (default (contactPoints base) (p_contactPoints config))
    (default (username base) (p_username config))
    (default (password base) (p_password config))
    (default (keyspace base) (p_keyspace config))
    (default (secureConnectBundle base) (p_secureConnectBundle config))
    (default (ssl base) (p_ssl config)).

(** [createClient(config)], up to the call of [new Client]: the result
    is the options that the constructor gets. *)
Definition createClient (env : Env) (config : option PartialConfig) : M ClientOptions :=
  base <- lift (loadDatabaseConfig env) ;;
  let dbConfig := match config with Some c => spread base c | None => base end in
  logger LDebug ("Connecting to keyspace: " +:+ keyspace dbConfig) ;;
  logger LDebug ("Contact points: " +:+ Js.join ", " (contactPoints dbConfig)) ;;
  ret (mkClientOptions
         (contactPoints dbConfig)
         "us-east-1"
         (keyspace dbConfig)
         (if negb (falsy (username dbConfig)) && negb (falsy (password dbConfig))
          then Some (default EmptyString (username dbConfig),
                     default EmptyString (password dbConfig))
          else None)
         (if negb (falsy (secureConnectBundle dbConfig))
          then secureConnectBundle dbConfig else None)
         (match ssl dbConfig with
          | Some s => if enabled s then Some (rejectUnauthorized s) else None
          | None => None
          end)
         (if existsb (fun cp => Js.includes cp "amazonaws.com") (contactPoints dbConfig)
          then Some 9142 else None)
         (if existsb (fun cp => Js.includes cp "amazonaws.com") (contactPoints dbConfig)
          then Some (20000, 20000) else None)).

Definition getMigrationsDir (env : Env) : string :=
  Js.or_else (env !! "MIGRATIONS_DIR") "./migrations".

Definition getMigrationsTable (env : Env) : string :=
  Js.or_else (env !! "MIGRATIONS_TABLE") "schema_migrations".

End ConfigLoader.

(** ** The command line ([src/cli.ts]) *)

(** What a command does besides logging and calling the engine. *)
Inductive CliEvent :=
| SpinnerStart (text : string)
| SpinnerSucceed (text : string)
| SpinnerFail (text : string)
| NewClient (options : ConfigLoader.ClientOptions)
| Connect
| Shutdown
| Question (text : string)
| Console (o : Output).

(** How a command ends: its action returns, [process.exit(code)] is
    called, or the promise of the action is rejected. *)
Inductive Outcome :=
| Returned
| Exited (code : Z)
| Rejected (e : Exn).

Record Session := mkSession {
  world : World;
  events : list CliEvent    (* oldest first *)
}.

(** A part of an action: a computation on the session that may throw. *)
Definition Cli (A : Type) : Type := Session -> Result A * Session.

Definition cli_bind {A B} (m : Cli A) (k : A -> Cli B) : Cli B :=
  fun s => match m s with
           | (Ok a, s') => k a s'
           | (Throw e, s') => (Throw e, s')
           end.

Declare Scope cli_scope.
Delimit Scope cli_scope with cli.
Notation "x <- c1 ;; c2" := (cli_bind c1 (fun x => c2))
  (at level 100, c1 at next level, right associativity) : cli_scope.
Notation "c1 ;; c2" := (cli_bind c1 (fun _ => c2))
  (at level 100, right associativity) : cli_scope.

(** A computation of the engine or of the logger, run in the session. *)
Definition engine {A} (m : M A) : Cli A :=
  fun s => let '(r, w) := m (world s) in (r, mkSession w (events s)).

Definition emit (e : CliEvent) : Cli unit :=
  fun s => (Ok tt, mkSession (world s) (events s ++ [e])).

(** A call that resolves or rejects, noted as [e]. *)
Definition attempt (e : CliEvent) (answer : option Exn) : Cli unit :=
  fun s =>
    (match answer with Some cause => Throw cause | None => Ok tt end,
     mkSession (world s) (events s ++ [e])).

(** The row that the [status] command gives to [logger.table] for an
    entry: [keys] is [Object.keys] of the row and [cell] is
    [String(row[header] || '')]. *)
Definition status_keys (s : MigrationStatus) : list string :=
  ["ID"; "Filename"; "Status"; "Applied At"].

Definition status_cell (toISOString : Z -> string) (s : MigrationStatus)
    (header : string) : string :=
  if String.eqb header "ID" then st_id s
  else if String.eqb header "Filename" then st_filename s
  else if String.eqb header "Status" then
    match st_status s with applied => "applied" | pending => "pending" end
  else if String.eqb header "Applied At" then
    match st_appliedAt s with
    | Some t => toISOString t
    | None => "-"
    end
  else EmptyString.

Module Cli.
Section WithProcess.

Local Open Scope cli_scope.

(** The file system, the database client, the clock and the hash, as
    for the engine. *)
Variable existsSync : string -> bool.
Variable readdirSync : string -> list string.
Variable importModule : string -> Imported.
Variable readFileSync : string -> Result string.
Variable client : list Call -> Call -> option Exn.
Variable clock : nat -> Z.
Variable calculateChecksum : string -> string.

(** [process.env]. *)
Variable env : ConfigLoader.Env.

(** [new Client(options)], [client.connect()] and [client.shutdown()]:
    [None] when the call goes through, [Some e] when it throws or
    rejects with [e]. *)
Variable newClient : ConfigLoader.ClientOptions -> option Exn.
Variable connect : option Exn.
Variable shutdown : option Exn.

(** The line that the user types at the question of [reset]. *)
Variable answer : string.

(** [Date.prototype.toISOString] *)
Variable toISOString : Z -> string.

(** The [try] block of a database command up to the engine: the client
    is made and connected, and the [Migrator] is configured. *)
Definition open_session : Cli (string * string) :=
  options <- engine (ConfigLoader.createClient env None) ;;
  attempt (NewClient options) (newClient options) ;;
  attempt Connect connect ;;
  emit (SpinnerSucceed "Connected to database") ;;
  _ <- engine (lift (ConfigLoader.loadDatabaseConfig env)) ;;
  let migrationsDir :=
    Js.or_else (Some (ConfigLoader.getMigrationsDir env)) "./migrations" in
  let migrationsTable :=
    Js.or_else (Some (ConfigLoader.getMigrationsTable env)) "schema_migrations" in
  fun s => (Ok (migrationsDir, migrationsTable), s).

(** The frame of the four database commands:
    [try { body } catch (error) { spinner.fail(failText);
    logger.error(`Error: ${error}`); process.exit(1) }
    finally { if (client) await client.shutdown() }].
    [process.exit] ends the process inside the [catch] block, before
    the [finally] block; when [body] returns, the client exists. *)
Definition database_command (failText : string) (body : Cli unit) : Session -> Outcome * Session :=
  fun s =>
    match (emit (SpinnerStart "Connecting to database...") ;; body) s with
    | (Throw error, s1) =>
        (Exited 1,
         mkSession (add_log (world s1) [(LError, "Error: " +:+ show error)])
           (events s1 ++ [SpinnerFail failText]))
    | (Ok _, s1) =>
        (match shutdown with Some e => Rejected e | None => Returned end,
         mkSession (world s1) (events s1 ++ [Shutdown]))
    end.

Definition up_command (optionsDryRun programDryRun : bool) : Session -> Outcome * Session :=
  database_command "Migration failed"
    (config <- open_session ;;
     engine (Migrator.up existsSync readdirSync importModule readFileSync client clock
               calculateChecksum config.1 config.2 (optionsDryRun || programDryRun))).

Definition down_command (optionsDryRun programDryRun : bool) : Session -> Outcome * Session :=
  database_command "Migration rollback failed"
    (config <- open_session ;;
     engine (Migrator.down existsSync readdirSync importModule readFileSync client
               config.1 config.2 (optionsDryRun || programDryRun))).

Definition reset_command (optionsForce optionsDryRun programDryRun : bool)
  : Session -> Outcome * Session :=
  fun s =>
    let run :=
      database_command "Migration reset failed"
        (config <- open_session ;;
         engine (Migrator.reset existsSync readdirSync importModule readFileSync client
                   config.1 config.2 (optionsDryRun || programDryRun))) in
    if negb optionsForce && negb optionsDryRun && negb programDryRun then
      let s1 :=
        mkSession
          (add_log (world s) [(LWarn, "This will rollback ALL applied migrations!")])
          (events s ++ [Question "Are you sure you want to continue? (y/N): "]) in
      let confirmed :=
        String.eqb (Js.toLowerCase answer) "y" || String.eqb (Js.toLowerCase answer) "yes" in
      if negb confirmed then
        (Returned, mkSession (add_log (world s1) [(LInfo, "Reset cancelled")]) (events s1))
      else run s1
    else run s.

Definition status_command : Session -> Outcome * Session :=
  database_command "Failed to get migration status"
    (config <- open_session ;;
     status <- engine (Migrator.status existsSync readdirSync importModule readFileSync
                         client config.1 config.2) ;;
     if (List.length status =? 0)%nat then
       engine (logger LInfo "No migrations found")
     else
       engine (logger LInfo "Migration Status:") ;;
       fun s =>
         (Ok tt,
          mkSession (world s)
            (events s
             ++ (Console <$> Logger.table MigrationStatus status_keys
                               (status_cell toISOString) status)))).

End WithProcess.
End Cli.

(** The prompt of [reset]. *)
Definition is_question (e : CliEvent) : bool :=
  match e with
  | Question _ => true
  | _ => false
  end.

(** A database command that went through: the client was made and
    connected, the lines [shown] were printed, and the shutdown of the
    client is the last thing that happened. *)
Definition served (s s' : Session) : Prop :=
  exists options shown,
    events s'
    = events s
      ++ [SpinnerStart "Connecting to database..."; NewClient options; Connect;
          SpinnerSucceed "Connected to database"]
      ++ (Console <$> shown) ++ [Shutdown].

(** A database command that failed with [error]: the spinner reports
    [failText], the error is the last entry of the log, and the client,
    if there was one, was not shut down. *)
Definition gave_up (failText : string) (s s' : Session) : Prop :=
  exists k error,
    events s'
    = events s ++ [SpinnerStart "Connecting to database..."] ++ k
      ++ [SpinnerFail failText]
    /\ ~ In Shutdown k
    /\ Forall (fun e => is_question e = false) k
    /\ last (log (world s')) = Some (LError, "Error: " +:+ show error).

Definition lifecycle (failText : string) (s : Session) (r : Outcome * Session) : Prop :=
  match r.1 with
  | Exited code => code = 1 /\ gave_up failText s r.2
  | _ => served s r.2
  end.

(** The answer to the question of [reset] is a yes. *)
Definition confirms (answer : string) : bool :=
  String.eqb (Js.toLowerCase answer) "y" || String.eqb (Js.toLowerCase answer) "yes".

(** The session after [reset] has warned and asked. *)
Definition asked (s : Session) : Session :=
  mkSession
    (add_log (world s) [(LWarn, "This will rollback ALL applied migrations!")])
    (events s ++ [Question "Are you sure you want to continue? (y/N): "]).

(** The session of a database command that stopped for the lack of a
    keyspace. *)
Definition without_keyspace (failText : string) (s : Session) : Session :=
  mkSession
    (add_log (world s)
       [(LError, "Error: Error: KEYSPACE_KEYSPACE environment variable is required")])
    (events s ++ [SpinnerStart "Connecting to database..."; SpinnerFail failText]).

(** A local time with a year of four digits. *)
Definition on_the_calendar (t : LocalTime) : Prop :=
  (1000 <= getFullYear t < 100 * 100)%nat
  /\ (getMonth t <= 11)%nat
  /\ (1 <= getDate t <= 31)%nat
  /\ (getHours t <= 23)%nat
  /\ (getMinutes t <= 59)%nat
  /\ (getSeconds t <= 59)%nat.

(** The first list is below the second in the order of the dictionary. *)
Fixpoint lex_lt (l1 l2 : list nat) : Prop :=
  match l1, l2 with
  | x :: l1', y :: l2' => (x < y)%nat \/ (x = y /\ lex_lt l1' l2')
  | _, _ => False
  end.

(** The local time [a] is before [b], to the second. *)
Definition earlier (a b : LocalTime) : Prop :=
  lex_lt
    [getFullYear a; getMonth a; getDate a; getHours a; getMinutes a; getSeconds a]
    [getFullYear b; getMonth b; getDate b; getHours b; getMinutes b; getSeconds b].

(** The decimal digit [k], and numbers below 100 written with two
    digits one after the other, before [rest]. *)
Definition digit (k : nat) : ascii := ascii_of_nat (48 + k).

Definition two_digits (rest : string) (l : list nat) : string :=
  foldr (fun n text => String (digit (n / 10)) (String (digit (n mod 10)) text)) rest l.

(** The action of [create <name>]: the directory is read from the
    environment, the file is made by [createCQLMigration] with [--cql]
    and by [createMigration] without, and
    [try { ... logger.success(`Created migration: ${filePath}`) }
     catch (error) { logger.error(`Failed to create migration: ${error}`);
     process.exit(1) }].
    The result comes with the writes made, oldest first. *)
Definition create_command (existsSync : string -> bool)
    (fs_write : list FsWrite -> FsWrite -> option Exn)
    (join : string -> string -> string) (env : ConfigLoader.Env)
    (now : LocalTime) (created : string) (name : string) (optionsCql : bool)
  : Session -> (Outcome * list FsWrite) * Session :=
  fun s =>
    let migrationsDir := ConfigLoader.getMigrationsDir env in
    let made :=
      if optionsCql
      then createCQLMigration existsSync fs_write join now created migrationsDir name
      else createMigration existsSync fs_write join now created migrationsDir name in
    match made.1 with
    | Ok filePath =>
        ((Returned, made.2),
         mkSession (add_log (world s) [(LSuccess, "Created migration: " +:+ filePath)])
           (events s))
    | Throw error =>
        ((Exited 1, made.2),
         mkSession
           (add_log (world s) [(LError, "Failed to create migration: " +:+ show error)])
           (events s))
    end.

(** ** Concrete collaborators for the examples *)

Module Sample.

Definition world0 : World := mkWorld ∅ [] [] 0 [].

(** A client that resolves every call. *)
Definition always_ok (history : list Call) (c : Call) : option Exn := None.

(** A script whose only statement follows a comment line. *)
Definition commented_script : string :=
  "-- users of the shop" +:+ Js.nl
  +:+ "CREATE TABLE users (id UUID PRIMARY KEY);".

(** A client that rejects the statement [INVALID SQL] and nothing else. *)
Definition rejects_invalid (history : list Call) (c : Call) : option Exn :=
  match c with
  | Statement s =>
      if String.eqb s "INVALID SQL"
      then Some (External "ResponseError: SQL syntax error")
      else None
  | _ => None
  end.

Definition clock (n : nat) : Z := 1700000000000 + Z.of_nat n.

Definition checksum (content : string) : string := "d41d8cd98f00b204e9800998ecf8427e".

Definition dir : string := "./migrations".

Definition m001 : Migration :=
  mkMigration "001" "001_create_users.ts"
    "CREATE TABLE users (id UUID PRIMARY KEY);" "DROP TABLE users;" None.

Definition m002 : Migration :=
  mkMigration "002" "002_add_email_index.ts"
    "CREATE INDEX ON users (email);" "DROP INDEX users_email_idx;" None.

Definition m002_broken : Migration :=
  mkMigration "002" "002_add_email_index.ts"
    "INVALID SQL;" "DROP INDEX users_email_idx;" None.

Definition m003 : Migration :=
  mkMigration "003" "003_create_posts.ts"
    "CREATE TABLE posts (id UUID PRIMARY KEY);" "DROP TABLE posts;" None.

Definition existsSync (path : string) : bool := true.

Definition readFileSync (path : string) : Result string :=
  Throw (External "Error: ENOENT: no such file or directory").

(** A directory that holds the given definitions as [.ts] modules. *)
Fixpoint import_from (defs : list Migration) (path : string) : Imported :=
  match defs with
  | [] => ImportRejects (External "Error: Cannot find module")
  | m :: defs' =>
      if String.eqb path (path_join dir (filename m))
      then Module_ (Some (up m)) (Some (down m))
      else import_from defs' path
  end.

Definition readdir_of (defs : list Migration) (path : string) : list string :=
  filename <$> defs.

(** Three migrations, and the same with a broken second one. *)
Definition three : list Migration := [m001; m002; m003].
Definition three_broken : list Migration := [m001; m002_broken; m003].

(** A tracking table that records [001] alone. *)
Definition table_001 : gmap string Row :=
  {[ "001" := mkRow "001_create_users.ts" (Some 1600000000000)
                "d41d8cd98f00b204e9800998ecf8427e" ]}.

Definition world_001 : World := mkWorld table_001 [] [] 0 [].

(** A tracking table that records [001] and [002], and a newer [007]
    that has no definition on disk. *)
Definition table_mixed : gmap string Row :=
  <[ "007" := mkRow "007_orphan.ts" (Some 1600000000009)
                "d41d8cd98f00b204e9800998ecf8427e" ]>
  (<[ "002" := mkRow "002_add_email_index.ts" (Some 1600000000002)
                 "d41d8cd98f00b204e9800998ecf8427e" ]>
   table_001).

Definition world_mixed : World := mkWorld table_mixed [] [] 0 [].

(** The objects read from the rows of [table_mixed]. *)
Definition r001 : Migration :=
  mkMigration "001" "001_create_users.ts" EmptyString EmptyString (Some 1600000000000).
Definition r002 : Migration :=
  mkMigration "002" "002_add_email_index.ts" EmptyString EmptyString (Some 1600000000002).
Definition r007 : Migration :=
  mkMigration "007" "007_orphan.ts" EmptyString EmptyString (Some 1600000000009).

(** A tracking table that records [001] and [002]. *)
Definition table_12 : gmap string Row :=
  <[ "002" := mkRow "002_add_email_index.ts" (Some 1600000000002)
                "d41d8cd98f00b204e9800998ecf8427e" ]>
  table_001.

Definition world_12 : World := mkWorld table_12 [] [] 0 [].

(** A client that rejects the statement [DROP TABLE users] and nothing
    else. *)
Definition rejects_drop_users (history : list Call) (c : Call) : option Exn :=
  match c with
  | Statement s =>
      if String.eqb s "DROP TABLE users"
      then Some (External "ResponseError: unconfigured table users")
      else None
  | _ => None
  end.

(** A directory with a file whose name has no leading digits. *)
Definition readdir_bad_name (path : string) : list string :=
  ["zzz_last.ts"; "001_create_users.ts"; "create_posts.cql"].

(** A client that rejects the creation of the tracking table, and one
    that rejects the read of its rows. *)
Definition rejects_create_table (history : list Call) (c : Call) : option Exn :=
  match c with
  | CreateTable => Some (External "NoHostAvailableError: All host(s) tried for query failed")
  | _ => None
  end.

Definition rejects_select (history : list Call) (c : Call) : option Exn :=
  match c with
  | SelectApplied => Some (External "ResponseError: Keyspace does not exist")
  | _ => None
  end.

(** A file system without the migrations directory. *)
Definition no_directory (path : string) : bool := false.

(** The lines of a [.cql] migration file, by part. *)
Definition cql_header : list string := ["-- Migration: create users"; EmptyString].
Definition cql_ups : list string :=
  ["CREATE TABLE users ("; "  id UUID PRIMARY KEY"; ");"; EmptyString].
Definition cql_downs : list string := ["DROP TABLE users;"; EmptyString].

(** The fifth of January 2024, at 09:03:07 local time. *)
Definition morning : LocalTime := mkLocalTime 2024 0 5 9 3 7.

(** A file system that takes every write. *)
Definition writable (made : list FsWrite) (op : FsWrite) : option Exn := None.

(** The definition loaded from a module that [createMigration] wrote. *)
Definition generated : Migration :=
  mkMigration "20240105090307" "20240105090307_add_users_table.ts"
    template_up template_down None.

(** An environment that names the keyspace, and a driver that makes
    every client. *)
Definition shop_env : ConfigLoader.Env := {[ "KEYSPACE_KEYSPACE" := "shop" ]}.

Definition any_client (options : ConfigLoader.ClientOptions) : option Exn := None.

Definition iso (t : Z) : string := "2020-09-13T12:26:40.000Z".

(** A session in which [001] and [002] are recorded. *)
Definition session_12 : Session := mkSession world_12 [].

End Sample.

(** ** Strings as lists of code units *)

Lemma chars_inj a b : chars a = chars b -> a = b.
Proof.
  intros H. rewrite <- (string_of_list_ascii_of_string a),
    <- (string_of_list_ascii_of_string b). unfold chars in H. by rewrite H.
Qed.

Lemma chars_app a b : chars (a +:+ b) = chars a ++ chars b.
Proof. induction a as [|c a IH]; simpl; [done|]. by rewrite IH. Qed.

Lemma string_app_assoc a b c : (a +:+ b) +:+ c = a +:+ (b +:+ c).
Proof. apply chars_inj. by rewrite !chars_app, app_assoc. Qed.

Lemma string_app_nil_r a : a +:+ EmptyString = a.
Proof. apply chars_inj. by rewrite chars_app, app_nil_r. Qed.

Lemma chars_rev_app s t : chars (String.rev_app s t) = List.rev (chars s) ++ chars t.
Proof.
  revert t. induction s as [|c s IH]; intros t; simpl; [done|].
  rewrite IH. simpl. by rewrite <- app_assoc.
Qed.

Lemma chars_rev s : chars (String.rev s) = List.rev (chars s).
Proof. unfold String.rev. by rewrite chars_rev_app, app_nil_r. Qed.

Lemma string_rev_involutive s : String.rev (String.rev s) = s.
Proof. apply chars_inj. by rewrite !chars_rev, rev_involutive. Qed.

Lemma chars_trimStart s : chars (Js.trimStart s) = drop_white (chars s).
Proof. induction s as [|c s IH]; simpl; [done|]. by destruct (Js.is_white c). Qed.

Lemma chars_trim s :
  chars (Js.trim s) = List.rev (drop_white (List.rev (drop_white (chars s)))).
Proof.
  unfold Js.trim, Js.trimEnd.
  by rewrite chars_rev, chars_trimStart, chars_rev, chars_trimStart.
Qed.

Lemma drop_white_suffix l : exists p, l = p ++ drop_white l.
Proof.
  induction l as [|c l [p IH]]; simpl; [by exists []|].
  destruct (Js.is_white c); [|by exists []].
  exists (c :: p). simpl. by rewrite <- IH.
Qed.

Lemma drop_white_idemp l : drop_white (drop_white l) = drop_white l.
Proof.
  induction l as [|c l IH]; simpl; [done|].
  destruct (Js.is_white c) eqn:E; [done|]. simpl. by rewrite E.
Qed.

(** Dropping white space at the end keeps a list without leading white
    space free of it. *)
Lemma drop_white_rev_head l :
  drop_white l = l ->
  drop_white (List.rev (drop_white (List.rev l))) = List.rev (drop_white (List.rev l)).
Proof.
  destruct l as [|c l]; [done|]. simpl.
  destruct (Js.is_white c) eqn:E.
  { intros H. pose proof (drop_white_suffix l) as [p Hp].
    apply (f_equal List.length) in H. rewrite Hp in H at 2.
    simpl in H. rewrite length_app in H. lia. }
  intros _.
  destruct (drop_white_suffix (List.rev l ++ [c])) as [p Hp].
  destruct (drop_white (List.rev l ++ [c])) as [|d q] eqn:Ed.
  - exfalso. clear Hp. revert Ed. induction (List.rev l) as [|x xs IH]; simpl.
    + by rewrite E.
    + destruct (Js.is_white x); [exact IH|done].
  - assert (List.rev (d :: q) = c :: List.rev (removelast (d :: q))) as Hr.
    { assert (exists q', d :: q = q' ++ [c]) as [q' Hq'].
      { clear -Ed. revert Ed. induction (List.rev l) as [|x xs IH]; simpl.
        - destruct (Js.is_white c); [done|]. intros [= <- <-]. by exists [].
        - destruct (Js.is_white x); [exact IH|].
          intros [= <- <-]. by exists (x :: xs). }
      rewrite Hq', removelast_last, rev_app_distr. done. }
    rewrite Hr. simpl. by rewrite E.
Qed.

Lemma trim_idemp s : Js.trim (Js.trim s) = Js.trim s.
Proof.
  apply chars_inj. rewrite (chars_trim (Js.trim s)), chars_trim.
  rewrite drop_white_rev_head by apply drop_white_idemp.
  rewrite rev_involutive. by rewrite drop_white_rev_head by apply drop_white_idemp.
Qed.

Lemma drop_white_In c l : In c (drop_white l) -> In c l.
Proof.
  destruct (drop_white_suffix l) as [p Hp]. intros H. rewrite Hp.
  apply in_or_app. by right.
Qed.

Lemma trim_has_char c s : has_char c (Js.trim s) -> has_char c s.
Proof.
  unfold has_char. rewrite chars_trim. intros H.
  apply in_rev, drop_white_In, in_rev, drop_white_In in H. exact H.
Qed.

(** ** Splitting and joining *)

Lemma split_nonempty sep s : Js.split sep s <> [].
Proof.
  induction s as [|c s IH]; simpl; [done|].
  destruct (Ascii.eqb c sep); [done|]. by destruct (Js.split sep s).
Qed.

Lemma split_app sep a b :
  Js.split sep (a +:+ String sep b) = Js.split sep a ++ Js.split sep b.
Proof.
  induction a as [|c a IH]; simpl.
  - by rewrite Ascii.eqb_refl.
  - destruct (Ascii.eqb c sep); [by rewrite IH|].
    rewrite IH. pose proof (split_nonempty sep a).
    by destruct (Js.split sep a).
Qed.

Lemma split_no_sep sep s :
  Forall (fun piece => ~ has_char sep piece) (Js.split sep s).
Proof.
  induction s as [|c s IH]; simpl.
  - constructor; [|done]. by intros [].
  - destruct (Ascii.eqb c sep) eqn:E.
    + constructor; [|done]. by intros [].
    + destruct (Js.split sep s) as [|x xs]; [repeat constructor; intros [|[]]|].
      * subst. by rewrite Ascii.eqb_refl in E.
      * inversion IH as [|?? Hx Hxs]; subst. constructor; [|done].
        intros [->|H]; [by rewrite Ascii.eqb_refl in E|by apply Hx].
Qed.

Lemma split_sep_free sep s : ~ has_char sep s -> Js.split sep s = [s].
Proof.
  induction s as [|c s IH]; simpl; [done|]. intros H.
  destruct (Ascii.eqb c sep) eqn:E.
  { apply Ascii.eqb_eq in E. subst. exfalso. apply H. by left. }
  rewrite IH; [done|]. intros Hs. apply H. by right.
Qed.

Lemma split_join sep l :
  l <> [] -> Forall (fun piece => ~ has_char sep piece) l ->
  Js.split sep (Js.join (String sep EmptyString) l) = l.
Proof.
  intros Hne Hl. induction Hl as [|x l Hx Hl IH]; [done|].
  destruct l as [|y l].
  - simpl. by apply split_sep_free.
  - change (Js.join (String sep EmptyString) (x :: y :: l))
      with (x +:+ String sep (Js.join (String sep EmptyString) (y :: l))).
    rewrite split_app, IH by done. by rewrite split_sep_free.
Qed.

Lemma split_has_char sep s piece c :
  In piece (Js.split sep s) -> has_char c piece -> has_char c s.
Proof.
  revert piece. induction s as [|a s IH]; intros piece; simpl.
  - intros [<-|[]]. done.
  - destruct (Ascii.eqb a sep).
    + intros [<-|H] Hc; [done|]. right. by apply (IH piece).
    + pose proof (split_nonempty sep s) as Hne.
      destruct (Js.split sep s) as [|x xs]; [done|].
      intros [<-|H] Hc.
      * destruct Hc as [->|Hc]; [by left|]. right. apply (IH x); [by left|done].
      * right. apply (IH piece); [by right|done].
Qed.

(** ** The loader *)

Lemma leadingDigits_spec name :
  all_digits (Js.leadingDigits name)
  /\ exists rest,
       name = Js.leadingDigits name +:+ rest
       /\ forall c rest', rest = String c rest' -> Js.is_digit c = false.
Proof.
  induction name as [|c name [IH1 (rest & IH2 & IH3)]]; simpl.
  - split; [constructor|]. exists EmptyString. by split.
  - destruct (Js.is_digit c) eqn:E.
    + split; [by constructor|]. exists rest. split; [|done].
      rewrite IH2 at 1. reflexivity.
    + split; [constructor|]. exists (String c name). split; [done|].
      by intros ?? [= <- <-].
Qed.

(** The id of a migration is the longest run of decimal digits that
    its file name starts with.  [extractMigrationId] answers with a
    non-empty string of digits [i] such that the name is [i] followed by
    a rest that does not start with a digit; it raises, with the
    message that shows the expected format, exactly for the names that
    do not start with a digit. *)
Theorem extractMigrationId_longest_digit_prefix name :
  match extractMigrationId name with
  | Ok i =>
      i <> EmptyString /\ all_digits i
      /\ exists rest,
           name = i +:+ rest
           /\ forall c rest', rest = String c rest' -> Js.is_digit c = false
  | Throw e =>
      e = JsError ("Invalid migration filename format: " +:+ name
                   +:+ ". Expected format: 001_migration_name.ts")
      /\ forall c rest, name = String c rest -> Js.is_digit c = false
  end.
Proof.
  unfold extractMigrationId.
  destruct (leadingDigits_spec name) as [Hd (rest & Hn & Hr)].
  destruct (Js.leadingDigits name) as [|d ds] eqn:E.
  - split; [done|]. assert (name = rest) as -> by exact Hn. exact Hr.
  - split; [done|]. split; [done|]. by exists rest.
Qed.

(** *** The order of the files *)

Lemma ascii_compare_refl c : Ascii.compare c c = Eq.
Proof. unfold Ascii.compare. apply N.compare_refl. Qed.

Lemma string_compare_le_trans a b c :
  String.compare a b <> Gt -> String.compare b c <> Gt -> String.compare a c <> Gt.
Proof.
  revert b c. induction a as [|x a IH]; intros [|y b] [|z c]; simpl; try done.
  unfold Ascii.compare.
  destruct (N.compare_spec (N_of_ascii x) (N_of_ascii y)) as [Exy|Hxy|Hxy];
    destruct (N.compare_spec (N_of_ascii y) (N_of_ascii z)) as [Eyz|Hyz|Hyz];
    try done.
  - rewrite Exy, Eyz, N.compare_refl. apply IH.
  - intros _ _. rewrite Exy. by apply N.compare_lt_iff in Hyz as ->.
  - intros _ _. rewrite <- Eyz. by apply N.compare_lt_iff in Hxy as ->.
  - intros _ _. assert (N_of_ascii x < N_of_ascii z)%N as H by lia.
    by apply N.compare_lt_iff in H as ->.
Qed.

Lemma name_le_compare a b : name_le a b <-> String.compare a b <> Gt.
Proof.
  unfold name_le, String.ltb. rewrite (String.compare_antisym a b).
  destruct (String.compare b a); simpl; split; congruence.
Qed.

Lemma name_le_trans a b c : name_le a b -> name_le b c -> name_le a c.
Proof. rewrite !name_le_compare. apply string_compare_le_trans. Qed.

Lemma name_lt_le a b : String.ltb a b = true -> name_le a b.
Proof.
  unfold name_le, String.ltb. rewrite (String.compare_antisym b a).
  by destruct (String.compare a b).
Qed.

Lemma insert_name_perm x l : Permutation (insert_name x l) (x :: l).
Proof.
  induction l as [|y l IH]; simpl; [done|].
  destruct (String.ltb y x); [|done].
  rewrite IH. apply perm_swap.
Qed.

Lemma sort_names_perm l : Permutation (sort_names l) l.
Proof.
  induction l as [|x l IH]; simpl; [done|]. by rewrite insert_name_perm, IH.
Qed.

Lemma insert_name_sorted x l :
  StronglySorted name_le l -> StronglySorted name_le (insert_name x l).
Proof.
  induction 1 as [|y l Hl IH Hy]; simpl.
  - by repeat constructor.
  - destruct (String.ltb y x) eqn:E.
    + constructor; [done|].
      rewrite (insert_name_perm x l). constructor; [by apply name_lt_le|done].
    + constructor; [by constructor|]. constructor; [exact E|].
      eapply Forall_impl; [exact Hy|]. intros z Hz.
      by apply (name_le_trans x y z).
Qed.

Lemma sort_names_sorted l : StronglySorted name_le (sort_names l).
Proof.
  induction l as [|x l IH]; simpl; [constructor|]. by apply insert_name_sorted.
Qed.

Lemma string_prefix_app p s : String.prefix p s = true -> exists r, s = p +:+ r.
Proof.
  revert s. induction p as [|a p IH]; intros [|b s]; simpl; try done.
  - intros _. by eexists.
  - intros _. by eexists.
  - destruct (ascii_dec a b) as [->|]; [|done].
    intros H. apply IH in H as [r ->]. by exists r.
Qed.

Lemma endsWith_app s p : Js.endsWith s p = true -> exists pre, s = pre +:+ p.
Proof.
  unfold Js.endsWith. intros H. apply string_prefix_app in H as [r H].
  exists (String.rev r). apply chars_inj.
  apply (f_equal chars) in H. rewrite chars_app, !chars_rev in H.
  rewrite chars_app, chars_rev.
  apply (f_equal (@List.rev ascii)) in H.
  rewrite rev_involutive, rev_app_distr, rev_involutive in H. exact H.
Qed.

Lemma extname_of_suffix pre ext :
  ~ has_char "." ext -> extname (pre +:+ String "." ext) = String "." ext.
Proof.
  intros H. unfold extname.
  rewrite split_app, (split_sep_free "." ext H), reverse_snoc.
  pose proof (split_nonempty "." pre) as Hne.
  destruct (reverse (Js.split "." pre)) as [|x xs] eqn:E; [|done].
  apply (f_equal List.length) in E. rewrite length_reverse in E.
  by destruct (Js.split "." pre).
Qed.

(** ** The sections of a [.cql] file *)

Lemma drop_white_nil l : drop_white l = [] <-> Forall (fun c => Js.is_white c = true) l.
Proof.
  induction l as [|c l IH]; simpl; [by split|].
  destruct (Js.is_white c) eqn:E.
  - rewrite IH. split; [by constructor|by inversion 1].
  - split; [done|]. inversion 1; congruence.
Qed.

Lemma drop_white_all_white l :
  Forall (fun c => Js.is_white c = true) (drop_white l) ->
  Forall (fun c => Js.is_white c = true) l.
Proof.
  induction l as [|c l IH]; simpl; [done|].
  destruct (Js.is_white c) eqn:E; [|done]. intros H. constructor; auto.
Qed.

Lemma trim_empty s :
  Js.trim s = EmptyString <-> Forall (fun c => Js.is_white c = true) (chars s).
Proof.
  split.
  - intros H. apply (f_equal chars) in H. rewrite chars_trim in H. simpl in H.
    apply (f_equal (@List.rev ascii)) in H. rewrite rev_involutive in H. simpl in H.
    apply drop_white_nil in H. apply drop_white_all_white.
    apply List.Forall_rev in H. by rewrite rev_involutive in H.
  - intros H. apply chars_inj. rewrite chars_trim. simpl.
    apply drop_white_nil in H. rewrite H. done.
Qed.

Lemma is_blank_iff line :
  is_blank line = true <-> Forall (fun c => Js.is_white c = true) (chars line).
Proof.
  unfold is_blank. rewrite <- trim_empty, Nat.eqb_eq.
  destruct (Js.trim line); simpl; split; done.
Qed.

Lemma startsWith_app s p : Js.startsWith s p = true <-> exists r, s = p +:+ r.
Proof.
  unfold Js.startsWith. split; [apply string_prefix_app|].
  intros [r ->]. induction p as [|a p IH]; simpl; [by destruct r|].
  destruct (ascii_dec a a); done.
Qed.

Lemma marker_is_comment line :
  is_up_marker line = true \/ is_down_marker line = true -> is_comment line = true.
Proof.
  unfold is_up_marker, is_down_marker, is_comment.
  intros [H|H]; apply startsWith_app in H as [r ->]; by apply startsWith_app; eexists.
Qed.

Lemma markers_differ line : is_up_marker line = true -> is_down_marker line = false.
Proof.
  unfold is_up_marker, is_down_marker. intros H.
  apply startsWith_app in H as [r ->]. done.
Qed.

Lemma section_text_snoc ls line :
  section_text (ls ++ [line]) = section_text ls +:+ line +:+ Js.nl.
Proof.
  induction ls as [|l ls IH]; simpl.
  - by rewrite string_app_nil_r.
  - unfold section_text in *. simpl. rewrite IH.
    by rewrite !string_app_assoc.
Qed.

Lemma section_text_app a b : section_text (a ++ b) = section_text a +:+ section_text b.
Proof.
  induction a as [|l a IH]; simpl; [done|].
  unfold section_text in *. simpl. rewrite IH. by rewrite !string_app_assoc.
Qed.

(** One line, by the kind of the line. *)
Lemma parse_line_up_marker sec sup sdown line :
  is_up_marker line = true ->
  parse_line (sec, (sup, sdown)) line = (Some SecUp, (sup, sdown)).
Proof. unfold parse_line, is_up_marker. by intros ->. Qed.

Lemma parse_line_down_marker sec sup sdown line :
  is_down_marker line = true ->
  parse_line (sec, (sup, sdown)) line = (Some SecDown, (sup, sdown)).
Proof.
  intros H. unfold parse_line.
  destruct (Js.startsWith (Js.trim line) "-- +migrate Up") eqn:E.
  - apply markers_differ in E. congruence.
  - unfold is_down_marker in H. by rewrite H.
Qed.

Lemma parse_line_comment sec sup sdown line :
  is_comment line = true ->
  is_up_marker line = false -> is_down_marker line = false ->
  parse_line (sec, (sup, sdown)) line = (sec, (sup, sdown)).
Proof.
  unfold parse_line, is_up_marker, is_down_marker, is_comment.
  intros -> -> ->. by destruct sec.
Qed.

Lemma parse_line_text sec sup sdown line :
  is_comment line = false ->
  parse_line (sec, (sup, sdown)) line =
  match sec with
  | Some SecUp => (sec, (sup +:+ line +:+ Js.nl, sdown))
  | Some SecDown => (sec, (sup, sdown +:+ line +:+ Js.nl))
  | None => (sec, (sup, sdown))
  end.
Proof.
  intros H. unfold parse_line.
  destruct (Js.startsWith (Js.trim line) "-- +migrate Up") eqn:E1.
  { rewrite marker_is_comment in H; [done|]. by left. }
  destruct (Js.startsWith (Js.trim line) "-- +migrate Down") eqn:E2.
  { rewrite marker_is_comment in H; [done|]. by right. }
  unfold is_comment in H. rewrite H. by destruct sec as [[]|].
Qed.

Lemma parse_lines_cons st line ls :
  parse_lines st (line :: ls) = parse_lines (parse_line st line) ls.
Proof. reflexivity. Qed.

Lemma parse_lines_one st line : parse_lines st [line] = parse_line st line.
Proof. reflexivity. Qed.

Lemma parse_lines_app st a b :
  parse_lines st (a ++ b) = parse_lines (parse_lines st a) b.
Proof. apply foldl_app. Qed.

(** The sections hold whole lines of the file, in the order of the
    file, and none of them is a comment line. *)
Lemma parse_lines_sections ls sec us ds :
  exists sec' us' ds',
    parse_lines (sec, (section_text us, section_text ds)) ls
    = (sec', (section_text (us ++ us'), section_text (ds ++ ds')))
    /\ sublist us' ls /\ sublist ds' ls
    /\ Forall (fun l => is_comment l = false) us'
    /\ Forall (fun l => is_comment l = false) ds'
    /\ (Forall (fun l => is_up_marker l = false) ls -> sec <> Some SecUp -> us' = [])
    /\ (Forall (fun l => is_down_marker l = false) ls -> sec <> Some SecDown -> ds' = []).
Proof.
  revert sec us ds. induction ls as [|line ls IH]; intros sec us ds.
  { exists sec, [], []. rewrite !app_nil_r. repeat split; auto; constructor. }
  rewrite parse_lines_cons.
  assert (forall sec1 (u d : list string),
            u = [] \/ (u = [line] /\ is_comment line = false /\ sec = Some SecUp) ->
            d = [] \/ (d = [line] /\ is_comment line = false /\ sec = Some SecDown) ->
            (is_up_marker line = false -> sec1 = sec) ->
            (is_down_marker line = false -> sec1 = sec) ->
            exists sec' us' ds',
              parse_lines (sec1, (section_text (us ++ u), section_text (ds ++ d))) ls
              = (sec', (section_text (us ++ us'), section_text (ds ++ ds')))
              /\ sublist us' (line :: ls) /\ sublist ds' (line :: ls)
              /\ Forall (fun l => is_comment l = false) us'
              /\ Forall (fun l => is_comment l = false) ds'
              /\ (Forall (fun l => is_up_marker l = false) (line :: ls) ->
                  sec <> Some SecUp -> us' = [])
              /\ (Forall (fun l => is_down_marker l = false) (line :: ls) ->
                  sec <> Some SecDown -> ds' = [])) as Hstep.
  { intros sec1 u d Hu Hd Hsu Hsd.
    destruct (IH sec1 (us ++ u) (ds ++ d))
      as (sec' & us' & ds' & E & Su & Sd & Fu & Fd & Nu & Nd).
    exists sec', (u ++ us'), (d ++ ds'). rewrite E, <- !app_assoc.
    split; [done|]. split; [|split; [|split; [|split; [|split]]]].
    - destruct Hu as [->|(-> & _)]; [by apply sublist_cons|by apply sublist_skip].
    - destruct Hd as [->|(-> & _)]; [by apply sublist_cons|by apply sublist_skip].
    - destruct Hu as [->|(-> & ? & _)]; [done|by constructor].
    - destruct Hd as [->|(-> & ? & _)]; [done|by constructor].
    - intros H Hs. inversion H as [|?? Hl Hls]; subst.
      destruct Hu as [->|(_ & _ & ?)]; [|done]. simpl. apply Nu; [done|].
      by rewrite Hsu.
    - intros H Hs. inversion H as [|?? Hl Hls]; subst.
      destruct Hd as [->|(_ & _ & ?)]; [|done]. simpl. apply Nd; [done|].
      by rewrite Hsd. }
  destruct (is_up_marker line) eqn:Eu.
  { rewrite parse_line_up_marker by done.
    destruct (IH (Some SecUp) us ds)
      as (sec' & us' & ds' & E & Su & Sd & Fu & Fd & Nu & Nd).
    exists sec', us', ds'. rewrite E.
    split; [done|]. split; [by apply sublist_cons|]. split; [by apply sublist_cons|].
    split; [done|]. split; [done|]. split.
    - inversion 1; congruence.
    - intros H Hs. inversion H; subst. by apply Nd. }
  destruct (is_down_marker line) eqn:Ed.
  { rewrite parse_line_down_marker by done.
    destruct (IH (Some SecDown) us ds)
      as (sec' & us' & ds' & E & Su & Sd & Fu & Fd & Nu & Nd).
    exists sec', us', ds'. rewrite E.
    split; [done|]. split; [by apply sublist_cons|]. split; [by apply sublist_cons|].
    split; [done|]. split; [done|]. split.
    - intros H Hs. inversion H; subst. by apply Nu.
    - inversion 1; congruence. }
  destruct (is_comment line) eqn:Ec.
  { rewrite parse_line_comment by done.
    pose proof (Hstep sec [] []) as H. rewrite !app_nil_r in H. apply H; auto. }
  rewrite parse_line_text by done.
  destruct sec as [[]|].
  - pose proof (Hstep (Some SecUp) [line] []) as H.
    rewrite section_text_snoc, app_nil_r in H. apply H; auto.
  - pose proof (Hstep (Some SecDown) [] [line]) as H.
    rewrite section_text_snoc, app_nil_r in H. apply H; auto.
  - pose proof (Hstep None [] []) as H. rewrite !app_nil_r in H. apply H; auto.
Qed.

Lemma parseCQLFile_parse_lines content :
  parseCQLFile content =
  let st := parse_lines (None, (EmptyString, EmptyString)) (lines content) in
  if (String.length (Js.trim st.2.1) =? 0)%nat then Throw no_up_section
  else if (String.length (Js.trim st.2.2) =? 0)%nat then Throw no_down_section
  else Ok st.2.
Proof.
  unfold parseCQLFile, parse_lines, lines.
  destruct (foldl parse_line _ _) as [sec [sup sdown]]. simpl.
  repeat case_match; done.
Qed.

Lemma length_zero_iff s : (String.length s =? 0)%nat = true <-> s = EmptyString.
Proof. destruct s; simpl; split; done. Qed.

(** What a [.cql] file gives.  When [parseCQLFile] returns, each of the
    two sections is made of whole lines of the file, in the order of the
    file, each followed by a line end; no comment line — a line that
    starts with [--] once trimmed — is among them; the file has a line
    that starts with [-- +migrate Up] and one that starts with
    [-- +migrate Down]; and neither section is blank. *)
Theorem parseCQLFile_keeps_whole_lines content sup sdown :
  parseCQLFile content = Ok (sup, sdown) ->
  exists us ds,
    sup = section_text us /\ sdown = section_text ds
    /\ sublist us (lines content) /\ sublist ds (lines content)
    /\ Forall (fun l => is_comment l = false) us
    /\ Forall (fun l => is_comment l = false) ds
    /\ Exists (fun l => is_up_marker l = true) (lines content)
    /\ Exists (fun l => is_down_marker l = true) (lines content)
    /\ Js.trim sup <> EmptyString /\ Js.trim sdown <> EmptyString.
Proof.
  rewrite parseCQLFile_parse_lines. cbv zeta.
  destruct (parse_lines_sections (lines content) None [] [])
    as (sec' & us & ds & E & Su & Sd & Fu & Fd & Nu & Nd).
  change (section_text []) with EmptyString in E. rewrite E. simpl.
  destruct (String.length (Js.trim (section_text us)) =? 0)%nat eqn:Eu; [done|].
  destruct (String.length (Js.trim (section_text ds)) =? 0)%nat eqn:Ed; [done|].
  intros [= <- <-]. exists us, ds.
  assert (forall s, (String.length (Js.trim s) =? 0)%nat = false ->
                    Js.trim s <> EmptyString) as Hne.
  { intros s Hs Ht. by rewrite Ht in Hs. }
  repeat split; auto.
  - destruct (List.Forall_Exists_dec (fun l => is_up_marker l = false)
                (fun l => bool_dec (is_up_marker l) false) (lines content)) as [H|H].
    + rewrite Nu in Eu by done. done.
    + eapply List.Exists_impl; [|exact H]. intros l Hl. by apply not_false_is_true.
  - destruct (List.Forall_Exists_dec (fun l => is_down_marker l = false)
                (fun l => bool_dec (is_down_marker l) false) (lines content)) as [H|H].
    + rewrite Nd in Ed by done. done.
    + eapply List.Exists_impl; [|exact H]. intros l Hl. by apply not_false_is_true.
Qed.

Lemma section_text_blank ls :
  Forall (fun l => is_blank l = true) ls -> Js.trim (section_text ls) = EmptyString.
Proof.
  intros H. apply trim_empty.
  induction H as [|l ls Hl _ IH]; simpl; [constructor|].
  unfold section_text. simpl. rewrite !chars_app. apply Forall_app. split.
  { by apply is_blank_iff. }
  apply Forall_app. split; [by repeat constructor|exact IH].
Qed.

(** The errors of [parseCQLFile].  It raises one of two errors and no
    other.  It raises the error of the missing [Up] section when no line
    of the file starts with [-- +migrate Up], and also when the file has
    its markers but every other line is a comment line or blank; it
    raises one of the two when no line starts with
    [-- +migrate Down]. *)
Theorem parseCQLFile_errors content :
  (forall e, parseCQLFile content = Throw e ->
             e = no_up_section \/ e = no_down_section)
  /\ (Forall (fun l => is_up_marker l = false) (lines content) ->
      parseCQLFile content = Throw no_up_section)
  /\ (Forall (fun l => is_comment l = true \/ is_blank l = true) (lines content) ->
      parseCQLFile content = Throw no_up_section)
  /\ (Forall (fun l => is_down_marker l = false) (lines content) ->
      parseCQLFile content = Throw no_up_section
      \/ parseCQLFile content = Throw no_down_section).
Proof.
  rewrite parseCQLFile_parse_lines. cbv zeta.
  destruct (parse_lines_sections (lines content) None [] [])
    as (sec' & us & ds & E & Su & Sd & Fu & Fd & Nu & Nd).
  change (section_text []) with EmptyString in E. rewrite E. simpl.
  split; [|split; [|split]].
  - intros e. repeat case_match; intros [= <-]; auto.
  - intros H. by rewrite Nu.
  - intros H. rewrite section_text_blank; [done|].
    apply Forall_forall. intros l Hl.
    assert (l ∈ lines content) as Hin by (by eapply elem_of_sublist).
    rewrite Forall_forall in H, Fu.
    destruct (H l Hin) as [Hc|Hb]; [|done]. specialize (Fu l Hl). congruence.
  - intros H. rewrite (Nd H) by done. simpl.
    destruct (_ =? _)%nat; auto.
Qed.

Lemma parse_lines_ignored sup sdown ls :
  Forall (fun l => is_up_marker l = false /\ is_down_marker l = false) ls ->
  parse_lines (None, (sup, sdown)) ls = (None, (sup, sdown)).
Proof.
  induction 1 as [|l ls [Hu Hd] _ IH]; [done|]. rewrite parse_lines_cons.
  destruct (is_comment l) eqn:Ec.
  - by rewrite parse_line_comment.
  - by rewrite parse_line_text.
Qed.

Lemma parse_lines_up sup sdown ls :
  Forall (fun l => is_comment l = false) ls ->
  parse_lines (Some SecUp, (sup, sdown)) ls
  = (Some SecUp, (sup +:+ section_text ls, sdown)).
Proof.
  intros H. revert sup. induction H as [|l ls Hl _ IH]; intros sup.
  - simpl. by rewrite string_app_nil_r.
  - rewrite parse_lines_cons, parse_line_text, IH by done.
    unfold section_text. simpl. by rewrite !string_app_assoc.
Qed.

Lemma parse_lines_down sup sdown ls :
  Forall (fun l => is_comment l = false) ls ->
  parse_lines (Some SecDown, (sup, sdown)) ls
  = (Some SecDown, (sup, sdown +:+ section_text ls)).
Proof.
  intros H. revert sdown. induction H as [|l ls Hl _ IH]; intros sdown.
  - simpl. by rewrite string_app_nil_r.
  - rewrite parse_lines_cons, parse_line_text, IH by done.
    unfold section_text. simpl. by rewrite !string_app_assoc.
Qed.

(** The file format.  A file made of a header without marker lines, a
    line that starts with [-- +migrate Up], the lines [ups], a line that
    starts with [-- +migrate Down] and the lines [downs], where no line
    of [ups] and [downs] is a comment line and neither part is blank,
    parses to the two sections [ups] and [downs], every line with its
    line end: the parse gives back the lines that were written. *)
Theorem parseCQLFile_reads_sections pre mu ups md downs :
  Forall (fun l => ~ has_char (ascii_of_nat 10) l)
    (pre ++ [mu] ++ ups ++ [md] ++ downs) ->
  Forall (fun l => is_up_marker l = false /\ is_down_marker l = false) pre ->
  is_up_marker mu = true ->
  is_down_marker md = true ->
  Forall (fun l => is_comment l = false) (ups ++ downs) ->
  is_blank (section_text ups) = false ->
  is_blank (section_text downs) = false ->
  parseCQLFile (Js.join Js.nl (pre ++ [mu] ++ ups ++ [md] ++ downs))
  = Ok (section_text ups, section_text downs).
Proof.
  intros Hnl Hpre Hmu Hmd Htext Hups Hdowns.
  apply Forall_app in Htext as [Hu Hd].
  rewrite parseCQLFile_parse_lines. cbv zeta. unfold lines.
  rewrite split_join; [|by destruct pre|done].
  rewrite parse_lines_app, parse_lines_ignored by done.
  rewrite parse_lines_app, parse_lines_one, parse_line_up_marker by done.
  rewrite parse_lines_app, parse_lines_up by done.
  rewrite parse_lines_app, parse_lines_one, parse_line_down_marker by done.
  rewrite parse_lines_down by done. cbn [fst snd].
  change (EmptyString +:+ section_text ups) with (section_text ups).
  change (EmptyString +:+ section_text downs) with (section_text downs).
  unfold is_blank in Hups, Hdowns. by rewrite Hups, Hdowns.
Qed.

(** ** New migration files *)

Lemma all_digits_app a b : all_digits a -> all_digits b -> all_digits (a +:+ b).
Proof. unfold all_digits. rewrite chars_app. intros. by apply Forall_app. Qed.

Lemma pretty_N_go_digits x s :
  all_digits s -> all_digits (pretty_N_go x s) /\ (s <> EmptyString -> pretty_N_go x s <> EmptyString).
Proof.
  revert s. induction (N.lt_wf_0 x) as [x _ IH]. intros s Hs.
  destruct (decide (x = 0%N)) as [->|Hx].
  { by rewrite pretty_N_go_0. }
  rewrite pretty_N_go_step by lia.
  destruct (IH (x / 10)%N) with (s := String (pretty_N_char (x mod 10)) s) as [H1 H2].
  - apply N.div_lt; lia.
  - constructor; [|done].
    assert (x mod 10 < 10)%N as Hm by (apply N.mod_lt; lia).
    destruct (x mod 10)%N as [|p]; [done|].
    do 4 (destruct p as [p|p|]; try done); lia.
  - split; [done|]. intros _. by apply H2.
Qed.

Lemma ofNat_digits n : all_digits (Js.ofNat n) /\ Js.ofNat n <> EmptyString.
Proof.
  unfold Js.ofNat, pretty, pretty_nat, pretty, pretty_N.
  destruct (decide (N.of_nat n = 0%N)).
  - split; [by repeat constructor|done].
  - assert (0 < N.of_nat n)%N as Hpos by lia.
    rewrite pretty_N_go_step by done.
    destruct (pretty_N_go_digits (N.of_nat n / 10)
                (String (pretty_N_char (N.of_nat n mod 10)) EmptyString)) as [H1 H2].
    + constructor; [|constructor].
      assert (N.of_nat n mod 10 < 10)%N as Hm by (apply N.mod_lt; lia).
      destruct (N.of_nat n mod 10)%N as [|p]; [done|].
      do 4 (destruct p as [p|p|]; try done); lia.
    + split; [done|]. by apply H2.
Qed.

Lemma repeat_digits n : all_digits (Js.repeat "0" n).
Proof.
  induction n as [|n IH]; simpl; [constructor|]. by constructor.
Qed.

Lemma padStart_digits s n : all_digits s -> all_digits (Js.padStart s n "0").
Proof. intros H. unfold Js.padStart. apply all_digits_app; [apply repeat_digits|done]. Qed.

Lemma generateTimestamp_digits now :
  all_digits (generateTimestamp now) /\ generateTimestamp now <> EmptyString.
Proof.
  unfold generateTimestamp. split.
  - repeat (apply all_digits_app; [first [apply ofNat_digits|apply padStart_digits, ofNat_digits]|]).
    apply padStart_digits, ofNat_digits.
  - destruct (ofNat_digits (getFullYear now)) as [_ H].
    destruct (Js.ofNat (getFullYear now)); done.
Qed.

Lemma leadingDigits_app ds c rest :
  all_digits ds -> Js.is_digit c = false ->
  Js.leadingDigits (ds +:+ String c rest) = ds.
Proof.
  intros H Hc. induction ds as [|d ds IH]; simpl.
  - by rewrite Hc.
  - inversion H as [|?? Hd Hds]; subst. rewrite Hd. f_equal. by apply IH.
Qed.

Lemma string_rev_app a b : String.rev (a +:+ b) = String.rev b +:+ String.rev a.
Proof. apply chars_inj. by rewrite chars_app, !chars_rev, chars_app, rev_app_distr. Qed.

Lemma endsWith_intro x p : Js.endsWith (x +:+ p) p = true.
Proof.
  unfold Js.endsWith. rewrite string_rev_app.
  apply (proj2 (startsWith_app _ _)). by eexists.
Qed.

Lemma created_name_ok join now dir stem extension :
  created_as join dir extension now
    (join dir (generateTimestamp now +:+ "_" +:+ stem +:+ extension)).
Proof.
  eexists. split; [reflexivity|]. split.
  - rewrite <- !string_app_assoc. apply endsWith_intro.
  - destruct (generateTimestamp_digits now) as [Hd Hne].
    unfold extractMigrationId.
    change (generateTimestamp now +:+ "_" +:+ stem +:+ extension)
      with (generateTimestamp now +:+ String "_" (stem +:+ extension)).
    rewrite leadingDigits_app by done.
    by destruct (generateTimestamp now).
Qed.

(** *** The [.cql] template *)

Lemma parseCQLFile_comment_only content :
  Forall (fun l => is_comment l = true \/ is_blank l = true) (lines content) ->
  parseCQLFile content = Throw no_up_section.
Proof.
  intros H. rewrite parseCQLFile_parse_lines. cbv zeta.
  destruct (parse_lines_sections (lines content) None [] [])
    as (sec' & us & ds & E & Su & _ & Fu & _).
  change (section_text []) with EmptyString in E. rewrite E. simpl.
  rewrite section_text_blank; [done|].
  apply Forall_forall. intros l Hl.
  assert (l ∈ lines content) as Hin by (by eapply elem_of_sublist).
  rewrite Forall_forall in H, Fu.
  destruct (H l Hin) as [Hc|Hb]; [|done]. specialize (Fu l Hl). congruence.
Qed.

Lemma drop_white_snoc l c :
  Js.is_white c = false -> drop_white (l ++ [c]) = drop_white l ++ [c].
Proof.
  intros Hc. induction l as [|x l IH]; simpl.
  - by rewrite Hc.
  - destruct (Js.is_white x); [exact IH|done].
Qed.

Lemma trim_cons c s :
  Js.is_white c = false -> Js.trim (String c s) = String c (Js.trimEnd s).
Proof.
  intros Hc. apply chars_inj. rewrite chars_trim. simpl. rewrite Hc. simpl.
  rewrite drop_white_snoc by done. rewrite rev_app_distr. simpl.
  unfold Js.trimEnd. by rewrite chars_rev, chars_trimStart, chars_rev.
Qed.

Lemma trimEnd_cons c s :
  Js.is_white c = false -> Js.trimEnd (String c s) = String c (Js.trimEnd s).
Proof.
  intros Hc. apply chars_inj. unfold Js.trimEnd.
  rewrite chars_rev, chars_trimStart, chars_rev. simpl.
  rewrite drop_white_snoc by done. rewrite rev_app_distr. simpl.
  by rewrite chars_rev, chars_trimStart, chars_rev.
Qed.

Lemma is_comment_dashes x : is_comment ("--" +:+ x) = true.
Proof.
  unfold is_comment. change ("--" +:+ x) with (String "-" (String "-" x)).
  rewrite trim_cons, trimEnd_cons by done.
  apply (proj2 (startsWith_app _ _)). by eexists.
Qed.

Lemma has_char_app_not c a b :
  ~ has_char c a -> ~ has_char c b -> ~ has_char c (a +:+ b).
Proof.
  unfold has_char. rewrite chars_app. intros Ha Hb H.
  apply in_app_or in H as [H|H]; auto.
Qed.

Lemma cql_template_comment_only name created :
  Forall (fun l => is_comment l = true \/ is_blank l = true)
    (cql_template_lines name created).
Proof.
  unfold cql_template_lines.
  repeat (constructor;
          [first [by right | left; apply (is_comment_dashes _) | by left]|]).
  constructor.
Qed.

(** A new [.cql] migration has to be edited before anything loads.
    For a name given on the command line without a line break, the text
    that [createCQLMigration] writes is refused by [parseCQLFile] with
    the error of the missing [Up] section: under its two markers it
    holds comment lines only.  So [loadCQLMigration] raises for the file
    as created, and with it [loadMigrations] and every operation of the
    engine on that directory. *)
Theorem created_cql_migration_does_not_load name created :
  ~ has_char (ascii_of_nat 10) name ->
  ~ has_char (ascii_of_nat 10) created ->
  parseCQLFile (getCQLMigrationTemplate name created) = Throw no_up_section
  /\ forall (readFileSync : string -> Result string) filePath i filename w,
       readFileSync filePath = Ok (getCQLMigrationTemplate name created) ->
       (FileSystemManager.loadCQLMigration readFileSync filePath i filename w).1
       = Throw (JsError ("Failed to load CQL migration " +:+ filename +:+ ": "
                         +:+ show no_up_section)).
Proof.
  intros Hname Hcreated.
  assert (parseCQLFile (getCQLMigrationTemplate name created) = Throw no_up_section)
    as Hparse.
  { apply parseCQLFile_comment_only. unfold lines, getCQLMigrationTemplate.
    rewrite split_join; [apply cql_template_comment_only|done|].
    unfold cql_template_lines.
    constructor; [apply has_char_app_not; [clear; vm_compute; intuition discriminate|done]|].
    constructor; [apply has_char_app_not; [clear; vm_compute; intuition discriminate|done]|].
    repeat (constructor; [clear; vm_compute; intuition discriminate|]). constructor. }
  split; [exact Hparse|].
  intros readFileSync filePath i filename w Hread.
  unfold FileSystemManager.loadCQLMigration, try_catch, bind, note_load, lift.
  rewrite Hread, Hparse. reflexivity.
Qed.

(** ** The table of the logger *)

Lemma string_length_app a b :
  String.length (a +:+ b) = (String.length a + String.length b)%nat.
Proof. induction a as [|c a IH]; simpl; [done|]. by rewrite IH. Qed.

Lemma repeat_length c n : String.length (Js.repeat (String c EmptyString) n) = n.
Proof.
  induction n as [|n IH]; [done|].
  change (Js.repeat (String c EmptyString) (S n))
    with (String c EmptyString +:+ Js.repeat (String c EmptyString) n).
  by rewrite string_length_app, IH.
Qed.

Lemma padEnd_length s n c :
  (String.length s <= n)%nat -> String.length (Js.padEnd s n c) = n.
Proof.
  intros H. unfold Js.padEnd. rewrite string_length_app, repeat_length. lia.
Qed.

Lemma padEnd_starts s n c : exists filler, Js.padEnd s n c = s +:+ filler.
Proof. by eexists. Qed.

(** Fields of equal widths joined by the same separator make lines of
    equal length. *)
Lemma join_length sep fields :
  String.length (Js.join sep fields)
  = (sum_list (String.length <$> fields)
     + String.length sep * (List.length fields - 1))%nat.
Proof.
  induction fields as [|f fields IH]; [simpl; lia|].
  destruct fields as [|g fields].
  - simpl. lia.
  - change (Js.join sep (f :: g :: fields)) with (f +:+ sep +:+ Js.join sep (g :: fields)).
    rewrite !string_length_app, IH. simpl. lia.
Qed.

Lemma in_columns_length widths sep texts line :
  in_columns widths sep texts line ->
  String.length line
  = (sum_list widths + String.length sep * (List.length widths - 1))%nat.
Proof.
  intros (fields & -> & H & _). rewrite join_length.
  assert (String.length <$> fields = widths) as <-.
  { induction H as [|f w fields widths Hf _ IH]; [done|].
    by rewrite fmap_cons, Hf, IH. }
  by rewrite length_fmap.
Qed.

Lemma rule_in_columns widths :
  in_columns widths "-+-" ((fun width => Js.repeat "-" width) <$> widths)
    (Js.join "-+-" ((fun width => Js.repeat "-" width) <$> widths)).
Proof.
  eexists. split; [reflexivity|]. split.
  - induction widths as [|w ws IH]; simpl; constructor; [apply repeat_length|exact IH].
  - apply Forall2_same_length_lookup_2; [done|]. intros i x y Hx Hy.
    exists EmptyString. rewrite string_app_nil_r. congruence.
Qed.

Section TableProperties.

Variable Rec : Type.
Variable keys : Rec -> list string.
Variable cell : Rec -> string -> string.

Lemma list_max_ge l x : In x l -> (x <= list_max l)%nat.
Proof.
  intros H. pose proof (proj1 (list_max_le l (list_max l)) (le_n _)) as Hall.
  rewrite List.Forall_forall in Hall. by apply Hall.
Qed.

Lemma maxWidth_header data header :
  (String.length header <= Logger.maxWidth Rec cell data header)%nat.
Proof. apply list_max_ge. by left. Qed.

Lemma maxWidth_cell data header row :
  In row data ->
  (String.length (cell row header) <= Logger.maxWidth Rec cell data header)%nat.
Proof.
  intros H. apply list_max_ge. right.
  apply in_map_iff. by exists row.
Qed.

Lemma padded_in_columns data headers (text : string -> string) :
  (forall header, (String.length (text header)
                   <= Logger.maxWidth Rec cell data header)%nat) ->
  in_columns (Logger.maxWidth Rec cell data <$> headers) " | " (text <$> headers)
    (Js.join " | "
       (zip_with (fun header width => Js.padEnd (text header) width " ")
          headers (Logger.maxWidth Rec cell data <$> headers))).
Proof.
  intros Htext. eexists. split; [reflexivity|]. split.
  - induction headers as [|h headers IH]; simpl; [constructor|].
    constructor; [|exact IH]. by apply padEnd_length.
  - induction headers as [|h headers IH]; simpl; [constructor|].
    constructor; [|exact IH]. apply padEnd_starts.
Qed.

(** The table is aligned.  For a non-empty array of rows,
    [Logger.table] prints the header line in bold, a rule, and one line
    per row in the order of the rows.  Every line holds one field per
    key of the first row.  The field of a column is exactly as wide in
    every line, as wide as the longest of the header and of the cells
    of the column, and it starts with the whole header, or with the
    whole cell of the row: nothing is cut.  So all the lines are
    equally long. *)
Theorem table_is_aligned first rest :
  let data := first :: rest in
  let widths := Logger.maxWidth Rec cell data <$> keys first in
  exists header rule rows,
    Logger.table Rec keys cell data
    = Print true header :: Print false rule :: (Print false <$> rows)
    /\ in_columns widths " | " (keys first) header
    /\ in_columns widths "-+-" ((fun width => Js.repeat "-" width) <$> widths) rule
    /\ Forall2 (fun row line =>
                  in_columns widths " | " (cell row <$> keys first) line)
         data rows
    /\ Forall (fun line => String.length line = String.length header)
         (rule :: rows).
Proof.
  intros data widths. unfold Logger.table. fold data. fold widths.
  exists (Js.join " | "
            (zip_with (fun header width => Js.padEnd header width " ")
               (keys first) widths)),
    (Js.join "-+-" ((fun width => Js.repeat "-" width) <$> widths)),
    ((fun row =>
        Js.join " | "
          (zip_with (fun header width => Js.padEnd (cell row header) width " ")
             (keys first) widths)) <$> data).
  split.
  { cbn [app]. f_equal. f_equal. by rewrite <- list_fmap_compose. }
  assert (in_columns widths " | " (keys first)
            (Js.join " | "
               (zip_with (fun header width => Js.padEnd header width " ")
                  (keys first) widths))) as Hheader.
  { pose proof (padded_in_columns data (keys first) (fun header => header)) as H.
    rewrite list_fmap_id in H. apply H, maxWidth_header. }
  pose proof (rule_in_columns widths) as Hrule.
  assert (Forall2 (fun row line =>
                     in_columns widths " | " (cell row <$> keys first) line)
            data
            ((fun row =>
                Js.join " | "
                  (zip_with (fun header width => Js.padEnd (cell row header) width " ")
                     (keys first) widths)) <$> data)) as Hrows.
  { apply Forall2_fmap_r, Forall_Forall2_diag, Forall_forall. intros row Hrow.
    apply (padded_in_columns data (keys first) (cell row)).
    intros header. apply maxWidth_cell. by apply list_elem_of_In. }
  split; [exact Hheader|]. split; [exact Hrule|]. split; [exact Hrows|].
  constructor.
  - rewrite (in_columns_length _ _ _ _ Hrule), (in_columns_length _ _ _ _ Hheader). done.
  - apply Forall_forall. intros line Hline.
    apply list_elem_of_lookup in Hline as [j Hj].
    destruct (Forall2_lookup_r _ _ _ j line Hrows Hj) as (row & _ & Hcol).
    by rewrite (in_columns_length _ _ _ _ Hcol), (in_columns_length _ _ _ _ Hheader).
Qed.

End TableProperties.

(** ** The configuration *)

Lemma join_split sep s : Js.join (String sep EmptyString) (Js.split sep s) = s.
Proof.
  induction s as [|c s IH]; [done|]. simpl.
  pose proof (split_nonempty sep s) as Hne.
  destruct (Ascii.eqb c sep) eqn:E.
  - apply Ascii.eqb_eq in E as ->.
    destruct (Js.split sep s) as [|x xs]; [done|].
    change (Js.join (String sep EmptyString) (EmptyString :: x :: xs))
      with (String sep (Js.join (String sep EmptyString) (x :: xs))).
    by rewrite IH.
  - destruct (Js.split sep s) as [|x xs]; [done|].
    rewrite <- IH. by destruct xs.
Qed.

(** [createClient] and the environment.  Without a value of
    [KEYSPACE_KEYSPACE], unset or empty, [createClient] raises and logs
    nothing, also when the caller passes a configuration that names a
    keyspace.  With one, [createClient()] gives [new Client] that
    keyspace and the contact points of [KEYSPACE_CONTACT_POINTS] split
    at the commas, or [127.0.0.1:9042] when the variable is unset: the
    list is never empty, no contact point holds a comma, and joined with
    commas they are the value of the variable.  The port 9142 is set
    exactly when a contact point contains [amazonaws.com].  The
    database is not touched. *)
Theorem createClient_reads_the_environment env w :
  (falsy (env !! "KEYSPACE_KEYSPACE") = true ->
   forall config,
     ConfigLoader.createClient env config w
     = (Throw (JsError "KEYSPACE_KEYSPACE environment variable is required"), w))
  /\ (falsy (env !! "KEYSPACE_KEYSPACE") = false ->
      exists options lg,
        ConfigLoader.createClient env None w = (Ok options, add_log w lg)
        /\ env !! "KEYSPACE_KEYSPACE" = Some (ConfigLoader.o_keyspace options)
        /\ ConfigLoader.o_contactPoints options <> []
        /\ Forall (fun cp => ~ has_char "," cp) (ConfigLoader.o_contactPoints options)
        /\ Js.join "," (ConfigLoader.o_contactPoints options)
           = default "127.0.0.1:9042" (env !! "KEYSPACE_CONTACT_POINTS")
        /\ (ConfigLoader.o_protocolOptions options = Some 9142
            <-> exists cp, In cp (ConfigLoader.o_contactPoints options)
                           /\ Js.includes cp "amazonaws.com" = true)).
Proof.
  split.
  - intros H config. unfold ConfigLoader.createClient, ConfigLoader.loadDatabaseConfig,
      bind, lift. by rewrite H.
  - intros H. unfold ConfigLoader.createClient, ConfigLoader.loadDatabaseConfig,
      bind, lift. rewrite H. simpl. unfold ret.
    eexists _, [_; _]. split.
    { unfold logger, add_log. simpl. rewrite <- app_assoc. reflexivity. }
    simpl.
    split; [by destruct (env !! "KEYSPACE_KEYSPACE")|].
    split; [destruct (env !! "KEYSPACE_CONTACT_POINTS"); [apply split_nonempty|done]|].
    split.
    { destruct (env !! "KEYSPACE_CONTACT_POINTS"); [apply split_no_sep|].
      repeat constructor. vm_compute. intuition discriminate. }
    split; [destruct (env !! "KEYSPACE_CONTACT_POINTS"); [apply join_split|done]|].
    destruct (existsb _ _) eqn:E.
    + split; [intros _|done]. apply existsb_exists in E. exact E.
    + split; [done|]. intros Hex. apply existsb_exists in Hex. congruence.
Qed.

(** ** Timestamps and the order of the files *)

Lemma padStart_two n :
  (n < 100)%nat ->
  Js.padStart (Js.ofNat n) 2 "0" = two_digits EmptyString [n].
Proof.
  intros Hn.
  assert (forallb (fun n => String.eqb (Js.padStart (Js.ofNat n) 2 "0")
                              (two_digits EmptyString [n]))
            (seq 0 100) = true) as H by (vm_compute; reflexivity).
  rewrite forallb_forall in H. apply String.eqb_eq, H, in_seq. lia.
Qed.

Lemma ofNat_four n :
  (1000 <= n < 100 * 100)%nat ->
  Js.ofNat n = two_digits EmptyString [n / 100; n mod 100]%nat.
Proof.
  intros Hn.
  assert (forallb (fun n => String.eqb (Js.ofNat n)
                              (two_digits EmptyString [n / 100; n mod 100]%nat))
            (seq 1000 (9 * 1000)) = true) as H by (vm_compute; reflexivity).
  rewrite forallb_forall in H. apply String.eqb_eq, H, in_seq. lia.
Qed.

Lemma two_digits_app rest l1 l2 :
  two_digits rest (l1 ++ l2) = two_digits (two_digits rest l2) l1.
Proof. unfold two_digits. by rewrite foldr_app. Qed.

Lemma two_digits_rest rest l : two_digits EmptyString l +:+ rest = two_digits rest l.
Proof. induction l as [|n l IH]; [done|]. simpl. by rewrite <- IH. Qed.

Lemma generateTimestamp_two_digits now rest :
  on_the_calendar now ->
  generateTimestamp now +:+ rest
  = two_digits rest
      [getFullYear now / 100; getFullYear now mod 100; getMonth now + 1; getDate now;
       getHours now; getMinutes now; getSeconds now]%nat.
Proof.
  intros (Hy & Hm & Hd & Hh & Hmi & Hs). unfold generateTimestamp.
  rewrite ofNat_four by done. rewrite !padStart_two by lia.
  rewrite !string_app_assoc, !two_digits_rest. reflexivity.
Qed.

Lemma digit_compare a b :
  (a < 10)%nat -> (b < 10)%nat -> Ascii.compare (digit a) (digit b) = Nat.compare a b.
Proof.
  intros Ha Hb. unfold Ascii.compare, digit, ascii_of_nat.
  rewrite !N_ascii_embedding by lia.
  destruct (Nat.compare_spec a b) as [->|H|H].
  - apply N.compare_refl.
  - apply N.compare_lt_iff. lia.
  - apply N.compare_gt_iff. lia.
Qed.

Lemma two_digits_compare n1 n2 l1 l2 r1 r2 :
  (n1 < 100)%nat -> (n2 < 100)%nat ->
  String.compare (two_digits r1 (n1 :: l1)) (two_digits r2 (n2 :: l2))
  = match Nat.compare n1 n2 with
    | Eq => String.compare (two_digits r1 l1) (two_digits r2 l2)
    | c => c
    end.
Proof.
  intros H1 H2. unfold two_digits. cbn [foldr String.compare].
  pose proof (Nat.div_mod_eq n1 10) as E1. pose proof (Nat.div_mod_eq n2 10) as E2.
  assert (n1 / 10 < 10 /\ n1 mod 10 < 10 /\ n2 / 10 < 10 /\ n2 mod 10 < 10)%nat
    as (Ha & Hb & Hc & Hd).
  { repeat split; try (apply Nat.mod_upper_bound; lia);
      apply Nat.Div0.div_lt_upper_bound; lia. }
  rewrite !digit_compare by done.
  destruct (Nat.compare_spec (n1 / 10) (n2 / 10)) as [Et|Ht|Ht].
  - destruct (Nat.compare_spec (n1 mod 10) (n2 mod 10)) as [Eu|Hu|Hu].
    + assert (n1 = n2) as -> by lia. by rewrite Nat.compare_refl.
    + assert (n1 < n2)%nat as H by lia. by apply Nat.compare_lt_iff in H as ->.
    + assert (n2 < n1)%nat as H by lia. by apply Nat.compare_gt_iff in H as ->.
  - assert (n1 < n2)%nat as H by lia. by apply Nat.compare_lt_iff in H as ->.
  - assert (n2 < n1)%nat as H by lia. by apply Nat.compare_gt_iff in H as ->.
Qed.

Lemma two_digits_lt l1 l2 r1 r2 :
  Forall (fun n => n < 100)%nat l1 -> Forall (fun n => n < 100)%nat l2 ->
  lex_lt l1 l2 ->
  String.compare (two_digits r1 l1) (two_digits r2 l2) = Lt.
Proof.
  intros H1. revert l2. induction H1 as [|n1 l1 Hn1 _ IH]; intros l2 H2 Hlt; [done|].
  destruct H2 as [|n2 l2 Hn2 H2]; [done|].
  rewrite two_digits_compare by done.
  destruct Hlt as [Hlt|[-> Hlt]].
  - by apply Nat.compare_lt_iff in Hlt as ->.
  - rewrite Nat.compare_refl. by apply IH.
Qed.

Lemma earlier_timestamp_below a b ra rb :
  on_the_calendar a -> on_the_calendar b -> earlier a b ->
  String.ltb (generateTimestamp a +:+ ra) (generateTimestamp b +:+ rb) = true.
Proof.
  intros Ha Hb Hab. rewrite !generateTimestamp_two_digits by done.
  unfold String.ltb. rewrite two_digits_lt; [done| | |].
  - destruct Ha as (Hy & Hm & Hd & Hh & Hmi & Hs).
    repeat (constructor; [first [lia | apply Nat.Div0.div_lt_upper_bound; lia
                                | apply Nat.mod_upper_bound; lia]|]).
    constructor.
  - destruct Hb as (Hy & Hm & Hd & Hh & Hmi & Hs).
    repeat (constructor; [first [lia | apply Nat.Div0.div_lt_upper_bound; lia
                                | apply Nat.mod_upper_bound; lia]|]).
    constructor.
  - unfold earlier in Hab. cbn [lex_lt] in Hab |- *.
    pose proof (Nat.div_mod_eq (getFullYear a) 100).
    pose proof (Nat.div_mod_eq (getFullYear b) 100).
    assert (getFullYear a mod 100 < 100 /\ getFullYear b mod 100 < 100)%nat as [? ?]
      by (split; apply Nat.mod_upper_bound; lia).
    destruct Hab as [Hy|[Ey Hab]].
    + destruct (Nat.compare_spec (getFullYear a / 100) (getFullYear b / 100))
        as [E|L|G]; [right; split; [done|]; left; lia|by left|lia].
    + right. split; [by rewrite Ey|]. right. split; [by rewrite Ey|].
      destruct Hab as [Hmo|[Emo Hab]]; [left; lia|right; split; [lia|]].
      exact Hab.
Qed.


(** ** Properties *)

Section Properties.

Variable existsSync : string -> bool.
Variable readdirSync : string -> list string.
Variable importModule : string -> Imported.
Variable readFileSync : string -> Result string.
Variable client : list Call -> Call -> option Exn.
Variable clock : nat -> Z.
Variable calculateChecksum : string -> string.
Variable migrationsDir : string.
Variable migrationsTable : string.

Local Abbreviation loadMigrations :=
  (FileSystemManager.loadMigrations existsSync readdirSync importModule readFileSync).
Local Abbreviation load_loop :=
  (FileSystemManager.load_loop importModule readFileSync).
Local Abbreviation loadMigrationFile :=
  (FileSystemManager.loadMigrationFile importModule readFileSync).
Local Abbreviation recognized := (FileSystemManager.recognized readdirSync).
Local Abbreviation execute := (Migrator.execute client).
Local Abbreviation getAppliedMigrations :=
  (Migrator.getAppliedMigrations client migrationsTable).
Local Abbreviation recordMigration :=
  (Migrator.recordMigration client clock calculateChecksum).
Local Abbreviation removeMigrationRecord := (Migrator.removeMigrationRecord client).
Local Abbreviation run_statement := (Migrator.run_statement client).
Local Abbreviation executeCQL := (Migrator.executeCQL client).
Local Abbreviation load_both :=
  (Migrator.load_both existsSync readdirSync importModule readFileSync client
     migrationsDir migrationsTable).
Local Abbreviation apply_one := (Migrator.apply_one client clock calculateChecksum).
Local Abbreviation rollback_one := (Migrator.rollback_one client).
Local Abbreviation reset_one := (Migrator.reset_one client).
Local Abbreviation up_ :=
  (Migrator.up existsSync readdirSync importModule readFileSync client clock
     calculateChecksum migrationsDir migrationsTable).
Local Abbreviation down_ :=
  (Migrator.down existsSync readdirSync importModule readFileSync client
     migrationsDir migrationsTable).
Local Abbreviation reset_ :=
  (Migrator.reset existsSync readdirSync importModule readFileSync client
     migrationsDir migrationsTable).
Local Abbreviation status_ :=
  (Migrator.status existsSync readdirSync importModule readFileSync client
     migrationsDir migrationsTable).

(** Drops the collaborators a goal does not mention, so that closing
    tactics cannot pick them up. *)
Ltac forget :=
  repeat match goal with
         | f : string -> bool |- _ => clear f
         | f : string -> list string |- _ => clear f
         | f : string -> Imported |- _ => clear f
         | f : string -> Result string |- _ => clear f
         | f : list Call -> Call -> option Exn |- _ => clear f
         | f : nat -> Z |- _ => clear f
         | f : string -> string |- _ => clear f
         | s : string |- _ => clear s
         end.

(** *** The loader leaves the database alone *)

Lemma same_db_refl w : same_db w w.
Proof. by unfold same_db. Qed.

Lemma same_db_trans w1 w2 w3 : same_db w1 w2 -> same_db w2 w3 -> same_db w1 w3.
Proof. unfold same_db. intros (-> & -> & ->) (-> & -> & ->). done. Qed.

Lemma loadMigrationFile_same_db p i n w :
  same_db w (loadMigrationFile p i n w).2.
Proof.
  unfold FileSystemManager.loadMigrationFile,
    FileSystemManager.loadTypeScriptMigration, FileSystemManager.loadCQLMigration,
    try_catch, bind, note_load, lift, throw, ret, same_db.
  repeat (case_match; simplify_eq/=); done.
Qed.

Lemma load_loop_same_db dir files acc w :
  same_db w (load_loop dir files acc w).2.
Proof.
  revert acc w. induction files as [|name rest IH]; intros acc w; simpl.
  { apply same_db_refl. }
  unfold bind, lift, try_catch.
  destruct (extractMigrationId name) as [i|e]; simpl; [|apply same_db_refl].
  pose proof (loadMigrationFile_same_db (path_join dir name) i name w) as Hf.
  destruct (loadMigrationFile _ _ _ w) as [[m|e] w1]; simpl in *.
  - eapply same_db_trans; [exact Hf|apply IH].
  - unfold logger, throw; simpl. destruct Hf as (? & ? & ?). by unfold same_db.
Qed.

Lemma loadMigrations_same_db dir w : same_db w (loadMigrations dir w).2.
Proof.
  unfold FileSystemManager.loadMigrations.
  destruct (negb _); [by unfold same_db|apply load_loop_same_db].
Qed.

(** *** Reading the applied-set *)

Lemma getAppliedMigrations_spec w :
  let '(r, w') := getAppliedMigrations w in
  table w' = table w /\ ticks w' = ticks w /\
  match r with
  | Ok apps =>
      apps = rows_of (table w) /\ calls w' = calls w ++ [CreateTable; SelectApplied]
  | Throw _ =>
      calls w' = calls w ++ [CreateTable]
      \/ calls w' = calls w ++ [CreateTable; SelectApplied]
  end.
Proof.
  unfold Migrator.getAppliedMigrations, Migrator.initializeMigrationsTable,
    Migrator.execute, try_catch, bind, throw, logger; simpl.
  destruct (client (calls w) CreateTable) eqn:E1; simpl; [by auto|].
  destruct (client (calls w ++ [CreateTable]) SelectApplied) eqn:E2; simpl;
    rewrite <- app_assoc; simpl; auto.
Qed.

Lemma load_both_spec w :
  let '(r, w') := load_both w in
  table w' = table w /\ ticks w' = ticks w /\
  match r with
  | Ok (defs, apps) =>
      (loadMigrations migrationsDir w).1 = Ok defs
      /\ apps = rows_of (table w)
      /\ calls w' = calls w ++ [CreateTable; SelectApplied]
  | Throw _ =>
      calls w' = calls w ++ [CreateTable]
      \/ calls w' = calls w ++ [CreateTable; SelectApplied]
  end.
Proof.
  unfold Migrator.load_both.
  pose proof (loadMigrations_same_db migrationsDir w) as (Ht & Hc & Hk).
  destruct (loadMigrations migrationsDir w) as [r1 w1]; simpl in *.
  pose proof (getAppliedMigrations_spec w1) as Hg.
  destruct (getAppliedMigrations w1) as [r2 w2].
  destruct Hg as (Ht2 & Hk2 & Hg). rewrite Ht, Hc in Hg.
  destruct r1 as [defs|e1], r2 as [apps|e2]; simpl;
    rewrite Ht2, Hk2, Ht, Hk; repeat split; try done;
    solve [by destruct Hg | destruct Hg; auto].
Qed.

(** *** The statement executor *)

Lemma executeCQL_dry cql w :
  executeCQL cql true w =
  (Ok tt,
   mkWorld (table w) (calls w)
     (log w ++ ((fun s => (LInfo, "[DRY RUN] Would execute: " +:+ s))
                <$> statements cql))
     (ticks w) (loaded w)).
Proof.
  unfold Migrator.executeCQL. revert w.
  induction (statements cql) as [|s l IH]; intros w; simpl.
  { unfold ret. rewrite app_nil_r. by destruct w. }
  unfold bind, Migrator.run_statement, logger at 1; simpl.
  rewrite IH; simpl. by rewrite <- app_assoc.
Qed.

Lemma run_live_spec l w :
  let '(r, w') := for_each (run_statement false) l w in
  table w' = table w /\ ticks w' = ticks w /\
  match r with
  | Ok _ =>
      calls w' = calls w ++ (Statement <$> l)
      /\ (forall pre s post, l = pre ++ s :: post ->
          client (calls w ++ (Statement <$> pre)) (Statement s) = None)
  | Throw e =>
      exists pre s post cause,
        l = pre ++ s :: post
        /\ calls w' = calls w ++ (Statement <$> pre) ++ [Statement s]
        /\ client (calls w ++ (Statement <$> pre)) (Statement s) = Some cause
        /\ e = JsError ("Failed to execute CQL: " +:+ s +:+ Js.nl
                        +:+ "Error: " +:+ show cause)
        /\ (forall pre1 s1 post1, pre = pre1 ++ s1 :: post1 ->
            client (calls w ++ (Statement <$> pre1)) (Statement s1) = None)
  end.
Proof.
  revert w. induction l as [|s l IH]; intros w; simpl.
  { unfold ret. rewrite app_nil_r. repeat split; auto.
    intros [|??] ???; discriminate. }
  unfold bind, Migrator.run_statement at 1, try_catch, Migrator.execute, logger,
    throw; simpl.
  destruct (client (calls w) (Statement s)) as [cause|] eqn:E; simpl.
  - repeat split; auto. exists [], s, l, cause. simpl. rewrite app_nil_r.
    repeat split; auto. intros [|??] ???; discriminate.
  - match goal with |- context [for_each _ l ?w1] =>
      specialize (IH w1); destruct (for_each _ l w1) as [[[]|e] w2] end;
      simpl in IH; destruct IH as (Ht & Hk & IH); repeat split; auto.
    + destruct IH as [Hc _]. rewrite Hc, <- app_assoc. done.
    + destruct IH as [_ Hall]. intros [|s0 pre] s1 post Heq; simplify_eq/=.
      * by rewrite app_nil_r.
      * specialize (Hall pre s1 post eq_refl).
        by rewrite <- app_assoc in Hall.
    + destruct IH as (pre & s1 & post & cause & -> & Hc & Hf & -> & Hall).
      exists (s :: pre), s1, post, cause. simpl.
      rewrite <- app_assoc in Hc, Hf. repeat split; auto.
      intros [|s0 pre1] s2 post1 Heq; simplify_eq/=.
      * by rewrite app_nil_r.
      * specialize (Hall pre1 s2 post1 eq_refl).
        by rewrite <- app_assoc in Hall.
Qed.

(** *** Dry runs *)

Lemma add_log_nil w : add_log w [] = w.
Proof. unfold add_log. rewrite app_nil_r. by destruct w. Qed.

Lemma add_log_app w a b : add_log (add_log w a) b = add_log w (a ++ b).
Proof. unfold add_log; simpl. by rewrite <- app_assoc. Qed.

Lemma logger_add_log lv msg w : logger lv msg w = (Ok tt, add_log w [(lv, msg)]).
Proof. reflexivity. Qed.

Lemma bind_logger {B} lv msg (k : unit -> M B) w :
  bind (logger lv msg) k w = k tt (add_log w [(lv, msg)]).
Proof. reflexivity. Qed.

Lemma bind_eq {A B} (m : M A) (k : A -> M B) w r w' :
  m w = (r, w') ->
  bind m k w = match r with Ok a => k a w' | Throw e => (Throw e, w') end.
Proof. unfold bind. by intros ->. Qed.

Lemma try_catch_eq {A} (m : M A) (h : Exn -> M A) w r w' :
  m w = (r, w') ->
  try_catch m h w = match r with Ok a => (Ok a, w') | Throw e => h e w' end.
Proof. unfold try_catch. by intros ->. Qed.

Lemma executeCQL_dry_add_log cql w :
  executeCQL cql true w = (Ok tt, add_log w (dry_messages cql)).
Proof. apply executeCQL_dry. Qed.

Lemma apply_one_dry m w :
  apply_one true m w = (Ok tt, add_log w (dry_apply_log m)).
Proof.
  unfold Migrator.apply_one.
  rewrite (try_catch_eq _ _ w (Ok tt) (add_log w (dry_apply_log m))); [done|].
  rewrite bind_logger. erewrite bind_eq by apply executeCQL_dry_add_log.
  simpl. unfold ret at 1. unfold bind at 1. rewrite logger_add_log, !add_log_app. done.
Qed.

Lemma rollback_one_dry m w :
  rollback_one true m w = (Ok tt, add_log w (dry_rollback_log m)).
Proof.
  unfold Migrator.rollback_one.
  rewrite (try_catch_eq _ _ w (Ok tt) (add_log w (dry_rollback_log m))); [done|].
  rewrite bind_logger. erewrite bind_eq by apply executeCQL_dry_add_log.
  simpl. unfold ret at 1. unfold bind at 1. rewrite logger_add_log, !add_log_app. done.
Qed.

Lemma for_each_apply_dry l w :
  for_each (apply_one true) l w = (Ok tt, add_log w (l ≫= dry_apply_log)).
Proof.
  revert w. induction l as [|m l IH]; intros w; simpl.
  { by rewrite add_log_nil. }
  erewrite bind_eq by apply apply_one_dry. by rewrite IH, add_log_app.
Qed.

Lemma load_both_reads_only w : reads_only w (load_both w).2.
Proof.
  pose proof (load_both_spec w) as H.
  destruct (load_both w) as [[[defs apps]|e] w1]; simpl;
    destruct H as (? & ? & H); unfold reads_only; (forget; intuition auto).
Qed.

Lemma reads_only_add_log w w' a b :
  reads_only w w' -> reads_only (add_log w a) (add_log w' b).
Proof. unfold reads_only, add_log; simpl. done. Qed.

Lemma reads_only_add_log_l w w' a :
  reads_only (add_log w a) w' -> reads_only w w'.
Proof. unfold reads_only, add_log; simpl. done. Qed.

Lemma up_dry_reads_only w : reads_only w (up_ true w).2.
Proof.
  unfold Migrator.up. rewrite bind_logger.
  apply reads_only_add_log_l with (a := [(LInfo, "Starting migration up...")]).
  pose proof (load_both_reads_only (add_log w [(LInfo, "Starting migration up...")])) as H.
  unfold bind at 1.
  destruct (load_both _) as [[[defs apps]|e] w1]; simpl in *; [|exact H].
  destruct (_ =? _)%nat.
  - rewrite logger_add_log; simpl.
    rewrite <- (add_log_nil (add_log w _)). by apply reads_only_add_log.
  - rewrite bind_logger. erewrite bind_eq by apply for_each_apply_dry.
    rewrite logger_add_log, !add_log_app; simpl.
    rewrite <- (add_log_nil (add_log w _)).
    by apply reads_only_add_log.
Qed.

Lemma down_dry_reads_only w : reads_only w (down_ true w).2.
Proof.
  unfold Migrator.down. rewrite bind_logger.
  apply reads_only_add_log_l with (a := [(LInfo, "Starting migration down...")]).
  pose proof (load_both_reads_only (add_log w [(LInfo, "Starting migration down...")])) as H.
  unfold bind at 1.
  destruct (load_both _) as [[[defs apps]|e] w1]; simpl in *; [|exact H].
  destruct (_ =? _)%nat.
  - rewrite logger_add_log; simpl.
    rewrite <- (add_log_nil (add_log w _)). by apply reads_only_add_log.
  - destruct (sort_desc apps) as [|lastApplied ?]; [exact H|].
    destruct (find_by_id _ _) as [m|]; [|exact H].
    rewrite rollback_one_dry; simpl.
    rewrite <- (add_log_nil (add_log w _)). by apply reads_only_add_log.
Qed.

Lemma reads_only_nothing_written w w' : reads_only w w' -> nothing_written w w'.
Proof.
  intros (Ht & _ & [Hc|Hc]); (split; [exact Ht|]); eexists;
    (split; [exact Hc|]); repeat (constructor; auto).
Qed.

(** C2. Dry-run purity.  Whatever the definitions on disk, the rows of
    the tracking table and the answers of the client, [up(true)] and
    [down(true)] leave the tracking table as it was and issue no client
    call other than the table creation and the read of the applied-set
    that open every operation: no insert, no delete, no statement of a
    script.  For each statement of a script the executor only logs one
    informational message saying what would run, and the per-migration
    bodies of [up] and [down] add nothing but log entries. *)
Theorem dry_run_purity :
  (forall w, nothing_written w (up_ true w).2)
  /\ (forall w, nothing_written w (down_ true w).2)
  /\ (forall cql w, executeCQL cql true w = (Ok tt, add_log w (dry_messages cql)))
  /\ (forall m w, apply_one true m w = (Ok tt, add_log w (dry_apply_log m)))
  /\ (forall m w, rollback_one true m w = (Ok tt, add_log w (dry_rollback_log m))).
Proof.
  split; [|split; [|split; [|split]]].
  - intros w. apply reads_only_nothing_written, up_dry_reads_only.
  - intros w. apply reads_only_nothing_written, down_dry_reads_only.
  - apply executeCQL_dry_add_log.
  - apply apply_one_dry.
  - apply rollback_one_dry.
Qed.

(** *** C3: what the executor runs *)

Lemma keep_fragment_iff f :
  keep_fragment f = true <-> f <> EmptyString /\ Js.startsWith f "--" = false.
Proof.
  unfold keep_fragment. rewrite andb_true_iff, negb_true_iff.
  destruct f; simpl; split; intros [H1 H2]; split; auto; try done.
Qed.


(** *** Live runs, call by call *)

Lemma resolves_all_app h a b :
  resolves_all client h (a ++ b)
  <-> resolves_all client h a /\ resolves_all client (h ++ a) b.
Proof.
  revert h. induction a as [|c a IH]; intros h; simpl.
  - rewrite app_nil_r. (forget; tauto).
  - rewrite IH, <- app_assoc. simpl. (forget; tauto).
Qed.

Lemma log_extends_refl w : log_extends w w.
Proof. exists []. by rewrite app_nil_r. Qed.

Lemma log_extends_trans w1 w2 w3 :
  log_extends w1 w2 -> log_extends w2 w3 -> log_extends w1 w3.
Proof.
  intros [a Ha] [b Hb]. exists (a ++ b). by rewrite Hb, Ha, <- app_assoc.
Qed.

Lemma log_extends_add_log w lg : log_extends w (add_log w lg).
Proof. by exists lg. Qed.

Lemma run_live_ok l w :
  resolves_all client (calls w) (Statement <$> l) ->
  let r := for_each (run_statement false) l w in
  r.1 = Ok tt
  /\ calls r.2 = calls w ++ (Statement <$> l)
  /\ table r.2 = table w /\ ticks r.2 = ticks w /\ log_extends w r.2.
Proof.
  revert w. induction l as [|s l IH]; intros w; simpl.
  - intros _. rewrite app_nil_r. repeat split; auto. apply log_extends_refl.
  - intros [Hs Hl].
    unfold bind, Migrator.run_statement at 1, try_catch, Migrator.execute, logger.
    rewrite Hs; simpl.
    match goal with |- context [for_each _ l ?w1] =>
      specialize (IH w1); simpl in IH; specialize (IH Hl);
      destruct (for_each _ l w1) as [r w2] end.
    simpl in IH. destruct IH as (-> & Hc & Ht & Hk & Hlg); simpl.
    rewrite Hc, <- app_assoc. repeat split; auto.
    eapply log_extends_trans; [|exact Hlg].
    eexists; reflexivity.
Qed.

Lemma run_live_fail pre s post cause w :
  resolves_all client (calls w) (Statement <$> pre) ->
  client (calls w ++ (Statement <$> pre)) (Statement s) = Some cause ->
  let r := for_each (run_statement false) (pre ++ s :: post) w in
  r.1 = Throw (JsError ("Failed to execute CQL: " +:+ s +:+ Js.nl
                        +:+ "Error: " +:+ show cause))
  /\ calls r.2 = calls w ++ (Statement <$> pre) ++ [Statement s]
  /\ table r.2 = table w /\ ticks r.2 = ticks w /\ log_extends w r.2.
Proof.
  revert w. induction pre as [|s0 pre IH]; intros w; simpl.
  - intros _ Hs. rewrite app_nil_r in Hs.
    unfold bind, Migrator.run_statement at 1, try_catch, Migrator.execute, throw.
    rewrite Hs; simpl. repeat split; auto. exists []. simpl. by rewrite app_nil_r.
  - intros [Hs0 Hpre] Hs.
    unfold bind, Migrator.run_statement at 1, try_catch, Migrator.execute, logger.
    rewrite Hs0; simpl.
    match goal with |- context [for_each _ (pre ++ s :: post) ?w1] =>
      specialize (IH w1); simpl in IH;
      rewrite <- app_assoc in IH; specialize (IH Hpre Hs);
      destruct (for_each _ (pre ++ s :: post) w1) as [r w2] end.
    simpl in IH. destruct IH as (-> & Hc & Ht & Hk & Hlg); simpl.
    rewrite Hc, <- app_assoc. repeat split; auto.
    eapply log_extends_trans; [|exact Hlg].
    eexists; reflexivity.
Qed.

Lemma recordMigration_ok m w :
  client (calls w)
    (InsertRow (id m) (filename m) (clock (ticks w)) (calculateChecksum (up m))) = None ->
  recordMigration m w =
  (Ok tt,
   mkWorld (<[id m := recorded_row clock calculateChecksum (ticks w) m]> (table w))
     (calls w ++ [InsertRow (id m) (filename m) (clock (ticks w))
                    (calculateChecksum (up m))])
     (log w ++ [(LDebug, "Recorded migration: " +:+ filename m)])
     (S (ticks w)) (loaded w)).
Proof.
  intros H.
  unfold Migrator.recordMigration, bind, Migrator.new_date, try_catch,
    Migrator.execute, logger; simpl.
  by rewrite H.
Qed.

Lemma recordMigration_fail m w cause :
  client (calls w)
    (InsertRow (id m) (filename m) (clock (ticks w)) (calculateChecksum (up m)))
  = Some cause ->
  recordMigration m w =
  (Throw (JsError ("Failed to record migration " +:+ filename m +:+ ": "
                   +:+ show cause)),
   mkWorld (table w)
     (calls w ++ [InsertRow (id m) (filename m) (clock (ticks w))
                    (calculateChecksum (up m))])
     (log w) (S (ticks w)) (loaded w)).
Proof.
  intros H.
  unfold Migrator.recordMigration, bind, Migrator.new_date, try_catch,
    Migrator.execute, throw; simpl.
  by rewrite H.
Qed.

Lemma removeMigrationRecord_ok i w :
  client (calls w) (DeleteRow i) = None ->
  removeMigrationRecord i w =
  (Ok tt,
   mkWorld (delete i (table w)) (calls w ++ [DeleteRow i])
     (log w ++ [(LDebug, "Removed migration record: " +:+ i)])
     (ticks w) (loaded w)).
Proof.
  intros H.
  unfold Migrator.removeMigrationRecord, bind, try_catch, Migrator.execute,
    logger; simpl.
  by rewrite H.
Qed.

Lemma removeMigrationRecord_fail i w cause :
  client (calls w) (DeleteRow i) = Some cause ->
  removeMigrationRecord i w =
  (Throw (JsError ("Failed to remove migration record " +:+ i +:+ ": "
                   +:+ show cause)),
   mkWorld (table w) (calls w ++ [DeleteRow i]) (log w) (ticks w) (loaded w)).
Proof.
  intros H.
  unfold Migrator.removeMigrationRecord, bind, try_catch, Migrator.execute,
    throw; simpl.
  by rewrite H.
Qed.

(** A call sequence that ends with [x], cut before one of its calls. *)
Lemma snoc_split {A} (l k1 k2 : list A) (x c : A) :
  l ++ [x] = k1 ++ c :: k2 ->
  (k2 = [] /\ l = k1 /\ x = c) \/ (exists k2', k2 = k2' ++ [x] /\ l = k1 ++ c :: k2').
Proof.
  intros H. destruct (decide (k2 = [])) as [->|Hne].
  - left. apply app_inj_tail in H as [-> ->]. auto.
  - right. destruct (exists_last Hne) as (k2' & y & ->).
    change (k1 ++ c :: k2' ++ [y]) with (k1 ++ (c :: k2') ++ [y]) in H.
    rewrite app_assoc in H.
    apply app_inj_tail in H as [-> ->].
    by exists k2'.
Qed.

Lemma apply_one_live_ok m w :
  resolves_all client (calls w) (apply_calls clock calculateChecksum (ticks w) m) ->
  exists w',
    apply_one false m w = (Ok tt, w')
    /\ calls w' = calls w ++ apply_calls clock calculateChecksum (ticks w) m
    /\ table w' = <[id m := recorded_row clock calculateChecksum (ticks w) m]> (table w)
    /\ ticks w' = S (ticks w)
    /\ log_extends w w'.
Proof.
  unfold apply_calls. rewrite resolves_all_app. intros [Hs [Hi _]].
  pose proof (run_live_ok (statements (up m))
                (add_log w [(LInfo, "Applying migration: " +:+ filename m)]) Hs) as Hrun.
  destruct (for_each _ _ _) as [r1 w1] eqn:Erun. simpl in Hrun.
  destruct Hrun as (-> & Hc & Ht & Hk & Hlg).
  unfold Migrator.apply_one. erewrite try_catch_eq; cycle 1.
  { rewrite bind_logger. unfold Migrator.executeCQL.
    erewrite bind_eq by exact Erun. cbv beta iota. simpl negb. cbv iota.
    erewrite bind_eq by (apply recordMigration_ok; by rewrite Hc, Hk).
    cbv beta iota. apply logger_add_log. }
  cbv beta iota. eexists; split; [reflexivity|]. simpl.
  rewrite Hc, Ht, Hk, <- app_assoc. repeat split; auto.
  eapply log_extends_trans; [apply log_extends_add_log|].
  eapply log_extends_trans; [exact Hlg|].
  eexists. simpl. rewrite <- app_assoc. reflexivity.
Qed.

Lemma apply_one_live_fail m w k1 c k2 cause :
  apply_calls clock calculateChecksum (ticks w) m = k1 ++ c :: k2 ->
  resolves_all client (calls w) k1 ->
  client (calls w ++ k1) c = Some cause ->
  exists w',
    apply_one false m w = (Throw (apply_error m c cause), w')
    /\ calls w' = calls w ++ k1 ++ [c]
    /\ table w' = table w
    /\ log_extends w w'.
Proof.
  unfold apply_calls. intros Hsplit Hk1 Hc.
  apply snoc_split in Hsplit as [(-> & <- & <-)|(k2' & -> & Hst)].
  - pose proof (run_live_ok (statements (up m))
                  (add_log w [(LInfo, "Applying migration: " +:+ filename m)]) Hk1) as Hrun.
    destruct (for_each _ _ _) as [r1 w1] eqn:Erun. simpl in Hrun.
    destruct Hrun as (-> & Hcs & Ht & Hk & Hlg).
    unfold Migrator.apply_one. erewrite try_catch_eq; cycle 1.
    { rewrite bind_logger. unfold Migrator.executeCQL.
      erewrite bind_eq by exact Erun. cbv beta iota. simpl negb. cbv iota.
      erewrite bind_eq by (apply (recordMigration_fail _ _ cause); by rewrite Hcs, Hk).
      cbv beta iota. reflexivity. }
    cbv beta iota. rewrite bind_logger. unfold throw.
    eexists; split; [reflexivity|]. simpl. rewrite Hcs, Ht, Hk, <- app_assoc.
    repeat split; auto.
    eapply log_extends_trans; [apply log_extends_add_log|].
    eapply log_extends_trans; [exact Hlg|].
    eexists. simpl. reflexivity.
  - apply fmap_app_inv in Hst as (pre & rest & -> & Hrest & Hall).
    symmetry in Hrest. apply fmap_cons_inv in Hrest as (s & post & -> & -> & ->).
    pose proof (run_live_fail pre s post cause
                  (add_log w [(LInfo, "Applying migration: " +:+ filename m)])
                  Hk1 Hc) as Hrun.
    destruct (for_each _ _ _) as [r1 w1] eqn:Erun. simpl in Hrun.
    destruct Hrun as (-> & Hcs & Ht & Hk & Hlg).
    unfold Migrator.apply_one. erewrite try_catch_eq; cycle 1.
    { rewrite bind_logger. unfold Migrator.executeCQL. rewrite Hall.
      erewrite bind_eq by exact Erun. cbv beta iota. reflexivity. }
    cbv beta iota. rewrite bind_logger. unfold throw.
    eexists; split; [reflexivity|]. simpl. rewrite Hcs, Ht.
    repeat split; auto.
    eapply log_extends_trans; [apply log_extends_add_log|].
    eapply log_extends_trans; [exact Hlg|].
    eexists. simpl. reflexivity.
Qed.

Lemma for_each_app {A} (body : A -> M unit) pre post w :
  for_each body (pre ++ post) w =
  match for_each body pre w with
  | (Ok _, w1) => for_each body post w1
  | (Throw e, w1) => (Throw e, w1)
  end.
Proof.
  revert w. induction pre as [|x pre IH]; intros w; simpl; [done|].
  unfold bind. destruct (body x w) as [[[]|e] w1]; [apply IH|done].
Qed.

Lemma up_loop_ok l w :
  resolves_all client (calls w) (up_calls clock calculateChecksum (ticks w) l) ->
  exists w',
    for_each (apply_one false) l w = (Ok tt, w')
    /\ calls w' = calls w ++ up_calls clock calculateChecksum (ticks w) l
    /\ table w' = up_table clock calculateChecksum (ticks w) l (table w)
    /\ ticks w' = (ticks w + List.length l)%nat
    /\ log_extends w w'.
Proof.
  revert w. induction l as [|m l IH]; intros w; simpl.
  - intros _. exists w. rewrite app_nil_r, Nat.add_0_r.
    repeat split; auto. apply log_extends_refl.
  - rewrite resolves_all_app. intros [Hm Hl].
    destruct (apply_one_live_ok m w Hm) as (w1 & E1 & Hc1 & Ht1 & Hk1 & Hlg1).
    rewrite <- Hc1, <- Hk1 in Hl.
    destruct (IH w1 Hl) as (w2 & E2 & Hc2 & Ht2 & Hk2 & Hlg2).
    exists w2. erewrite bind_eq by exact E1. cbv beta iota.
    rewrite E2, Hc2, Ht2, Hk2, Hc1, Ht1, Hk1, <- app_assoc.
    repeat split; auto; try lia.
    eapply log_extends_trans; eauto.
Qed.

Lemma up_loop_fail pre m post w k1 c k2 cause :
  resolves_all client (calls w) (up_calls clock calculateChecksum (ticks w) pre) ->
  apply_calls clock calculateChecksum (ticks w + List.length pre) m = k1 ++ c :: k2 ->
  resolves_all client
    (calls w ++ up_calls clock calculateChecksum (ticks w) pre) k1 ->
  client (calls w ++ up_calls clock calculateChecksum (ticks w) pre ++ k1) c
  = Some cause ->
  exists w',
    for_each (apply_one false) (pre ++ m :: post) w
    = (Throw (apply_error m c cause), w')
    /\ calls w' = calls w ++ up_calls clock calculateChecksum (ticks w) pre ++ k1 ++ [c]
    /\ table w' = up_table clock calculateChecksum (ticks w) pre (table w)
    /\ log_extends w w'.
Proof.
  intros Hpre Hsplit Hk1 Hc.
  destruct (up_loop_ok pre w Hpre) as (w1 & E1 & Hc1 & Ht1 & Htk1 & Hlg1).
  rewrite <- Htk1 in Hsplit. rewrite <- Hc1 in Hk1.
  rewrite app_assoc, <- Hc1 in Hc.
  destruct (apply_one_live_fail m w1 k1 c k2 cause Hsplit Hk1 Hc)
    as (w2 & E2 & Hc2 & Ht2 & Hlg2).
  exists w2. rewrite for_each_app, E1. simpl.
  erewrite bind_eq by exact E2. cbv beta iota.
  rewrite Hc2, Ht2, Hc1, Ht1, <- app_assoc.
  repeat split; auto. eapply log_extends_trans; eauto.
Qed.

(** *** The reads that open every operation *)

Lemma loadMigrationFile_log_extends p i n w :
  log_extends w (loadMigrationFile p i n w).2.
Proof.
  unfold FileSystemManager.loadMigrationFile,
    FileSystemManager.loadTypeScriptMigration, FileSystemManager.loadCQLMigration,
    try_catch, bind, note_load, lift, throw, ret.
  repeat (case_match; simplify_eq/=); exists []; simpl; by rewrite app_nil_r.
Qed.

Lemma load_loop_log_extends dir files acc w :
  log_extends w (load_loop dir files acc w).2.
Proof.
  revert acc w. induction files as [|name rest IH]; intros acc w; simpl.
  { apply log_extends_refl. }
  unfold bind, lift, try_catch.
  destruct (extractMigrationId name) as [i|e]; simpl; [|apply log_extends_refl].
  pose proof (loadMigrationFile_log_extends (path_join dir name) i name w) as Hf.
  destruct (loadMigrationFile _ _ _ w) as [[m|e] w1]; simpl in *.
  - eapply log_extends_trans; [exact Hf|apply IH].
  - eapply log_extends_trans; [exact Hf|]. eexists; reflexivity.
Qed.

Lemma loadMigrations_log_extends dir w : log_extends w (loadMigrations dir w).2.
Proof.
  unfold FileSystemManager.loadMigrations.
  destruct (negb _); [|apply load_loop_log_extends].
  eexists; reflexivity.
Qed.

Lemma load_both_ok defs w :
  (forall w0, (loadMigrations migrationsDir w0).1 = Ok defs) ->
  resolves_all client (calls w) [CreateTable; SelectApplied] ->
  exists w',
    load_both w = (Ok (defs, rows_of (table w)), w')
    /\ calls w' = calls w ++ [CreateTable; SelectApplied]
    /\ table w' = table w
    /\ ticks w' = ticks w
    /\ log_extends w w'.
Proof.
  intros Hload (H1 & H2 & _).
  unfold Migrator.load_both.
  pose proof (Hload w) as Hl.
  pose proof (loadMigrations_same_db migrationsDir w) as (Ht & Hc & Hk).
  pose proof (loadMigrations_log_extends migrationsDir w) as Hlg.
  destruct (loadMigrations migrationsDir w) as [r1 w1]; simpl in *. subst r1.
  unfold Migrator.getAppliedMigrations, Migrator.initializeMigrationsTable,
    Migrator.execute, try_catch, bind, logger; simpl.
  rewrite Hc, H1; simpl. rewrite H2; simpl. rewrite Ht.
  eexists; split; [reflexivity|]; simpl.
  rewrite Hk, <- app_assoc. repeat split; auto.
  eapply log_extends_trans; [exact Hlg|]. eexists; reflexivity.
Qed.

(** *** C4: [up] applies in load order and stops at the first failure *)

Lemma filter_sublist {A} (f : A -> bool) (l : list A) :
  sublist (List.filter f l) l.
Proof.
  induction l as [|x l IH]; simpl; [constructor|].
  destruct (f x); by constructor.
Qed.

Lemma filter_StronglySorted {A} (R : A -> A -> Prop) (f : A -> bool) (l : list A) :
  StronglySorted R l -> StronglySorted R (List.filter f l).
Proof.
  induction l as [|x l IH]; simpl; intros Hs; [constructor|].
  apply StronglySorted_inv in Hs as [Hl Hx].
  destruct (f x); [|by apply IH].
  constructor; [by apply IH|].
  apply Forall_forall. intros y Hy.
  apply list_elem_of_In, filter_In in Hy as [Hy _].
  rewrite Forall_forall in Hx. by apply Hx, list_elem_of_In.
Qed.

Lemma up_table_old tick l t i :
  is_Some (t !! i) -> is_Some (up_table clock calculateChecksum tick l t !! i).
Proof.
  revert tick t. induction l as [|m l IH]; intros tick t H; simpl; [done|].
  apply IH. destruct (decide (id m = i)) as [->|Hne].
  - rewrite lookup_insert_eq. by eexists.
  - by rewrite lookup_insert_ne.
Qed.

Lemma up_table_recorded tick l t p :
  In p l -> is_Some (up_table clock calculateChecksum tick l t !! id p).
Proof.
  revert tick t. induction l as [|m l IH]; intros tick t; simpl; [done|].
  intros [->|Hin]; [|by apply IH].
  apply up_table_old. rewrite lookup_insert_eq. by eexists.
Qed.

Lemma up_after_load dryRun w defs apps w1 :
  load_both (add_log w [(LInfo, "Starting migration up...")]) = (Ok (defs, apps), w1) ->
  up_ dryRun w =
  (let pendings := Migrator.pendingMigrations defs apps in
   if (List.length pendings =? 0)%nat then
     logger LSuccess "No pending migrations found"
   else
     logger LInfo ("Found " +:+ Js.ofNat (List.length pendings)
                   +:+ " pending migration(s)") ;;
     for_each (apply_one dryRun) pendings ;;
     logger LSuccess ("Successfully applied " +:+ Js.ofNat (List.length pendings)
                      +:+ " migration(s)")) w1.
Proof.
  intros E. unfold Migrator.up. rewrite bind_logger.
  erewrite bind_eq by exact E. reflexivity.
Qed.


(** *** Rolling back, call by call *)

Lemma rollback_one_live_ok m w :
  resolves_all client (calls w) (rollback_calls m) ->
  exists w',
    rollback_one false m w = (Ok tt, w')
    /\ calls w' = calls w ++ rollback_calls m
    /\ table w' = delete (id m) (table w)
    /\ ticks w' = ticks w
    /\ log_extends w w'.
Proof.
  unfold rollback_calls. rewrite resolves_all_app. intros [Hs [Hd _]].
  pose proof (run_live_ok (statements (down m))
                (add_log w [(LInfo, "Rolling back migration: " +:+ filename m)]) Hs)
    as Hrun.
  destruct (for_each _ _ _) as [r1 w1] eqn:Erun. simpl in Hrun.
  destruct Hrun as (-> & Hc & Ht & Hk & Hlg).
  unfold Migrator.rollback_one. erewrite try_catch_eq; cycle 1.
  { rewrite bind_logger. unfold Migrator.executeCQL.
    erewrite bind_eq by exact Erun. cbv beta iota. simpl negb. cbv iota.
    erewrite bind_eq by (apply removeMigrationRecord_ok; by rewrite Hc).
    cbv beta iota. apply logger_add_log. }
  cbv beta iota. eexists; split; [reflexivity|]. simpl.
  rewrite Hc, Ht, Hk, <- app_assoc. repeat split; auto.
  eapply log_extends_trans; [apply log_extends_add_log|].
  eapply log_extends_trans; [exact Hlg|].
  eexists. simpl. rewrite <- app_assoc. reflexivity.
Qed.

Lemma rollback_one_live_fail m w k1 c k2 cause :
  rollback_calls m = k1 ++ c :: k2 ->
  resolves_all client (calls w) k1 ->
  client (calls w ++ k1) c = Some cause ->
  exists w',
    rollback_one false m w = (Throw (rollback_error m c cause), w')
    /\ calls w' = calls w ++ k1 ++ [c]
    /\ table w' = table w
    /\ log_extends w w'.
Proof.
  unfold rollback_calls. intros Hsplit Hk1 Hc.
  apply snoc_split in Hsplit as [(-> & <- & <-)|(k2' & -> & Hst)].
  - pose proof (run_live_ok (statements (down m))
                  (add_log w [(LInfo, "Rolling back migration: " +:+ filename m)]) Hk1)
      as Hrun.
    destruct (for_each _ _ _) as [r1 w1] eqn:Erun. simpl in Hrun.
    destruct Hrun as (-> & Hcs & Ht & Hk & Hlg).
    unfold Migrator.rollback_one. erewrite try_catch_eq; cycle 1.
    { rewrite bind_logger. unfold Migrator.executeCQL.
      erewrite bind_eq by exact Erun. cbv beta iota. simpl negb. cbv iota.
      erewrite bind_eq by (apply (removeMigrationRecord_fail _ _ cause); by rewrite Hcs).
      cbv beta iota. reflexivity. }
    cbv beta iota. rewrite bind_logger. unfold throw.
    eexists; split; [reflexivity|]. simpl. rewrite Hcs, Ht, <- app_assoc.
    repeat split; auto.
    eapply log_extends_trans; [apply log_extends_add_log|].
    eapply log_extends_trans; [exact Hlg|].
    eexists. simpl. reflexivity.
  - apply fmap_app_inv in Hst as (pre & rest & -> & Hrest & Hall).
    symmetry in Hrest. apply fmap_cons_inv in Hrest as (s & post & -> & -> & ->).
    pose proof (run_live_fail pre s post cause
                  (add_log w [(LInfo, "Rolling back migration: " +:+ filename m)])
                  Hk1 Hc) as Hrun.
    destruct (for_each _ _ _) as [r1 w1] eqn:Erun. simpl in Hrun.
    destruct Hrun as (-> & Hcs & Ht & Hk & Hlg).
    unfold Migrator.rollback_one. erewrite try_catch_eq; cycle 1.
    { rewrite bind_logger. unfold Migrator.executeCQL. rewrite Hall.
      erewrite bind_eq by exact Erun. cbv beta iota. reflexivity. }
    cbv beta iota. rewrite bind_logger. unfold throw.
    eexists; split; [reflexivity|]. simpl. rewrite Hcs, Ht.
    repeat split; auto.
    eapply log_extends_trans; [apply log_extends_add_log|].
    eapply log_extends_trans; [exact Hlg|].
    eexists. simpl. reflexivity.
Qed.

Lemma log_extends_In w w' x : log_extends w w' -> In x (log w) -> In x (log w').
Proof. intros [lg ->] H. apply in_or_app. by left. Qed.

Lemma reset_loop_ok defs l w :
  resolves_all client (calls w) (reset_calls defs l) ->
  exists w',
    for_each (reset_one false defs) l w = (Ok tt, w')
    /\ calls w' = calls w ++ reset_calls defs l
    /\ table w' = reset_table defs l (table w)
    /\ log_extends w w'
    /\ (forall r, In r l -> find_by_id (id r) defs = None ->
        In (LWarn, "Migration file not found for applied migration: " +:+ filename r)
          (log w')).
Proof.
  revert w. induction l as [|r l IH]; intros w; simpl.
  - intros _. exists w. rewrite app_nil_r.
    repeat split; auto; [apply log_extends_refl|(forget; tauto)].
  - unfold Migrator.reset_one at 1.
    destruct (find_by_id (id r) defs) as [m|] eqn:Ef.
    + rewrite resolves_all_app. intros [Hm Hl].
      destruct (rollback_one_live_ok m w Hm) as (w1 & E1 & Hc1 & Ht1 & Hk1 & Hlg1).
      rewrite <- Hc1 in Hl.
      destruct (IH w1 Hl) as (w2 & E2 & Hc2 & Ht2 & Hlg2 & Hw2).
      exists w2. erewrite bind_eq by exact E1. cbv beta iota.
      rewrite E2, Hc2, Ht2, Hc1, Ht1, <- app_assoc.
      repeat split; auto; [eapply log_extends_trans; eauto|].
      intros r0 [<-|Hin] Hnone; [congruence|by apply Hw2].
    + intros Hl. rewrite bind_logger.
      destruct (IH (add_log w [(LWarn, "Migration file not found for applied migration: "
                                       +:+ filename r)]) Hl)
        as (w2 & E2 & Hc2 & Ht2 & Hlg2 & Hw2).
      exists w2. rewrite E2. simpl in Hc2, Ht2.
      repeat split; auto;
        [eapply log_extends_trans; [apply log_extends_add_log|exact Hlg2]|].
      intros r0 [<-|Hin] Hnone; [|by apply Hw2].
      eapply log_extends_In; [exact Hlg2|]. simpl. apply in_or_app. right. by left.
Qed.

Lemma reset_loop_fail defs pre r post m w k1 c k2 cause :
  find_by_id (id r) defs = Some m ->
  resolves_all client (calls w) (reset_calls defs pre) ->
  rollback_calls m = k1 ++ c :: k2 ->
  resolves_all client (calls w ++ reset_calls defs pre) k1 ->
  client (calls w ++ reset_calls defs pre ++ k1) c = Some cause ->
  exists w',
    for_each (reset_one false defs) (pre ++ r :: post) w
    = (Throw (rollback_error m c cause), w')
    /\ calls w' = calls w ++ reset_calls defs pre ++ k1 ++ [c]
    /\ table w' = reset_table defs pre (table w)
    /\ log_extends w w'
    /\ (forall r0, In r0 pre -> find_by_id (id r0) defs = None ->
        In (LWarn, "Migration file not found for applied migration: " +:+ filename r0)
          (log w')).
Proof.
  intros Hfind Hpre Hsplit Hk1 Hc.
  destruct (reset_loop_ok defs pre w Hpre) as (w1 & E1 & Hc1 & Ht1 & Hlg1 & Hw1).
  rewrite <- Hc1 in Hk1. rewrite app_assoc, <- Hc1 in Hc.
  destruct (rollback_one_live_fail m w1 k1 c k2 cause Hsplit Hk1 Hc)
    as (w2 & E2 & Hc2 & Ht2 & Hlg2).
  exists w2. rewrite for_each_app, E1. simpl.
  unfold Migrator.reset_one at 1. rewrite Hfind.
  erewrite bind_eq by exact E2. cbv beta iota.
  rewrite Hc2, Ht2, Hc1, Ht1, <- app_assoc.
  repeat split; auto; [eapply log_extends_trans; eauto|].
  intros r0 Hin Hnone. eapply log_extends_In; [exact Hlg2|]. by apply Hw1.
Qed.

Lemma reset_table_none defs l t i :
  t !! i = None -> reset_table defs l t !! i = None.
Proof.
  revert t. induction l as [|r l IH]; intros t H; simpl; [done|].
  destruct (find_by_id (id r) defs) as [m|]; apply IH; [|done].
  destruct (decide (id m = i)) as [->|Hne].
  - apply lookup_delete_eq.
  - by rewrite lookup_delete_ne.
Qed.

Lemma reset_table_removed defs l t p mp :
  In p l -> find_by_id (id p) defs = Some mp ->
  reset_table defs l t !! id mp = None.
Proof.
  revert t. induction l as [|r l IH]; intros t; simpl; [done|].
  intros [->|Hin] Hf.
  - rewrite Hf. apply reset_table_none, lookup_delete_eq.
  - destruct (find_by_id (id r) defs); by apply IH.
Qed.

(** *** Sorting the applied records *)

Lemma insert_desc_perm x l : Permutation (insert_desc x l) (x :: l).
Proof.
  induction l as [|y l IH]; simpl; [done|].
  destruct (Z.ltb _ _); [|done].
  rewrite IH. apply perm_swap.
Qed.

Lemma sort_desc_perm l : Permutation (sort_desc l) l.
Proof.
  induction l as [|x l IH]; simpl; [done|].
  rewrite insert_desc_perm. by constructor.
Qed.

Lemma insert_desc_sorted x l :
  StronglySorted newest_first l -> StronglySorted newest_first (insert_desc x l).
Proof.
  induction l as [|y l IH]; simpl; intros Hs.
  - repeat constructor.
  - apply StronglySorted_inv in Hs as [Hl Hy].
    destruct (Z.ltb_spec (time_key x) (time_key y)) as [Hlt|Hge].
    + constructor; [by apply IH|].
      rewrite insert_desc_perm. constructor; [|done].
      unfold newest_first. lia.
    + constructor; [by constructor|].
      constructor; [done|].
      eapply Forall_impl; [exact Hy|]. unfold newest_first. intros z ?. lia.
Qed.

Lemma sort_desc_sorted l : StronglySorted newest_first (sort_desc l).
Proof.
  induction l as [|x l IH]; simpl; [constructor|by apply insert_desc_sorted].
Qed.

Lemma sort_desc_head_max l h t :
  sort_desc l = h :: t ->
  In h l /\ forall y, In y l -> time_key y <= time_key h.
Proof.
  intros E. pose proof (sort_desc_perm l) as Hp.
  pose proof (sort_desc_sorted l) as Hs. rewrite E in Hp, Hs.
  split.
  - eapply Permutation_in; [exact Hp|]. by left.
  - intros y Hy. apply Permutation_sym in Hp.
    apply (Permutation_in _ Hp) in Hy as [->|Hy]; [lia|].
    apply StronglySorted_inv in Hs as [_ Hall].
    rewrite Forall_forall in Hall. apply Hall. by apply list_elem_of_In.
Qed.

Lemma sort_desc_nonempty l : l <> [] -> exists h t, sort_desc l = h :: t.
Proof.
  intros Hne. destruct (sort_desc l) as [|h t] eqn:E; [|by eauto].
  pose proof (sort_desc_perm l) as Hp. rewrite E in Hp.
  apply Permutation_nil in Hp. done.
Qed.

Lemma sort_desc_head_newest l x :
  In x l ->
  (forall y, In y l -> y <> x -> time_key y < time_key x) ->
  exists t, sort_desc l = x :: t.
Proof.
  intros Hx Hmax.
  destruct (sort_desc_nonempty l) as (h & t & E); [by intros ->|].
  destruct (sort_desc_head_max l h t E) as [Hh Hle].
  exists t. rewrite E. f_equal.
  destruct (decide (h = x)) as [->|Hne]; [done|].
  specialize (Hmax h Hh Hne). specialize (Hle x Hx). lia.
Qed.

Lemma find_by_id_Some i ms m :
  find_by_id i ms = Some m -> In m ms /\ id m = i.
Proof.
  unfold find_by_id. intros H. apply find_some in H as [Hin Heq].
  split; [done|]. by apply String.eqb_eq.
Qed.

Lemma find_by_id_None i ms :
  find_by_id i ms = None <-> forall m, In m ms -> id m <> i.
Proof.
  unfold find_by_id. split.
  - intros H m Hin Heq. eapply find_none in H; [|exact Hin].
    simpl in H. apply String.eqb_neq in H. done.
  - intros H. destruct (find _ ms) as [m|] eqn:E; [|done].
    apply find_some in E as [Hin Heq]. apply String.eqb_eq in Heq.
    by destruct (H m Hin).
Qed.

(** *** The rows of the tracking table *)

Lemma rows_of_In t r :
  In r (rows_of t) <->
  exists i row, t !! i = Some row
    /\ r = mkMigration i (row_filename row) EmptyString EmptyString (row_applied_at row).
Proof.
  unfold rows_of. rewrite <- list_elem_of_In, list_elem_of_fmap. split.
  - intros ([i row] & -> & Hin). apply elem_of_map_to_list in Hin. by exists i, row.
  - intros (i & row & Hl & ->). exists (i, row). split; [done|].
    by apply elem_of_map_to_list.
Qed.

Lemma rows_of_empty : rows_of ∅ = [].
Proof. unfold rows_of. by rewrite map_to_list_empty. Qed.

Lemma rows_of_nil t : rows_of t = [] -> t = ∅.
Proof.
  unfold rows_of. intros H. apply fmap_nil_inv in H.
  by apply map_to_list_empty_iff.
Qed.

Lemma rows_of_ids t i : In i (id <$> rows_of t) <-> is_Some (t !! i).
Proof.
  rewrite <- list_elem_of_In, list_elem_of_fmap. split.
  - intros (r & -> & Hr). apply list_elem_of_In, rows_of_In in Hr
      as (i & row & Hl & ->). simpl. by eexists.
  - intros [row Hl].
    exists (mkMigration i (row_filename row) EmptyString EmptyString (row_applied_at row)).
    split; [done|]. apply list_elem_of_In, rows_of_In. by exists i, row.
Qed.

(** *** C5: [down] rolls back the newest record or raises *)

Lemma down_after_load dryRun w defs apps w1 :
  load_both (add_log w [(LInfo, "Starting migration down...")]) = (Ok (defs, apps), w1) ->
  down_ dryRun w =
  (if (List.length apps =? 0)%nat then logger LWarn "No applied migrations found"
   else
     match sort_desc apps with
     | [] => throw (External "TypeError: Cannot read properties of undefined (reading 'id')")
     | lastApplied :: _ =>
         match find_by_id (id lastApplied) defs with
         | None =>
             throw (JsError ("Migration file not found for applied migration: "
                             +:+ filename lastApplied))
         | Some migrationToRollback => rollback_one dryRun migrationToRollback
         end
     end) w1.
Proof.
  intros E. unfold Migrator.down. rewrite bind_logger.
  erewrite bind_eq by exact E. reflexivity.
Qed.


(** *** C6: [reset] rolls back newest first, skips what is missing and
    stops at the first failure *)

Lemma reset_after_load dryRun w defs apps w1 :
  load_both (add_log w [(LInfo, "Starting migration reset...")]) = (Ok (defs, apps), w1) ->
  reset_ dryRun w =
  (if (List.length apps =? 0)%nat then logger LWarn "No applied migrations found"
   else
     let sortedApplied := sort_desc apps in
     logger LInfo ("Found " +:+ Js.ofNat (List.length sortedApplied)
                   +:+ " applied migration(s) to rollback") ;;
     for_each (reset_one dryRun defs) sortedApplied ;;
     logger LSuccess ("Successfully rolled back " +:+ Js.ofNat (List.length sortedApplied)
                      +:+ " migration(s)")) w1.
Proof.
  intros E. unfold Migrator.reset. rewrite bind_logger.
  erewrite bind_eq by exact E. reflexivity.
Qed.

(** C6.  [reset()] walks through the applied records sorted newest
    first (a permutation of the rows read, no record standing before a
    newer one).  A record without a loaded definition costs a warning
    and no client call, and the walk goes on with the next record.  When
    the client resolves every call the walk ends normally and every
    record that had a definition is gone from the tracking table.  When
    the client rejects a call of the rollback of a record, [reset()]
    raises the error wrapping that rejection, the rejected call is the
    last one issued, and the records rolled back before it stay
    removed. *)
Theorem reset_newest_first defs w :
  (forall w0, (loadMigrations migrationsDir w0).1 = Ok defs) ->
  resolves_all client (calls w) [CreateTable; SelectApplied] ->
  rows_of (table w) <> [] ->
  let sortedApplied := sort_desc (rows_of (table w)) in
  let opened := calls w ++ [CreateTable; SelectApplied] in
  Permutation sortedApplied (rows_of (table w))
  /\ StronglySorted newest_first sortedApplied
  /\ (resolves_all client opened (reset_calls defs sortedApplied) ->
      exists w',
        reset_ false w = (Ok tt, w')
        /\ calls w' = opened ++ reset_calls defs sortedApplied
        /\ table w' = reset_table defs sortedApplied (table w)
        /\ (forall r mr, In r sortedApplied -> find_by_id (id r) defs = Some mr ->
            table w' !! id r = None)
        /\ (forall r, In r sortedApplied -> find_by_id (id r) defs = None ->
            In (LWarn, "Migration file not found for applied migration: "
                       +:+ filename r) (log w')))
  /\ (forall pre r post m k1 c k2 cause,
      sortedApplied = pre ++ r :: post ->
      find_by_id (id r) defs = Some m ->
      resolves_all client opened (reset_calls defs pre) ->
      rollback_calls m = k1 ++ c :: k2 ->
      resolves_all client (opened ++ reset_calls defs pre) k1 ->
      client (opened ++ reset_calls defs pre ++ k1) c = Some cause ->
      exists w',
        reset_ false w = (Throw (rollback_error m c cause), w')
        /\ calls w' = opened ++ reset_calls defs pre ++ k1 ++ [c]
        /\ table w' = reset_table defs pre (table w)
        /\ (forall p mp, In p pre -> find_by_id (id p) defs = Some mp ->
            table w' !! id p = None)
        /\ (forall p, In p pre -> find_by_id (id p) defs = None ->
            In (LWarn, "Migration file not found for applied migration: "
                       +:+ filename p) (log w'))).
Proof.
  intros Hload Hopen Hne sortedApplied opened.
  destruct (load_both_ok defs (add_log w [(LInfo, "Starting migration reset...")])
              Hload Hopen) as (w1 & E1 & Hc1 & Ht1 & _).
  change (table (add_log w _)) with (table w) in E1.
  simpl in Hc1, Ht1. fold opened in Hc1.
  assert ((List.length (rows_of (table w)) =? 0)%nat = false) as Hlen
    by (by destruct (rows_of (table w))).
  set (w2 := add_log w1 [(LInfo, "Found " +:+ Js.ofNat (List.length sortedApplied)
                                 +:+ " applied migration(s) to rollback")]).
  assert (calls w2 = opened) as Hc2 by done.
  assert (table w2 = table w) as Ht2 by done.
  split; [apply sort_desc_perm|]. split; [apply sort_desc_sorted|]. split.
  - intros Hres. rewrite <- Hc2 in Hres.
    destruct (reset_loop_ok defs sortedApplied w2 Hres)
      as (w3 & E3 & Hc3 & Ht3 & Hlg3 & Hw3).
    eexists. split.
    { rewrite (reset_after_load _ _ _ _ _ E1), Hlen. cbv zeta.
      fold sortedApplied. rewrite bind_logger. fold w2.
      erewrite bind_eq by exact E3. cbv beta iota. apply logger_add_log. }
    simpl. rewrite Hc3, Ht3, Hc2, Ht2. repeat split; auto.
    + intros r mr Hin Hf.
      destruct (find_by_id_Some _ _ _ Hf) as [_ <-].
      eapply reset_table_removed; eauto.
    + intros r Hin Hf. apply in_or_app. left. by apply Hw3.
  - intros pre r post m k1 c k2 cause Hsplit Hfind Hres Hcalls Hk1 Hc.
    rewrite <- Hc2 in Hres, Hk1, Hc.
    destruct (reset_loop_fail defs pre r post m w2 k1 c k2 cause
                Hfind Hres Hcalls Hk1 Hc) as (w3 & E3 & Hc3 & Ht3 & Hlg3 & Hw3).
    exists w3. split.
    { rewrite (reset_after_load _ _ _ _ _ E1), Hlen. cbv zeta.
      fold sortedApplied. rewrite bind_logger. fold w2. rewrite Hsplit.
      erewrite bind_eq by exact E3. reflexivity. }
    rewrite Hc3, Ht3, Hc2, Ht2. repeat split; auto.
    intros p mp Hin Hf.
    destruct (find_by_id_Some _ _ _ Hf) as [_ <-].
    eapply reset_table_removed; eauto.
Qed.

(** *** C10: what [status] lists *)

Lemma status_after_load w defs apps w1 :
  load_both w = (Ok (defs, apps), w1) ->
  status_ w = (Ok (Migrator.status_entry (Migrator.appliedMap_of apps) <$> defs), w1).
Proof.
  intros E. unfold Migrator.status. erewrite bind_eq by exact E. reflexivity.
Qed.

Lemma appliedMap_fold_lookup l (acc : gmap string Migration) i r :
  foldl (fun acc m => <[id m := m]> acc) acc l !! i = Some r ->
  acc !! i = Some r \/ (In r l /\ id r = i).
Proof.
  revert acc. induction l as [|x l IH]; intros acc; simpl; [by left|].
  intros H. apply IH in H as [H|[H1 H2]]; [|by right; auto].
  destruct (decide (id x = i)) as [Hx|Hx].
  - rewrite <- Hx, lookup_insert_eq in H. simplify_eq. right. auto.
  - rewrite lookup_insert_ne in H by done. by left.
Qed.

Lemma appliedMap_fold_is_Some l (acc : gmap string Migration) i :
  is_Some (foldl (fun acc m => <[id m := m]> acc) acc l !! i)
  <-> is_Some (acc !! i) \/ In i (id <$> l).
Proof.
  revert acc. induction l as [|x l IH]; intros acc; simpl; [(forget; tauto)|].
  rewrite IH. destruct (decide (id x = i)) as [Hx|Hx].
  - rewrite <- Hx, lookup_insert_eq. split; [auto|]. intros _. left. by eexists.
  - rewrite lookup_insert_ne by done. (forget; tauto).
Qed.

Lemma appliedMap_of_is_Some l i :
  is_Some (Migrator.appliedMap_of l !! i) <-> In i (id <$> l).
Proof.
  unfold Migrator.appliedMap_of. rewrite appliedMap_fold_is_Some, lookup_empty.
  split; [|auto]. intros [[? ?]|?]; done.
Qed.

Lemma appliedMap_of_rows t i :
  Migrator.appliedMap_of (rows_of t) !! i ≫= appliedAt = t !! i ≫= row_applied_at.
Proof.
  destruct (Migrator.appliedMap_of (rows_of t) !! i) as [r|] eqn:E.
  - apply appliedMap_fold_lookup in E as [E|[Hin <-]]; [by rewrite lookup_empty in E|].
    apply rows_of_In in Hin as (j & row & Hl & ->). simpl. by rewrite Hl.
  - destruct (t !! i) as [row|] eqn:Et; [|done].
    assert (is_Some (Migrator.appliedMap_of (rows_of t) !! i)) as [? ?]; [|congruence].
    apply appliedMap_of_is_Some, rows_of_ids. by eexists.
Qed.

Lemma status_entry_rows t d :
  Migrator.status_entry (Migrator.appliedMap_of (rows_of t)) d =
  mkStatus (id d) (filename d)
    (if bool_decide (is_Some (t !! id d)) then applied else pending)
    (t !! id d ≫= row_applied_at).
Proof.
  unfold Migrator.status_entry. rewrite appliedMap_of_rows. f_equal.
  apply (f_equal (fun b : bool => if b then applied else pending)).
  apply bool_decide_ext. by rewrite appliedMap_of_is_Some, rows_of_ids.
Qed.

Lemma status_ok defs w :
  (forall w0, (loadMigrations migrationsDir w0).1 = Ok defs) ->
  resolves_all client (calls w) [CreateTable; SelectApplied] ->
  exists w',
    status_ w
    = (Ok ((fun d =>
              mkStatus (id d) (filename d)
                (if bool_decide (is_Some (table w !! id d)) then applied else pending)
                (table w !! id d ≫= row_applied_at)) <$> defs), w')
    /\ calls w' = calls w ++ [CreateTable; SelectApplied]
    /\ table w' = table w
    /\ ticks w' = ticks w.
Proof.
  intros Hload Hopen.
  destruct (load_both_ok defs w Hload Hopen) as (w1 & E1 & Hc1 & Ht1 & Hk1 & _).
  exists w1. rewrite (status_after_load _ _ _ _ E1). repeat split; auto.
  do 2 f_equal. apply list_fmap_ext. intros _ d _. apply status_entry_rows.
Qed.

(** C10.  [status()] answers with one entry per loaded definition, in
    load order, carrying the id and the file name of the definition; the
    entry says [applied] exactly when the tracking table has a row with
    that id, and then gives the time of that row.  An applied record
    whose id belongs to no loaded definition has no entry, and its
    presence neither shows in the answer nor makes the call raise. *)
Theorem status_lists_definitions defs w :
  (forall w0, (loadMigrations migrationsDir w0).1 = Ok defs) ->
  resolves_all client (calls w) [CreateTable; SelectApplied] ->
  exists sts w',
    status_ w = (Ok sts, w')
    /\ List.length sts = List.length defs
    /\ Forall2
         (fun d s =>
            st_id s = id d
            /\ st_filename s = filename d
            /\ (st_status s = applied <-> is_Some (table w !! id d))
            /\ st_appliedAt s = table w !! id d ≫= row_applied_at)
         defs sts
    /\ (forall i, is_Some (table w !! i) ->
        (forall d, In d defs -> id d <> i) ->
        forall s, In s sts -> st_id s <> i)
    /\ table w' = table w.
Proof.
  intros Hload Hopen.
  destruct (status_ok defs w Hload Hopen) as (w' & E & _ & Ht & _).
  eexists _, w'. split; [exact E|].
  split; [by rewrite length_fmap|]. split; [|split; [|exact Ht]].
  - apply Forall2_fmap_r, Forall_Forall2_diag, Forall_forall.
    intros d _. simpl. repeat split; auto; case_bool_decide; try done.
  - intros i _ Hnone s Hs.
    apply list_elem_of_In, list_elem_of_fmap in Hs as (d & -> & Hd).
    simpl. apply Hnone. by apply list_elem_of_In.
Qed.

(** *** C7: apply, then roll back *)

Lemma status_ok_table defs w :
  (forall w0, (loadMigrations migrationsDir w0).1 = Ok defs) ->
  resolves_all client (calls w) [CreateTable; SelectApplied] ->
  exists w',
    status_ w = (Ok (status_of_table defs (table w)), w')
    /\ calls w' = calls w ++ [CreateTable; SelectApplied]
    /\ table w' = table w
    /\ ticks w' = ticks w.
Proof. apply status_ok. Qed.

Lemma status_of_table_id defs t s i :
  In s (status_of_table defs t) -> st_id s = i ->
  st_status s = if bool_decide (is_Some (t !! i)) then applied else pending.
Proof.
  unfold status_of_table. intros Hs <-.
  apply list_elem_of_In, list_elem_of_fmap in Hs as (d & -> & _). done.
Qed.

Lemma status_of_table_has defs t d :
  In d defs -> exists s, In s (status_of_table defs t) /\ st_id s = id d.
Proof.
  intros Hd. eexists. split; [|shelve].
  unfold status_of_table. apply list_elem_of_In, list_elem_of_fmap.
  exists d. split; [reflexivity|by apply list_elem_of_In].
  Unshelve. done.
Qed.

Lemma pending_In defs apps d :
  In d (Migrator.pendingMigrations defs apps)
  <-> In d defs /\ ~ In (id d) (id <$> apps).
Proof.
  unfold Migrator.pendingMigrations. rewrite filter_In, negb_true_iff.
  rewrite bool_decide_eq_false, elem_of_list_to_set, list_elem_of_In. done.
Qed.

Lemma up_live_ok defs w :
  (forall w0, (loadMigrations migrationsDir w0).1 = Ok defs) ->
  let pendings := Migrator.pendingMigrations defs (rows_of (table w)) in
  pendings <> [] ->
  resolves_all client (calls w)
    ([CreateTable; SelectApplied]
     ++ up_calls clock calculateChecksum (ticks w) pendings) ->
  exists w',
    up_ false w = (Ok tt, w')
    /\ calls w' = calls w ++ [CreateTable; SelectApplied]
                  ++ up_calls clock calculateChecksum (ticks w) pendings
    /\ table w' = up_table clock calculateChecksum (ticks w) pendings (table w)
    /\ ticks w' = (ticks w + List.length pendings)%nat.
Proof.
  intros Hload pendings Hne Hres. apply resolves_all_app in Hres as [Hopen Hres].
  destruct (load_both_ok defs (add_log w [(LInfo, "Starting migration up...")])
              Hload Hopen) as (w1 & E1 & Hc1 & Ht1 & Hk1 & _).
  simpl in Hc1, Ht1, Hk1.
  set (w2 := add_log w1 [(LInfo, "Found " +:+ Js.ofNat (List.length pendings)
                                 +:+ " pending migration(s)")]).
  assert (resolves_all client (calls w2)
            (up_calls clock calculateChecksum (ticks w2) pendings)) as Hres2.
  { simpl. by rewrite Hc1, Hk1. }
  destruct (up_loop_ok pendings w2 Hres2) as (w3 & E3 & Hc3 & Ht3 & Hk3 & _).
  simpl in Hc3, Ht3, Hk3. rewrite Hc1, Hk1 in Hc3. rewrite Ht1, Hk1 in Ht3.
  rewrite Hk1 in Hk3.
  eexists. split.
  { change (table (add_log w _)) with (table w) in E1.
    rewrite (up_after_load _ _ _ _ _ E1). cbv zeta. fold pendings.
    assert ((List.length pendings =? 0)%nat = false) as ->
      by (by destruct pendings).
    rewrite bind_logger. fold w2.
    erewrite bind_eq by exact E3. cbv beta iota. apply logger_add_log. }
  simpl. rewrite Hc3, Ht3, Hk3, <- app_assoc. done.
Qed.

Lemma down_live_ok defs w lastApplied rest m :
  (forall w0, (loadMigrations migrationsDir w0).1 = Ok defs) ->
  resolves_all client (calls w) [CreateTable; SelectApplied] ->
  sort_desc (rows_of (table w)) = lastApplied :: rest ->
  find_by_id (id lastApplied) defs = Some m ->
  resolves_all client (calls w ++ [CreateTable; SelectApplied]) (rollback_calls m) ->
  exists w',
    down_ false w = (Ok tt, w')
    /\ calls w' = calls w ++ [CreateTable; SelectApplied] ++ rollback_calls m
    /\ table w' = delete (id m) (table w)
    /\ ticks w' = ticks w.
Proof.
  intros Hload Hopen Es Hsome Hres.
  destruct (load_both_ok defs (add_log w [(LInfo, "Starting migration down...")])
              Hload Hopen) as (w1 & E1 & Hc1 & Ht1 & Hk1 & _).
  change (table (add_log w _)) with (table w) in E1.
  simpl in Hc1, Ht1, Hk1. rewrite <- Hc1 in Hres.
  destruct (rollback_one_live_ok m w1 Hres) as (w2 & E2 & Hc2 & Ht2 & Hk2 & _).
  exists w2.
  rewrite (down_after_load _ _ _ _ _ E1), Es, Hsome.
  assert ((List.length (rows_of (table w)) =? 0)%nat = false) as ->.
  { destruct (rows_of (table w)); [done|done]. }
  rewrite E2, Hc2, Ht2, Hk2, Hc1, Ht1, Hk1, <- app_assoc. done.
Qed.

Lemma up_calls_app tick pre post :
  up_calls clock calculateChecksum tick (pre ++ post)
  = up_calls clock calculateChecksum tick pre
    ++ up_calls clock calculateChecksum (tick + List.length pre) post.
Proof.
  revert tick. induction pre as [|p pre IH]; intros tick; simpl.
  - by rewrite Nat.add_0_r.
  - rewrite IH, <- app_assoc.
    by replace (S tick + List.length pre)%nat with (tick + S (List.length pre))%nat by lia.
Qed.

Lemma up_table_app tick pre post t :
  up_table clock calculateChecksum tick (pre ++ post) t
  = up_table clock calculateChecksum (tick + List.length pre) post
      (up_table clock calculateChecksum tick pre t).
Proof.
  revert tick t. induction pre as [|p pre IH]; intros tick t; simpl.
  - by rewrite Nat.add_0_r.
  - rewrite IH.
    by replace (S tick + List.length pre)%nat with (tick + S (List.length pre))%nat by lia.
Qed.

Lemma up_table_fresh tick l t i :
  t !! i = None -> (forall p, In p l -> id p <> i) ->
  up_table clock calculateChecksum tick l t !! i = None.
Proof.
  revert tick t. induction l as [|p l IH]; intros tick t Ht Hl; simpl; [done|].
  apply IH; [|intros q Hq; apply Hl; by right].
  rewrite lookup_insert_ne; [done|]. apply Hl. by left.
Qed.

(** C7 (amended).  Round trip of the migration applied last.  Let [m]
    be the last of the pending definitions, the only pending one with its
    id, and let the clock, when the record of [m] is inserted, be ahead
    of every other record.  If the client resolves every call, then
    after [up()] the answer of [status()] has [m] as [applied]; after the
    [down()] that follows, [status()] has it as [pending] again, and the
    tracking table is the table as it stood just before [m] was
    recorded: the table [up()] started from, with the records of the
    migrations applied before [m]. *)
Theorem up_down_round_trip defs w pre m :
  (forall w0, (loadMigrations migrationsDir w0).1 = Ok defs) ->
  Migrator.pendingMigrations defs (rows_of (table w)) = pre ++ [m] ->
  (forall p, In p pre -> id p <> id m) ->
  let before := up_table clock calculateChecksum (ticks w) pre (table w) in
  let tick := (ticks w + List.length pre)%nat in
  (forall r, In r (rows_of before) -> time_key r < clock tick) ->
  resolves_all client (calls w)
    ([CreateTable; SelectApplied]
     ++ up_calls clock calculateChecksum (ticks w) pre
     ++ apply_calls clock calculateChecksum tick m
     ++ [CreateTable; SelectApplied]
     ++ [CreateTable; SelectApplied] ++ rollback_calls m
     ++ [CreateTable; SelectApplied]) ->
  exists w1 sts1 w2 w3 sts3 w4,
    up_ false w = (Ok tt, w1)
    /\ status_ w1 = (Ok sts1, w2)
    /\ (exists s, In s sts1 /\ st_id s = id m)
    /\ (forall s, In s sts1 -> st_id s = id m -> st_status s = applied)
    /\ down_ false w2 = (Ok tt, w3)
    /\ status_ w3 = (Ok sts3, w4)
    /\ (exists s, In s sts3 /\ st_id s = id m)
    /\ (forall s, In s sts3 -> st_id s = id m -> st_status s = pending)
    /\ sts3 = status_of_table defs before
    /\ table w3 = before.
Proof.
  intros Hload Hpend Hids before tick Hclock Hres.
  assert (In m defs /\ ~ In (id m) (id <$> rows_of (table w))) as [Hm Hfresh].
  { apply pending_In. rewrite Hpend. apply in_or_app. right. by left. }
  assert (before !! id m = None) as Hnone.
  { apply up_table_fresh; [|done].
    apply eq_None_not_Some. by rewrite <- rows_of_ids. }
  rewrite !resolves_all_app in Hres.
  destruct Hres as (Hopen & Hpre & Happly & Hst1 & Hopen2 & Hroll & Hst3).
  repeat rewrite <- app_assoc in Hst1. repeat rewrite <- app_assoc in Hopen2.
  repeat rewrite <- app_assoc in Hroll. repeat rewrite <- app_assoc in Hst3.
  (* up *)
  destruct (up_live_ok defs w Hload) as (w1 & E1 & Hc1 & Ht1 & Hk1).
  { rewrite Hpend. by destruct pre. }
  { rewrite Hpend, up_calls_app. cbn [up_calls]. rewrite app_nil_r.
    rewrite !resolves_all_app. repeat rewrite <- app_assoc.
    repeat rewrite <- app_assoc in Happly. auto. }
  rewrite Hpend in Hc1, Ht1, Hk1. rewrite up_calls_app in Hc1.
  rewrite up_table_app in Ht1. cbn [up_calls up_table] in Hc1, Ht1.
  rewrite app_nil_r in Hc1. fold before tick in Ht1. fold tick in Hc1.
  (* status *)
  assert (resolves_all client (calls w1) [CreateTable; SelectApplied]) as Hst1'.
  { rewrite Hc1, <- ?app_assoc; repeat rewrite <- app_assoc. exact Hst1. }
  destruct (status_ok_table defs w1 Hload Hst1') as (w2 & E2 & Hc2 & Ht2 & Hk2).
  (* down *)
  set (x := mkMigration (id m) (filename m) EmptyString EmptyString
              (Some (clock tick))).
  assert (exists rest, sort_desc (rows_of (table w2)) = x :: rest) as [rest Es].
  { apply sort_desc_head_newest.
    - apply rows_of_In. exists (id m), (recorded_row clock calculateChecksum tick m).
      split; [|done]. rewrite Ht2, Ht1. apply lookup_insert_eq.
    - intros y Hy Hne. apply rows_of_In in Hy as (i & row & Hl & ->).
      rewrite Ht2, Ht1 in Hl. destruct (decide (id m = i)) as [<-|Hi].
      + rewrite lookup_insert_eq in Hl. by simplify_eq.
      + rewrite lookup_insert_ne in Hl by done.
        change (time_key x) with (clock tick). apply Hclock.
        apply rows_of_In. by exists i, row. }
  assert (find_by_id (id x) defs = Some m) as Hfind.
  { destruct (find_by_id (id x) defs) as [m'|] eqn:Ef.
    - apply find_by_id_Some in Ef as [Hin Hid]. simpl in Hid.
      assert (In m' (Migrator.pendingMigrations defs (rows_of (table w)))) as Hp.
      { apply pending_In. split; [done|]. by rewrite Hid. }
      rewrite Hpend in Hp. apply in_app_or in Hp as [Hp|[->|[]]]; [|done].
      by destruct (Hids m' Hp).
    - rewrite find_by_id_None in Ef. by destruct (Ef m Hm). }
  assert (resolves_all client (calls w2) [CreateTable; SelectApplied]) as Hopen2'.
  { rewrite Hc2, Hc1, <- ?app_assoc; repeat rewrite <- app_assoc. exact Hopen2. }
  assert (resolves_all client (calls w2 ++ [CreateTable; SelectApplied])
            (rollback_calls m)) as Hroll2.
  { rewrite Hc2, Hc1, <- ?app_assoc; repeat rewrite <- app_assoc. exact Hroll. }
  destruct (down_live_ok defs w2 x rest m Hload Hopen2' Es Hfind Hroll2)
    as (w3 & E3 & Hc3 & Ht3 & Hk3).
  assert (table w3 = before) as Ht3'.
  { rewrite Ht3, Ht2, Ht1. by apply delete_insert_id. }
  (* status *)
  assert (resolves_all client (calls w3) [CreateTable; SelectApplied]) as Hst3'.
  { rewrite Hc3, Hc2, Hc1, <- ?app_assoc; repeat rewrite <- app_assoc. exact Hst3. }
  destruct (status_ok_table defs w3 Hload Hst3') as (w4 & E4 & _ & _ & _).
  exists w1, (status_of_table defs (table w1)), w2, w3,
    (status_of_table defs (table w3)), w4.
  repeat split; auto.
  - by apply status_of_table_has.
  - intros s Hs Hid. rewrite (status_of_table_id _ _ _ _ Hs Hid), Ht1.
    rewrite lookup_insert_eq. by rewrite bool_decide_eq_true_2 by (by eexists).
  - by apply status_of_table_has.
  - intros s Hs Hid. rewrite (status_of_table_id _ _ _ _ Hs Hid), Ht3', Hnone.
    by rewrite bool_decide_eq_false_2 by (by intros [? ?]).
  - by rewrite Ht3'.
Qed.

(** *** C8: nothing applied is not an error *)

Lemma down_empty defs dryRun w :
  (forall w0, (loadMigrations migrationsDir w0).1 = Ok defs) ->
  resolves_all client (calls w) [CreateTable; SelectApplied] ->
  table w = ∅ ->
  exists w',
    down_ dryRun w = (Ok tt, w')
    /\ calls w' = calls w ++ [CreateTable; SelectApplied]
    /\ table w' = table w
    /\ In (LWarn, "No applied migrations found") (log w').
Proof.
  intros Hload Hopen Hempty.
  destruct (load_both_ok defs (add_log w [(LInfo, "Starting migration down...")])
              Hload Hopen) as (w1 & E1 & Hc1 & Ht1 & _).
  change (table (add_log w _)) with (table w) in E1. simpl in Hc1, Ht1.
  rewrite (down_after_load _ _ _ _ _ E1), Hempty, rows_of_empty. simpl.
  eexists. split; [apply logger_add_log|]. simpl.
  rewrite Hc1, Ht1, Hempty. repeat split; auto.
  apply in_or_app. right. by left.
Qed.

Lemma reset_empty defs dryRun w :
  (forall w0, (loadMigrations migrationsDir w0).1 = Ok defs) ->
  resolves_all client (calls w) [CreateTable; SelectApplied] ->
  table w = ∅ ->
  exists w',
    reset_ dryRun w = (Ok tt, w')
    /\ calls w' = calls w ++ [CreateTable; SelectApplied]
    /\ table w' = table w
    /\ In (LWarn, "No applied migrations found") (log w').
Proof.
  intros Hload Hopen Hempty.
  destruct (load_both_ok defs (add_log w [(LInfo, "Starting migration reset...")])
              Hload Hopen) as (w1 & E1 & Hc1 & Ht1 & _).
  change (table (add_log w _)) with (table w) in E1. simpl in Hc1, Ht1.
  rewrite (reset_after_load _ _ _ _ _ E1), Hempty, rows_of_empty. simpl.
  eexists. split; [apply logger_add_log|]. simpl.
  rewrite Hc1, Ht1, Hempty. repeat split; auto.
  apply in_or_app. right. by left.
Qed.

Lemma reset_live_ok defs w :
  (forall w0, (loadMigrations migrationsDir w0).1 = Ok defs) ->
  rows_of (table w) <> [] ->
  resolves_all client (calls w)
    ([CreateTable; SelectApplied]
     ++ reset_calls defs (sort_desc (rows_of (table w)))) ->
  exists w',
    reset_ false w = (Ok tt, w')
    /\ calls w' = calls w ++ [CreateTable; SelectApplied]
                  ++ reset_calls defs (sort_desc (rows_of (table w)))
    /\ table w' = reset_table defs (sort_desc (rows_of (table w))) (table w).
Proof.
  intros Hload Hne Hres. apply resolves_all_app in Hres as [Hopen Hres].
  destruct (load_both_ok defs (add_log w [(LInfo, "Starting migration reset...")])
              Hload Hopen) as (w1 & E1 & Hc1 & Ht1 & _).
  change (table (add_log w _)) with (table w) in E1. simpl in Hc1, Ht1.
  set (sortedApplied := sort_desc (rows_of (table w))) in *.
  set (w2 := add_log w1 [(LInfo, "Found " +:+ Js.ofNat (List.length sortedApplied)
                                 +:+ " applied migration(s) to rollback")]).
  assert (resolves_all client (calls w2) (reset_calls defs sortedApplied)) as Hres2.
  { simpl. by rewrite Hc1. }
  destruct (reset_loop_ok defs sortedApplied w2 Hres2) as (w3 & E3 & Hc3 & Ht3 & _).
  simpl in Hc3, Ht3. rewrite Hc1 in Hc3. rewrite Ht1 in Ht3.
  eexists. split.
  { rewrite (reset_after_load _ _ _ _ _ E1).
    assert ((List.length (rows_of (table w)) =? 0)%nat = false) as ->
      by (by destruct (rows_of (table w))).
    cbv zeta. fold sortedApplied. rewrite bind_logger. fold w2.
    erewrite bind_eq by exact E3. cbv beta iota. apply logger_add_log. }
  simpl. rewrite Hc3, Ht3, <- app_assoc. done.
Qed.

Lemma reset_table_all defs t :
  (forall r, In r (rows_of t) -> is_Some (find_by_id (id r) defs)) ->
  reset_table defs (sort_desc (rows_of t)) t = ∅.
Proof.
  intros Hall. apply map_eq. intros i. rewrite lookup_empty.
  destruct (t !! i) as [row|] eqn:Et; [|by apply reset_table_none].
  set (r := mkMigration i (row_filename row) EmptyString EmptyString (row_applied_at row)).
  assert (In r (rows_of t)) as Hr by (apply rows_of_In; by exists i, row).
  destruct (Hall r Hr) as [mr Hf].
  destruct (find_by_id_Some _ _ _ Hf) as [_ Hid]. simpl in Hid. rewrite <- Hid.
  eapply reset_table_removed; [|exact Hf].
  eapply Permutation_in; [|exact Hr]. symmetry. apply sort_desc_perm.
Qed.

(** C8 (amended).  When the read of the tracking table comes back empty,
    [down()] and [reset()], live or dry, log the warning "No applied
    migrations found" and return normally; the client has seen the
    creation of the table and the read, nothing else, and the table is
    as it was.  A live [reset()] that found a definition for every
    applied record and was refused no call leaves the table empty, and
    the [reset()] that follows it takes this path. *)
Theorem zero_applied_is_not_an_error defs :
  (forall w0, (loadMigrations migrationsDir w0).1 = Ok defs) ->
  (forall dryRun w,
     resolves_all client (calls w) [CreateTable; SelectApplied] ->
     table w = ∅ ->
     (exists w',
        down_ dryRun w = (Ok tt, w')
        /\ calls w' = calls w ++ [CreateTable; SelectApplied]
        /\ table w' = table w
        /\ In (LWarn, "No applied migrations found") (log w'))
     /\ (exists w',
        reset_ dryRun w = (Ok tt, w')
        /\ calls w' = calls w ++ [CreateTable; SelectApplied]
        /\ table w' = table w
        /\ In (LWarn, "No applied migrations found") (log w')))
  /\ (forall w,
     (forall r, In r (rows_of (table w)) -> is_Some (find_by_id (id r) defs)) ->
     resolves_all client (calls w)
       ([CreateTable; SelectApplied]
        ++ reset_calls defs (sort_desc (rows_of (table w)))
        ++ [CreateTable; SelectApplied]) ->
     exists w1 w2,
       reset_ false w = (Ok tt, w1)
       /\ table w1 = ∅
       /\ reset_ false w1 = (Ok tt, w2)
       /\ calls w2 = calls w1 ++ [CreateTable; SelectApplied]
       /\ table w2 = ∅
       /\ In (LWarn, "No applied migrations found") (log w2)).
Proof.
  intros Hload. split.
  - intros dryRun w Hopen Hempty. split.
    + by apply (down_empty defs).
    + by apply (reset_empty defs).
  - intros w Hall Hres.
    rewrite app_assoc in Hres. apply resolves_all_app in Hres as [Hfirst Hsecond].
    assert (exists w1, reset_ false w = (Ok tt, w1) /\ table w1 = ∅
              /\ resolves_all client (calls w1) [CreateTable; SelectApplied])
      as (w1 & E1 & Ht1 & Hopen1).
    { destruct (rows_of (table w)) as [|r0 rs] eqn:Er.
      - apply rows_of_nil in Er. simpl in Hfirst, Hsecond.
        destruct (reset_empty defs false w Hload Hfirst Er) as (w1 & E1 & Hc1 & Ht1 & _).
        exists w1. rewrite Hc1, Ht1. auto.
      - rewrite <- Er in *.
        assert (rows_of (table w) <> []) as Hne by (by rewrite Er).
        destruct (reset_live_ok defs w Hload Hne Hfirst) as (w1 & E1 & Hc1 & Ht1).
        rewrite reset_table_all in Ht1 by done.
        exists w1. rewrite Hc1. auto. }
    destruct (reset_empty defs false w1 Hload Hopen1 Ht1) as (w2 & E2 & Hc2 & Ht2 & Hw2).
    exists w1, w2. rewrite Ht2. repeat split; auto.
Qed.

(** *** C9: a file name without leading digits stops the load *)

Lemma load_loop_app dir pre rest acc w :
  load_loop dir (pre ++ rest) acc w =
  match load_loop dir pre acc w with
  | (Ok ms, w1) => load_loop dir rest ms w1
  | (Throw e, w1) => (Throw e, w1)
  end.
Proof.
  revert acc w. induction pre as [|name pre IH]; intros acc w; simpl; [done|].
  unfold bind, lift.
  destruct (extractMigrationId name) as [i|e]; [|done].
  destruct (try_catch _ _ w) as [[m|e] w1]; [apply IH|done].
Qed.

Lemma load_loop_bad_name dir f post acc w :
  Js.leadingDigits f = EmptyString ->
  load_loop dir (f :: post) acc w =
  (Throw (JsError ("Invalid migration filename format: " +:+ f
                   +:+ ". Expected format: 001_migration_name.ts")), w).
Proof.
  intros H. simpl. unfold bind, lift, extractMigrationId. by rewrite H.
Qed.

Lemma loadMigrationFile_loaded p i n w m w1 :
  loadMigrationFile p i n w = (Ok m, w1) -> loaded w1 = loaded w ++ [p].
Proof.
  unfold FileSystemManager.loadMigrationFile,
    FileSystemManager.loadTypeScriptMigration, FileSystemManager.loadCQLMigration,
    try_catch, bind, note_load, lift, throw, ret.
  repeat (case_match; simplify_eq/=); intros; by simplify_eq/=.
Qed.

Lemma load_loop_loaded dir files acc w ms w1 :
  load_loop dir files acc w = (Ok ms, w1) ->
  loaded w1 = loaded w ++ (path_join dir <$> files)
  /\ List.length ms = (List.length acc + List.length files)%nat.
Proof.
  revert acc w. induction files as [|name rest IH]; intros acc w; simpl.
  { unfold ret. intros ?; simplify_eq. rewrite app_nil_r. split; [done|lia]. }
  unfold bind, lift.
  destruct (extractMigrationId name) as [i|e]; [|done].
  unfold try_catch.
  destruct (loadMigrationFile _ _ _ w) as [[m|e] wm] eqn:Ef; [|done].
  intros H. apply IH in H as [Hl Hn].
  apply loadMigrationFile_loaded in Ef. rewrite Hl, Ef, <- app_assoc.
  split; [done|]. rewrite Hn, length_app. simpl. lia.
Qed.

Lemma load_loop_throws dir files f acc w :
  In f files -> Js.leadingDigits f = EmptyString ->
  exists e, (load_loop dir files acc w).1 = Throw e.
Proof.
  intros Hin Hf. apply in_split in Hin as (pre & post & ->).
  rewrite load_loop_app.
  destruct (load_loop dir pre acc w) as [[ms|e] w1]; [|by eexists].
  rewrite load_loop_bad_name by done. by eexists.
Qed.


(** *** C1: what the completion message of [reset] counts *)

Lemma rollback_calls_deletes m :
  List.filter is_delete (rollback_calls m) = [DeleteRow (id m)].
Proof.
  unfold rollback_calls. rewrite List.filter_app. simpl.
  induction (statements (down m)) as [|s l IH]; simpl; done.
Qed.

Lemma reset_calls_deletes defs l :
  List.length (List.filter is_delete (reset_calls defs l))
  = List.length (rolled_back defs l).
Proof.
  unfold rolled_back. induction l as [|r l IH]; simpl; [done|].
  destruct (find_by_id (id r) defs) as [m|] eqn:Ef.
  - rewrite List.filter_app, rollback_calls_deletes.
    rewrite bool_decide_eq_true_2 by (by eexists). simpl. by rewrite IH.
  - rewrite bool_decide_eq_false_2 by (by intros [? ?]). done.
Qed.

(** Every live [reset()] that runs to its end over a non-empty
    applied-set closes with the number of applied records it read,
    whereas the records it deleted are those that had a definition. *)
Lemma reset_completion_message defs w :
  (forall w0, (loadMigrations migrationsDir w0).1 = Ok defs) ->
  rows_of (table w) <> [] ->
  let sortedApplied := sort_desc (rows_of (table w)) in
  resolves_all client (calls w)
    ([CreateTable; SelectApplied] ++ reset_calls defs sortedApplied) ->
  exists w',
    reset_ false w = (Ok tt, w')
    /\ last (log w')
       = Some (LSuccess, "Successfully rolled back "
                         +:+ Js.ofNat (List.length (rows_of (table w)))
                         +:+ " migration(s)")
    /\ calls w' = calls w ++ [CreateTable; SelectApplied]
                  ++ reset_calls defs sortedApplied
    /\ List.length (List.filter is_delete (reset_calls defs sortedApplied))
       = List.length (rolled_back defs sortedApplied).
Proof.
  intros Hload Hne sortedApplied Hres. apply resolves_all_app in Hres as [Hopen Hres].
  destruct (load_both_ok defs (add_log w [(LInfo, "Starting migration reset...")])
              Hload Hopen) as (w1 & E1 & Hc1 & Ht1 & _).
  change (table (add_log w _)) with (table w) in E1. simpl in Hc1, Ht1.
  set (w2 := add_log w1 [(LInfo, "Found " +:+ Js.ofNat (List.length sortedApplied)
                                 +:+ " applied migration(s) to rollback")]).
  assert (resolves_all client (calls w2) (reset_calls defs sortedApplied)) as Hres2.
  { simpl. by rewrite Hc1. }
  destruct (reset_loop_ok defs sortedApplied w2 Hres2) as (w3 & E3 & Hc3 & _).
  simpl in Hc3. rewrite Hc1 in Hc3.
  eexists. split.
  { rewrite (reset_after_load _ _ _ _ _ E1).
    assert ((List.length (rows_of (table w)) =? 0)%nat = false) as ->
      by (by destruct (rows_of (table w))).
    cbv zeta. fold sortedApplied. rewrite bind_logger. fold w2.
    erewrite bind_eq by exact E3. cbv beta iota. apply logger_add_log. }
  simpl. rewrite last_snoc, Hc3, <- app_assoc.
  unfold sortedApplied at 1. rewrite (Permutation_length (sort_desc_perm _)).
  repeat split; auto. apply reset_calls_deletes.
Qed.


(** *** What the engine never does to the tracking table *)

Lemma executeCQL_table cql dryRun w :
  table (executeCQL cql dryRun w).2 = table w
  /\ ticks (executeCQL cql dryRun w).2 = ticks w.
Proof.
  destruct dryRun.
  - by rewrite executeCQL_dry.
  - unfold Migrator.executeCQL.
    pose proof (run_live_spec (statements cql) w) as H.
    destruct (for_each _ _ w) as [r w']. by destruct H as (? & ? & _).
Qed.

Lemma recordMigration_lookup m w i :
  id m <> i -> table (recordMigration m w).2 !! i = table w !! i.
Proof.
  intros Hne.
  unfold Migrator.recordMigration, Migrator.new_date, bind, try_catch,
    Migrator.execute, logger, throw; simpl.
  destruct (client _ _); simpl; [done|]. by rewrite lookup_insert_ne.
Qed.

Lemma apply_one_lookup dryRun m w i :
  id m <> i -> table (apply_one dryRun m w).2 !! i = table w !! i.
Proof.
  intros Hne. unfold Migrator.apply_one, try_catch. rewrite bind_logger.
  pose proof (executeCQL_table (up m) dryRun
                (add_log w [(LInfo, "Applying migration: " +:+ filename m)])) as [Ht _].
  unfold bind at 1.
  destruct (executeCQL _ _ _) as [[[]|e] w1]; simpl in Ht.
  - destruct dryRun; simpl.
    + unfold bind, ret, logger; simpl. by rewrite Ht.
    + pose proof (recordMigration_lookup m w1 i Hne) as Hr.
      unfold bind at 1. destruct (recordMigration m w1) as [[[]|e] w2]; simpl in *.
      * by rewrite Hr, Ht.
      * by rewrite Hr, Ht.
  - simpl. by rewrite Ht.
Qed.

Lemma for_each_apply_lookup dryRun l w i :
  (forall m, In m l -> id m <> i) ->
  table (for_each (apply_one dryRun) l w).2 !! i = table w !! i.
Proof.
  revert w. induction l as [|m l IH]; intros w Hl; simpl; [done|].
  pose proof (apply_one_lookup dryRun m w i (Hl m (or_introl eq_refl))) as Hm.
  unfold bind. destruct (apply_one dryRun m w) as [[[]|e] w1]; simpl in *.
  - rewrite IH, Hm; [done|]. intros m' Hm'. apply Hl. by right.
  - done.
Qed.

(** Whatever the files on disk and the answers of the client, in live
    and in dry-run mode, every record that is in the tracking table when
    [up()] starts is still there, unchanged, when [up()] returns or
    raises: [up()] inserts under ids the table does not hold, and never
    deletes. *)
Theorem up_keeps_applied_records dryRun w :
  keeps_records w (up_ dryRun w).2.
Proof.
  apply map_subseteq_spec. intros i row Hi.
  unfold Migrator.up. rewrite bind_logger.
  pose proof (load_both_spec (add_log w [(LInfo, "Starting migration up...")])) as H.
  unfold bind at 1.
  destruct (load_both _) as [[[defs apps]|e] w1]; simpl in *.
  - destruct H as (Ht & _ & _ & -> & _).
    destruct (_ =? _)%nat; simpl; [by rewrite Ht|].
    rewrite bind_logger. unfold bind at 1.
    match goal with |- context [for_each ?b ?l ?w0] =>
      pose proof (for_each_apply_lookup dryRun l w0 i) as Hl;
      destruct (for_each b l w0) as [[[]|e] w2] end; simpl in *.
    all: rewrite Hl, Ht; [done|].
    all: intros m Hm Heq; apply pending_In in Hm as [_ Hm]; apply Hm;
      apply rows_of_ids; rewrite Heq; by eexists.
  - destruct H as (Ht & _). by rewrite Ht.
Qed.

Lemma removeMigrationRecord_table i w :
  table (removeMigrationRecord i w).2 = table w
  \/ table (removeMigrationRecord i w).2 = delete i (table w).
Proof.
  unfold Migrator.removeMigrationRecord, bind, try_catch, Migrator.execute, logger,
    throw; simpl.
  destruct (client _ _); simpl; auto.
Qed.

Lemma rollback_one_table dryRun m w r w' :
  rollback_one dryRun m w = (r, w') ->
  table w' = table w \/ table w' = delete (id m) (table w).
Proof.
  unfold Migrator.rollback_one, try_catch. rewrite bind_logger.
  pose proof (executeCQL_table (down m) dryRun
                (add_log w [(LInfo, "Rolling back migration: " +:+ filename m)])) as [Ht _].
  unfold bind at 1.
  destruct (executeCQL _ _ _) as [[[]|e] w1]; simpl in Ht.
  - destruct dryRun; simpl.
    + unfold bind, ret, logger; simpl. intros [= _ <-]. by left.
    + pose proof (removeMigrationRecord_table (id m) w1) as Hr.
      unfold bind at 1. destruct (removeMigrationRecord (id m) w1) as [[[]|e] w2];
        simpl in *; rewrite Ht in Hr; intros [= _ <-]; exact Hr.
  - simpl. intros [= _ <-]. by left.
Qed.

Lemma rollback_one_subseteq dryRun m w :
  table (rollback_one dryRun m w).2 ⊆ table w.
Proof.
  destruct (rollback_one dryRun m w) as [r w'] eqn:E. simpl.
  destruct (rollback_one_table dryRun m w r w' E) as [-> | ->];
    [done|apply delete_subseteq].
Qed.

Lemma for_each_reset_subseteq dryRun defs l w :
  table (for_each (reset_one dryRun defs) l w).2 ⊆ table w.
Proof.
  revert w. induction l as [|r l IH]; intros w; simpl; [done|].
  unfold bind, Migrator.reset_one at 1.
  destruct (find_by_id (id r) defs) as [m|].
  - pose proof (rollback_one_subseteq dryRun m w) as Hm.
    destruct (rollback_one dryRun m w) as [[[]|e] w1]; simpl in *; [|done].
    etrans; [apply IH|done].
  - rewrite logger_add_log. etrans; [apply IH|done].
Qed.

Lemma down_table dryRun w r w' :
  down_ dryRun w = (r, w') ->
  table w' = table w \/ exists i, table w' = delete i (table w).
Proof.
  unfold Migrator.down. rewrite bind_logger.
  pose proof (load_both_spec (add_log w [(LInfo, "Starting migration down...")])) as H.
  unfold bind at 1.
  destruct (load_both _) as [[[defs apps]|e] w1]; simpl in *.
  - destruct H as (Ht & _ & _ & _ & _).
    destruct (_ =? _)%nat; simpl; [intros [= _ <-]; by left|].
    destruct (sort_desc apps) as [|lastApplied ?]; simpl; [intros [= _ <-]; by left|].
    destruct (find_by_id _ _) as [m|]; simpl; [|intros [= _ <-]; by left].
    intros E. destruct (rollback_one_table dryRun m w1 r w' E) as [-> | ->];
      rewrite Ht; eauto.
  - destruct H as (Ht & _). intros [= _ <-]. by left.
Qed.

(** Whatever the files on disk and the answers of the client, [down()]
    and [reset()] add no record to the tracking table and change none:
    [down()] leaves the table as it was or deletes one record, and the
    table that [reset()] leaves holds a part of the records it found. *)
Theorem rollback_adds_no_record dryRun w :
  removes_at_most_one w (down_ dryRun w).2
  /\ keeps_records (reset_ dryRun w).2 w.
Proof.
  unfold removes_at_most_one, keeps_records. split.
  - destruct (down_ dryRun w) as [r w'] eqn:E. simpl. by eapply down_table.
  - unfold Migrator.reset. rewrite bind_logger.
    pose proof (load_both_spec (add_log w [(LInfo, "Starting migration reset...")])) as H.
    unfold bind at 1.
    destruct (load_both _) as [[[defs apps]|e] w1]; simpl in *.
    + destruct H as (Ht & _ & _ & _ & _).
      destruct (_ =? _)%nat; simpl; [by rewrite Ht|].
      rewrite bind_logger. unfold bind at 1.
      match goal with |- context [for_each ?b ?l ?w0] =>
        pose proof (for_each_reset_subseteq dryRun defs l w0) as Hl;
        destruct (for_each b l w0) as [[[]|e] w2] end; simpl in *.
      all: by rewrite <- Ht.
    + destruct H as (Ht & _). by rewrite Ht.
Qed.


(** *** Operations that only read *)

Lemma for_each_reset_dry defs l w :
  exists lg, for_each (reset_one true defs) l w = (Ok tt, add_log w lg).
Proof.
  revert w. induction l as [|r l IH]; intros w; simpl.
  { exists []. by rewrite add_log_nil. }
  unfold bind, Migrator.reset_one at 1.
  destruct (find_by_id (id r) defs) as [m|].
  - rewrite rollback_one_dry. destruct (IH (add_log w (dry_rollback_log m))) as [lg ->].
    eexists. by rewrite add_log_app.
  - rewrite logger_add_log. destruct (IH (add_log w [(LWarn,
      "Migration file not found for applied migration: " +:+ filename r)])) as [lg ->].
    eexists. by rewrite add_log_app.
Qed.

Lemma reset_dry_reads_only w : reads_only w (reset_ true w).2.
Proof.
  unfold Migrator.reset. rewrite bind_logger.
  apply reads_only_add_log_l with (a := [(LInfo, "Starting migration reset...")]).
  pose proof (load_both_reads_only (add_log w [(LInfo, "Starting migration reset...")])) as H.
  unfold bind at 1.
  destruct (load_both _) as [[[defs apps]|e] w1]; simpl in *; [|exact H].
  destruct (_ =? _)%nat.
  - rewrite logger_add_log; simpl.
    rewrite <- (add_log_nil (add_log w _)). by apply reads_only_add_log.
  - rewrite bind_logger.
    match goal with |- context [bind (for_each _ ?l) _ ?w0] =>
      destruct (for_each_reset_dry defs l w0) as [lg Hlg] end.
    erewrite bind_eq by exact Hlg.
    rewrite logger_add_log, !add_log_app; simpl.
    rewrite <- (add_log_nil (add_log w _)).
    by apply reads_only_add_log.
Qed.

Lemma status_reads_only w : reads_only w (status_ w).2.
Proof.
  unfold Migrator.status.
  pose proof (load_both_reads_only w) as H.
  unfold bind. destruct (load_both w) as [[both|e] w1]; exact H.
Qed.

(** Whatever the files on disk, the rows of the tracking table and the
    answers of the client, [reset(true)] and [status()] leave the
    tracking table as it was and issue no client call other than the
    table creation and the read of the applied-set: no insert, no
    delete, no statement of a script. *)
Theorem reset_dry_run_and_status_only_read w :
  nothing_written w (reset_ true w).2 /\ nothing_written w (status_ w).2.
Proof.
  split; apply reads_only_nothing_written;
    [apply reset_dry_reads_only|apply status_reads_only].
Qed.

(** *** When the opening read fails *)

Lemma load_both_init_fail defs w cause :
  (forall w0, (loadMigrations migrationsDir w0).1 = Ok defs) ->
  client (calls w) CreateTable = Some cause ->
  exists w',
    load_both w = (Throw (init_error cause), w')
    /\ calls w' = calls w ++ [CreateTable]
    /\ table w' = table w.
Proof.
  intros Hload Hc. unfold Migrator.load_both.
  pose proof (loadMigrations_same_db migrationsDir w) as (Ht & Hk & _).
  specialize (Hload w).
  destruct (loadMigrations migrationsDir w) as [r1 w1]; simpl in *. subst r1.
  unfold Migrator.getAppliedMigrations, Migrator.initializeMigrationsTable,
    Migrator.execute, try_catch, bind, throw, logger; simpl.
  rewrite Hk, Hc; simpl. eexists. split; [reflexivity|]. simpl. rewrite ?Hk, ?Ht. auto.
Qed.

Lemma load_both_read_fail defs w cause :
  (forall w0, (loadMigrations migrationsDir w0).1 = Ok defs) ->
  client (calls w) CreateTable = None ->
  client (calls w ++ [CreateTable]) SelectApplied = Some cause ->
  exists w',
    load_both w = (Throw (read_error cause), w')
    /\ calls w' = calls w ++ [CreateTable; SelectApplied]
    /\ table w' = table w.
Proof.
  intros Hload Hc Hs. unfold Migrator.load_both.
  pose proof (loadMigrations_same_db migrationsDir w) as (Ht & Hk & _).
  specialize (Hload w).
  destruct (loadMigrations migrationsDir w) as [r1 w1]; simpl in *. subst r1.
  unfold Migrator.getAppliedMigrations, Migrator.initializeMigrationsTable,
    Migrator.execute, try_catch, bind, throw, logger; simpl.
  rewrite Hk, Hc; simpl. rewrite Hs; simpl.
  eexists. split; [reflexivity|]. simpl. rewrite ?Hk, ?Ht, <- ?app_assoc. auto.
Qed.

Lemma load_failure_aborts_all dryRun w e k :
  (forall lg, exists w',
      load_both (add_log w lg) = (Throw e, w')
      /\ calls w' = calls w ++ k /\ table w' = table w) ->
  aborts (up_ dryRun) w e k
  /\ aborts (down_ dryRun) w e k
  /\ aborts (reset_ dryRun) w e k
  /\ aborts status_ w e k.
Proof.
  intros H. unfold aborts. repeat split.
  - destruct (H [(LInfo, "Starting migration up...")]) as (w' & E & ? & ?).
    exists w'. unfold Migrator.up. rewrite bind_logger. by erewrite bind_eq by exact E.
  - destruct (H [(LInfo, "Starting migration down...")]) as (w' & E & ? & ?).
    exists w'. unfold Migrator.down. rewrite bind_logger. by erewrite bind_eq by exact E.
  - destruct (H [(LInfo, "Starting migration reset...")]) as (w' & E & ? & ?).
    exists w'. unfold Migrator.reset. rewrite bind_logger. by erewrite bind_eq by exact E.
  - destruct (H []) as (w' & E & ? & ?). rewrite add_log_nil in E.
    exists w'. unfold Migrator.status. by erewrite bind_eq by exact E.
Qed.

(** With the definitions on disk loading, a rejection of the read that
    opens every operation stops [up], [down], [reset] and [status]
    alike, in live and in dry-run mode.  When the client rejects the
    creation of the tracking table, the error raised is
    [Failed to initialize migrations table: <cause>] and the creation
    is the only call issued; when it rejects the read of the rows, the
    error is [Failed to get applied migrations: <cause>] and the read is
    the last call issued.  No statement of a script is sent and the
    table is as it was. *)
Theorem opening_read_failure_aborts defs dryRun w :
  (forall w0, (loadMigrations migrationsDir w0).1 = Ok defs) ->
  (forall cause,
     client (calls w) CreateTable = Some cause ->
     aborts (up_ dryRun) w (init_error cause) [CreateTable]
     /\ aborts (down_ dryRun) w (init_error cause) [CreateTable]
     /\ aborts (reset_ dryRun) w (init_error cause) [CreateTable]
     /\ aborts status_ w (init_error cause) [CreateTable])
  /\ (forall cause,
     client (calls w) CreateTable = None ->
     client (calls w ++ [CreateTable]) SelectApplied = Some cause ->
     aborts (up_ dryRun) w (read_error cause) [CreateTable; SelectApplied]
     /\ aborts (down_ dryRun) w (read_error cause) [CreateTable; SelectApplied]
     /\ aborts (reset_ dryRun) w (read_error cause) [CreateTable; SelectApplied]
     /\ aborts status_ w (read_error cause) [CreateTable; SelectApplied]).
Proof.
  intros Hload. split.
  - intros cause Hc. apply load_failure_aborts_all. intros lg.
    apply (load_both_init_fail defs (add_log w lg) cause Hload Hc).
  - intros cause Hc Hs. apply load_failure_aborts_all. intros lg.
    apply (load_both_read_fail defs (add_log w lg) cause Hload Hc Hs).
Qed.

(** *** Applying twice *)

Lemma up_nothing_pending defs w :
  (forall w0, (loadMigrations migrationsDir w0).1 = Ok defs) ->
  Migrator.pendingMigrations defs (rows_of (table w)) = [] ->
  resolves_all client (calls w) [CreateTable; SelectApplied] ->
  exists w',
    up_ false w = (Ok tt, w')
    /\ calls w' = calls w ++ [CreateTable; SelectApplied]
    /\ table w' = table w
    /\ ticks w' = ticks w
    /\ last (log w') = Some (LSuccess, "No pending migrations found").
Proof.
  intros Hload Hp Hopen.
  destruct (load_both_ok defs (add_log w [(LInfo, "Starting migration up...")])
              Hload Hopen) as (w1 & E1 & Hc1 & Ht1 & Hk1 & _).
  rewrite (up_after_load false w defs (rows_of (table w)) w1 E1).
  simpl. rewrite Hp. simpl. rewrite logger_add_log.
  eexists. split; [reflexivity|]. simpl. rewrite last_snoc. auto.
Qed.

Lemma pending_after_up defs tick t :
  Migrator.pendingMigrations defs
    (rows_of (up_table clock calculateChecksum tick
                (Migrator.pendingMigrations defs (rows_of t)) t)) = [].
Proof.
  destruct (Migrator.pendingMigrations defs (rows_of (up_table _ _ _ _ _)))
    as [|d l] eqn:E; [done|exfalso].
  assert (In d (d :: l)) as Hd by (by left). rewrite <- E in Hd.
  apply pending_In in Hd as [Hdefs Hnot]. apply Hnot, rows_of_ids.
  destruct (t !! id d) as [row|] eqn:Et.
  - apply up_table_old. by eexists.
  - apply up_table_recorded, pending_In. split; [done|].
    rewrite rows_of_ids, Et. by intros [? ?].
Qed.

(** A second [up()] finds nothing to do.  With the definitions on disk
    loading and the client resolving every call, after [up()] has
    returned a second [up()] reads the applied-set, reports
    [No pending migrations found] and returns: it sends no statement,
    inserts no record and leaves the table that the first run made. *)
Theorem up_twice_applies_once defs w :
  (forall w0, (loadMigrations migrationsDir w0).1 = Ok defs) ->
  resolves_all client (calls w)
    ([CreateTable; SelectApplied]
     ++ up_calls clock calculateChecksum (ticks w)
          (Migrator.pendingMigrations defs (rows_of (table w)))
     ++ [CreateTable; SelectApplied]) ->
  exists w1 w2,
    up_ false w = (Ok tt, w1)
    /\ table w1 = up_table clock calculateChecksum (ticks w)
                    (Migrator.pendingMigrations defs (rows_of (table w))) (table w)
    /\ up_ false w1 = (Ok tt, w2)
    /\ calls w2 = calls w1 ++ [CreateTable; SelectApplied]
    /\ table w2 = table w1
    /\ last (log w2) = Some (LSuccess, "No pending migrations found").
Proof.
  intros Hload Hres.
  rewrite app_assoc in Hres. apply resolves_all_app in Hres as [Hfirst Hsecond].
  assert (exists w1,
            up_ false w = (Ok tt, w1)
            /\ calls w1 = calls w ++ [CreateTable; SelectApplied]
                 ++ up_calls clock calculateChecksum (ticks w)
                      (Migrator.pendingMigrations defs (rows_of (table w)))
            /\ table w1 = up_table clock calculateChecksum (ticks w)
                 (Migrator.pendingMigrations defs (rows_of (table w))) (table w))
    as (w1 & E1 & Hc1 & Ht1).
  { destruct (Migrator.pendingMigrations defs (rows_of (table w))) as [|p ps] eqn:Ep.
    - simpl in Hfirst. destruct (up_nothing_pending defs w Hload Ep)
        as (w1 & E1 & Hc1 & Ht1 & _); [by simpl|].
      exists w1. simpl. by rewrite app_nil_r in *.
    - rewrite <- Ep in *.
      assert (Migrator.pendingMigrations defs (rows_of (table w)) <> []) as Hne
        by (by rewrite Ep).
      destruct (up_live_ok defs w Hload Hne Hfirst) as (w1 & E1 & Hc1 & Ht1 & _).
      by exists w1. }
  rewrite <- Hc1 in Hsecond.
  destruct (up_nothing_pending defs w1 Hload) as (w2 & E2 & Hc2 & Ht2 & _ & Hlast);
    [rewrite Ht1; apply pending_after_up|exact Hsecond|].
  exists w1, w2. repeat split; assumption.
Qed.

(** *** A dry run announces what the live run sends *)

Lemma after_prefix_app p s : after_prefix p (p +:+ s) = Some s.
Proof.
  induction p as [|a p IH]; simpl; [by destruct s|].
  by rewrite Ascii.eqb_refl.
Qed.

Lemma previewed_app a b : previewed (a ++ b) = previewed a ++ previewed b.
Proof. apply omap_app. Qed.

Lemma sent_app a b : sent (a ++ b) = sent a ++ sent b.
Proof. apply omap_app. Qed.

Lemma previewed_dry_messages cql : previewed (dry_messages cql) = statements cql.
Proof.
  unfold dry_messages, previewed. induction (statements cql) as [|s l IH]; [done|].
  rewrite fmap_cons. cbn [omap list_omap fst snd].
  rewrite after_prefix_app. simpl. f_equal. exact IH.
Qed.

Lemma sent_statements l : sent (Statement <$> l) = l.
Proof. unfold sent. induction l as [|s l IH]; simpl; [done|]. f_equal. exact IH. Qed.

Lemma previewed_dry_apply_log m : previewed (dry_apply_log m) = statements (up m).
Proof.
  unfold dry_apply_log. rewrite !previewed_app, previewed_dry_messages.
  unfold previewed; simpl. by rewrite app_nil_r.
Qed.

Lemma previewed_dry_rollback_log m :
  previewed (dry_rollback_log m) = statements (down m).
Proof.
  unfold dry_rollback_log. rewrite !previewed_app, previewed_dry_messages.
  unfold previewed; simpl. by rewrite app_nil_r.
Qed.

Lemma previewed_other lg :
  Forall (fun entry => entry.1 <> LInfo) lg -> previewed lg = [].
Proof.
  unfold previewed. induction 1 as [|[lv msg] lg Hlv _ IH]; simpl; [done|].
  destruct lv; simpl in *; done.
Qed.

Lemma sent_up_calls tick l :
  sent (up_calls clock calculateChecksum tick l) = l ≫= (fun m => statements (up m)).
Proof.
  revert tick. induction l as [|m l IH]; intros tick; [done|].
  cbn [up_calls]. rewrite bind_cons, sent_app, IH.
  unfold apply_calls. rewrite sent_app, sent_statements.
  cbn [sent omap list_omap]. by rewrite app_nil_r.
Qed.

Lemma sent_reset_calls defs l :
  sent (reset_calls defs l) = previewed (l ≫= dry_reset_log defs).
Proof.
  induction l as [|r l IH]; [done|].
  cbn [reset_calls]. rewrite bind_cons, previewed_app. unfold dry_reset_log at 1.
  destruct (find_by_id (id r) defs) as [m|].
  - unfold rollback_calls. rewrite !sent_app, sent_statements, IH.
    rewrite previewed_dry_rollback_log.
    cbn [sent omap list_omap]. by rewrite app_nil_r.
  - rewrite IH. done.
Qed.

Lemma previewed_bind_apply l :
  previewed (l ≫= dry_apply_log) = l ≫= (fun m => statements (up m)).
Proof.
  induction l as [|m l IH]; [done|].
  by rewrite !bind_cons, previewed_app, previewed_dry_apply_log, IH.
Qed.

(** The loader and the opening read log warnings, errors and debug
    notes only. *)
Lemma loadMigrationFile_log p i n w :
  exists lg, log (loadMigrationFile p i n w).2 = log w ++ lg
             /\ Forall (fun entry => entry.1 <> LInfo) lg.
Proof.
  exists []. rewrite app_nil_r. split; [|constructor].
  unfold FileSystemManager.loadMigrationFile,
    FileSystemManager.loadTypeScriptMigration, FileSystemManager.loadCQLMigration,
    try_catch, bind, note_load, lift, throw, ret.
  repeat (case_match; simplify_eq/=); done.
Qed.

Lemma load_loop_log dir files acc w :
  exists lg, log (load_loop dir files acc w).2 = log w ++ lg
             /\ Forall (fun entry => entry.1 <> LInfo) lg.
Proof.
  revert acc w. induction files as [|name rest IH]; intros acc w; simpl.
  { exists []. rewrite app_nil_r. by split. }
  unfold bind, lift, try_catch.
  destruct (extractMigrationId name) as [i|e]; simpl.
  2:{ exists []. rewrite app_nil_r. by split. }
  destruct (loadMigrationFile_log (path_join dir name) i name w) as (lg1 & H1 & F1).
  destruct (loadMigrationFile _ _ _ w) as [[m|e] w1]; simpl in *.
  - destruct (IH (acc ++ [m]) w1) as (lg2 & H2 & F2).
    exists (lg1 ++ lg2). rewrite H2, H1, <- app_assoc. split; [done|].
    by apply Forall_app.
  - unfold logger, throw; simpl. eexists. rewrite H1, <- app_assoc. split; [done|].
    apply Forall_app. split; [done|]. by repeat constructor.
Qed.

Lemma load_both_log w :
  exists lg, log (load_both w).2 = log w ++ lg
             /\ Forall (fun entry => entry.1 <> LInfo) lg.
Proof.
  unfold Migrator.load_both.
  assert (exists lg, log (loadMigrations migrationsDir w).2 = log w ++ lg
                     /\ Forall (fun entry => entry.1 <> LInfo) lg)
    as (lg1 & H1 & F1).
  { unfold FileSystemManager.loadMigrations. destruct (negb _).
    - simpl. eexists. split; [done|]. by repeat constructor.
    - apply load_loop_log. }
  destruct (loadMigrations migrationsDir w) as [r1 w1]; simpl in *.
  assert (exists lg, log (getAppliedMigrations w1).2 = log w1 ++ lg
                     /\ Forall (fun entry => entry.1 <> LInfo) lg)
    as (lg2 & H2 & F2).
  { unfold Migrator.getAppliedMigrations, Migrator.initializeMigrationsTable,
      Migrator.execute, try_catch, bind, throw, logger; simpl.
    destruct (client (calls w1) CreateTable); simpl.
    { exists []. rewrite app_nil_r. by split. }
    destruct (client _ SelectApplied); simpl;
      (eexists; split; [done|]; by repeat constructor). }
  destruct (getAppliedMigrations w1) as [r2 w2]; simpl in *.
  exists (lg1 ++ lg2). split; [|by apply Forall_app].
  destruct r1, r2; simpl; by rewrite H2, H1, <- app_assoc.
Qed.

Lemma load_both_ok_log defs w :
  (forall w0, (loadMigrations migrationsDir w0).1 = Ok defs) ->
  resolves_all client (calls w) [CreateTable; SelectApplied] ->
  exists w' lg,
    load_both w = (Ok (defs, rows_of (table w)), w')
    /\ calls w' = calls w ++ [CreateTable; SelectApplied]
    /\ table w' = table w
    /\ ticks w' = ticks w
    /\ log w' = log w ++ lg
    /\ previewed lg = [].
Proof.
  intros Hload Hopen.
  destruct (load_both_ok defs w Hload Hopen) as (w' & E & Hc & Ht & Hk & _).
  destruct (load_both_log w) as (lg & Hlg & Flg). rewrite E in Hlg. simpl in Hlg.
  exists w', lg. repeat split; try assumption. by apply previewed_other.
Qed.

Lemma for_each_reset_dry_log defs l w :
  for_each (reset_one true defs) l w = (Ok tt, add_log w (l ≫= dry_reset_log defs)).
Proof.
  revert w. induction l as [|r l IH]; intros w; simpl.
  { by rewrite add_log_nil. }
  unfold bind, Migrator.reset_one at 1, dry_reset_log at 1.
  destruct (find_by_id (id r) defs) as [m|].
  - by rewrite rollback_one_dry, IH, add_log_app.
  - by rewrite logger_add_log, IH, add_log_app.
Qed.

Lemma up_previews defs w :
  (forall w0, (loadMigrations migrationsDir w0).1 = Ok defs) ->
  resolves_all client (calls w)
    ([CreateTable; SelectApplied]
     ++ up_calls clock calculateChecksum (ticks w)
          (Migrator.pendingMigrations defs (rows_of (table w)))) ->
  previews up_ w.
Proof.
  intros Hload Hres. unfold previews.
  pose proof Hres as Hres'. apply resolves_all_app in Hres' as [Hopen _].
  destruct (load_both_ok_log defs (add_log w [(LInfo, "Starting migration up...")])
              Hload Hopen) as (w1 & lg1 & E1 & Hc1 & Ht1 & Hk1 & Hl1 & Hp1).
  destruct (Migrator.pendingMigrations defs (rows_of (table w))) as [|p ps] eqn:Ep.
  - destruct (up_nothing_pending defs w Hload Ep Hopen) as (wl & El & Hcl & _).
    rewrite (up_after_load true w defs (rows_of (table w)) w1 E1).
    change (table (add_log w _)) with (table w). rewrite Ep. simpl.
    rewrite logger_add_log.
    eexists _, wl, _, _. split; [reflexivity|]. split.
    { cbn [log add_log]. rewrite Hl1. cbn [log add_log].
      rewrite <- !app_assoc. reflexivity. }
    split; [exact El|]. split; [exact Hcl|].
    rewrite !previewed_app, Hp1. reflexivity.
  - rewrite <- Ep in *.
    assert (Migrator.pendingMigrations defs (rows_of (table w)) <> []) as Hne
      by (by rewrite Ep).
    destruct (up_live_ok defs w Hload Hne Hres) as (wl & El & Hcl & _).
    rewrite (up_after_load true w defs (rows_of (table w)) w1 E1).
    change (table (add_log w _)) with (table w).
    cbv zeta.
    destruct (List.length _ =? 0)%nat eqn:El0.
    { apply Nat.eqb_eq in El0. destruct (Migrator.pendingMigrations _ _); done. }
    rewrite bind_logger. erewrite bind_eq by apply for_each_apply_dry.
    rewrite logger_add_log, !add_log_app.
    eexists _, wl, _, _. split; [reflexivity|]. split.
    { cbn [log add_log]. rewrite Hl1. cbn [log add_log].
      rewrite <- !app_assoc. reflexivity. }
    split; [exact El|]. split; [exact Hcl|].
    rewrite !previewed_app, Hp1, previewed_bind_apply, sent_app, sent_up_calls.
    unfold previewed, sent; simpl. by rewrite app_nil_r.
Qed.

Lemma reset_previews defs w :
  (forall w0, (loadMigrations migrationsDir w0).1 = Ok defs) ->
  resolves_all client (calls w)
    ([CreateTable; SelectApplied]
     ++ reset_calls defs (sort_desc (rows_of (table w)))) ->
  previews reset_ w.
Proof.
  intros Hload Hres. unfold previews.
  pose proof Hres as Hres'. apply resolves_all_app in Hres' as [Hopen _].
  destruct (load_both_ok_log defs (add_log w [(LInfo, "Starting migration reset...")])
              Hload Hopen) as (w1 & lg1 & E1 & Hc1 & Ht1 & Hk1 & Hl1 & Hp1).
  rewrite (reset_after_load true w defs (rows_of (table w)) w1 E1).
  change (table (add_log w _)) with (table w).
  destruct (rows_of (table w)) as [|r rs] eqn:Er.
  - apply rows_of_nil in Er.
    destruct (reset_empty defs false w Hload Hopen Er) as (wl & El & Hcl & _).
    simpl. rewrite logger_add_log.
    eexists _, wl, _, _. split; [reflexivity|]. split.
    { cbn [log add_log]. rewrite Hl1. cbn [log add_log].
      rewrite <- !app_assoc. reflexivity. }
    split; [exact El|]. split; [exact Hcl|].
    rewrite !previewed_app, Hp1. reflexivity.
  - rewrite <- Er in *.
    assert (rows_of (table w) <> []) as Hne by (by rewrite Er).
    destruct (reset_live_ok defs w Hload Hne Hres) as (wl & El & Hcl & _).
    destruct (List.length _ =? 0)%nat eqn:El0.
    { apply Nat.eqb_eq in El0. destruct (rows_of (table w)); done. }
    cbv zeta.
    rewrite bind_logger. erewrite bind_eq by apply for_each_reset_dry_log.
    rewrite logger_add_log, !add_log_app.
    eexists _, wl, _, _. split; [reflexivity|]. split.
    { cbn [log add_log]. rewrite Hl1. cbn [log add_log].
      rewrite <- !app_assoc. reflexivity. }
    split; [exact El|]. split; [exact Hcl|].
    rewrite !previewed_app, Hp1, sent_app, sent_reset_calls.
    unfold previewed at 1 2 4, sent; simpl. by rewrite app_nil_r.
Qed.

Lemma down_previews defs w lastApplied rest m :
  (forall w0, (loadMigrations migrationsDir w0).1 = Ok defs) ->
  sort_desc (rows_of (table w)) = lastApplied :: rest ->
  find_by_id (id lastApplied) defs = Some m ->
  resolves_all client (calls w) ([CreateTable; SelectApplied] ++ rollback_calls m) ->
  previews down_ w.
Proof.
  intros Hload Hsort Hfind Hres. unfold previews.
  apply resolves_all_app in Hres as [Hopen Hres].
  destruct (load_both_ok_log defs (add_log w [(LInfo, "Starting migration down...")])
              Hload Hopen) as (w1 & lg1 & E1 & Hc1 & Ht1 & Hk1 & Hl1 & Hp1).
  destruct (down_live_ok defs w lastApplied rest m Hload Hopen Hsort Hfind Hres)
    as (wl & El & Hcl & _).
  rewrite (down_after_load true w defs (rows_of (table w)) w1 E1).
  change (table (add_log w _)) with (table w).
  destruct (List.length _ =? 0)%nat eqn:El0.
  { apply Nat.eqb_eq in El0. destruct (rows_of (table w)); done. }
  rewrite Hsort, Hfind, rollback_one_dry.
  eexists _, wl, _, _. split; [reflexivity|]. split.
  { cbn [log add_log]. rewrite Hl1. cbn [log add_log].
    rewrite <- !app_assoc. reflexivity. }
  split; [exact El|]. split; [exact Hcl|].
  rewrite !previewed_app, Hp1, previewed_dry_rollback_log.
  unfold rollback_calls. rewrite !sent_app, sent_statements.
  unfold previewed, sent; simpl. by rewrite app_nil_r.
Qed.

(** The dry run is a faithful preview.  With the definitions on disk
    loading and the client resolving every call of the live run, the
    statements that [up(true)], [reset(true)] and [down(true)] announce
    with [[DRY RUN] Would execute: ...], in the order of the
    announcements, are the statements that the live run from the same
    state sends to the client, in the order it sends them. *)
Theorem dry_run_previews_live_run defs w :
  (forall w0, (loadMigrations migrationsDir w0).1 = Ok defs) ->
  (resolves_all client (calls w)
     ([CreateTable; SelectApplied]
      ++ up_calls clock calculateChecksum (ticks w)
           (Migrator.pendingMigrations defs (rows_of (table w)))) ->
   previews up_ w)
  /\ (resolves_all client (calls w)
        ([CreateTable; SelectApplied]
         ++ reset_calls defs (sort_desc (rows_of (table w)))) ->
      previews reset_ w)
  /\ (forall lastApplied rest m,
        sort_desc (rows_of (table w)) = lastApplied :: rest ->
        find_by_id (id lastApplied) defs = Some m ->
        resolves_all client (calls w) ([CreateTable; SelectApplied] ++ rollback_calls m) ->
        previews down_ w).
Proof.
  intros Hload. split; [|split].
  - by apply up_previews.
  - by apply reset_previews.
  - intros lastApplied rest m. by apply down_previews.
Qed.

(** *** The statements of a script *)

Lemma statements_In s cql :
  In s (statements cql) <->
  keep_fragment s = true /\ exists piece, s = Js.trim piece /\ In piece (Js.split ";" cql).
Proof.
  unfold statements. rewrite filter_In, in_map_iff. split.
  - intros [(piece & <- & H) Hk]. eauto.
  - intros [Hk (piece & -> & H)]. eauto.
Qed.

Lemma statement_bare s cql :
  In s (statements cql) ->
  s <> EmptyString
  /\ Js.trim s = s
  /\ ~ has_char ";" s
  /\ Js.startsWith s "--" = false
  /\ forall c, has_char c s -> has_char c cql.
Proof.
  intros Hs.
  apply statements_In in Hs as [Hk (piece & -> & Hp)].
  apply keep_fragment_iff in Hk as [Hne Hc].
  split; [done|]. split; [apply trim_idemp|]. split; [|split; [done|]].
  - intros H. apply trim_has_char in H.
    pose proof (split_no_sep ";" cql) as Hall.
    rewrite List.Forall_forall in Hall. by apply (Hall piece).
  - intros c H. apply trim_has_char in H. by apply (split_has_char ";" cql piece).
Qed.

(** What reaches the client is bare.  Every statement that [executeCQL]
    takes from a script is a non-empty piece of it with no white space
    around, holds no [;] and does not begin with [--]: a semicolon of
    the script never reaches the database, also one written inside a
    string literal, and all the code units of a statement come from the
    script. *)
Theorem statements_are_bare cql :
  Forall (fun s =>
            s <> EmptyString
            /\ Js.trim s = s
            /\ ~ has_char ";" s
            /\ Js.startsWith s "--" = false
            /\ forall c, has_char c s -> has_char c cql)
    (statements cql).
Proof.
  apply List.Forall_forall. intros s Hs.
  destruct (statement_bare s cql Hs) as (Hne & Htrim & Hsemi & Hdash & Hfrom).
  repeat split; assumption.
Qed.

Lemma statements_app a b :
  statements (a +:+ ";" +:+ b) = statements a ++ statements b.
Proof.
  unfold statements. change (a +:+ ";" +:+ b) with (a +:+ String ";" b).
  by rewrite split_app, fmap_app, List.filter_app.
Qed.

Lemma for_each_sequence {A} (body : A -> M unit) l1 l2 w :
  for_each body (l1 ++ l2) w = (for_each body l1 ;; for_each body l2) w.
Proof.
  revert w. induction l1 as [|x l1 IH]; intros w; simpl; [done|].
  unfold bind. destruct (body x w) as [[[]|e] w1]; [|done].
  rewrite IH. done.
Qed.

(** Scripts compose.  Running the text [a;b] is running [a] and then,
    when [a] went through, [b]: the statements of [a;b] are those of
    [a] followed by those of [b], and [executeCQL] on [a;b] has the
    result and the effects of [executeCQL] on [a] followed by
    [executeCQL] on [b], in live and in dry-run mode. *)
Theorem executeCQL_sequence a b dryRun w :
  statements (a +:+ ";" +:+ b) = statements a ++ statements b
  /\ executeCQL (a +:+ ";" +:+ b) dryRun w
     = (executeCQL a dryRun ;; executeCQL b dryRun) w.
Proof.
  split; [apply statements_app|].
  unfold Migrator.executeCQL. by rewrite statements_app, for_each_sequence.
Qed.

Lemma Forall_fmap_id {A} (f : A -> A) l : Forall (fun x => f x = x) l -> f <$> l = l.
Proof. induction 1 as [|x l Hx _ IH]; [done|]. by rewrite fmap_cons, Hx, IH. Qed.

Lemma Forall_filter_all {A} (f : A -> bool) l :
  Forall (fun x => f x = true) l -> List.filter f l = l.
Proof. induction 1 as [|x l Hx _ IH]; simpl; [done|]. by rewrite Hx, IH. Qed.

(** The statements of a script are a normal form of it: joined with
    [;] they make a script that has the same statements, so that the
    executor sends the same to the client for both. *)
Theorem statements_join_round_trip cql :
  statements (Js.join ";" (statements cql)) = statements cql.
Proof.
  assert (Forall (fun s => s <> EmptyString /\ Js.trim s = s /\ ~ has_char ";" s
                           /\ Js.startsWith s "--" = false)
            (statements cql)) as Hall.
  { apply List.Forall_forall. intros s Hs.
    destruct (statement_bare s cql Hs) as (? & ? & ? & ? & _). done. }
  destruct (statements cql) as [|s l] eqn:E; [done|]. rewrite <- E in *.
  unfold statements at 1.
  rewrite split_join.
  - rewrite Forall_fmap_id by (eapply Forall_impl; [exact Hall|]; by intros ? (_ & ? & _)).
    apply Forall_filter_all. eapply Forall_impl; [exact Hall|].
    intros x (Hne & _ & _ & Hc). by apply keep_fragment_iff.
  - by rewrite E.
  - eapply Forall_impl; [exact Hall|]. by intros ? (_ & _ & ? & _).
Qed.

(** *** What the loader returns *)

(** The files are taken in the order of the code units of their names,
    which is not the order of the numbers the names start with: the
    array the loader walks through is a permutation of the directory
    entries that end in [.ts] or [.cql], and no entry in it is below an
    earlier one. *)
Theorem recognized_in_code_unit_order dir :
  Permutation (recognized dir)
    (List.filter (fun file => Js.endsWith file ".ts" || Js.endsWith file ".cql")
       (readdirSync dir))
  /\ StronglySorted name_le (recognized dir).
Proof.
  unfold FileSystemManager.recognized. split.
  - apply sort_names_perm.
  - apply sort_names_sorted.
Qed.

Lemma loadMigrationFile_fields p i n w m w1 :
  loadMigrationFile p i n w = (Ok m, w1) ->
  id m = i /\ filename m = n /\ appliedAt m = None.
Proof.
  unfold FileSystemManager.loadMigrationFile,
    FileSystemManager.loadTypeScriptMigration, FileSystemManager.loadCQLMigration,
    try_catch, bind, note_load, lift, throw, ret.
  repeat (case_match; simplify_eq/=); try done; by intros [= <- <-].
Qed.

Lemma load_loop_files dir files acc w ms w1 :
  load_loop dir files acc w = (Ok ms, w1) ->
  exists ms', ms = acc ++ ms' /\ Forall2 loaded_from files ms'.
Proof.
  revert acc w. induction files as [|name rest IH]; intros acc w; simpl.
  { intros [= <- <-]. exists []. by rewrite app_nil_r. }
  unfold bind at 1, lift.
  destruct (extractMigrationId name) as [i|e] eqn:Ei; [|done].
  unfold bind at 1, try_catch.
  destruct (loadMigrationFile _ _ _ w) as [[m|e] w2] eqn:Em; simpl; [|done].
  intros H. apply IH in H as (ms' & -> & Hms').
  exists (m :: ms'). rewrite <- app_assoc. split; [done|].
  constructor; [|done].
  apply loadMigrationFile_fields in Em as (Hi & Hn & Ha).
  unfold extractMigrationId in Ei.
  destruct (Js.leadingDigits name) as [|d ds] eqn:El; [done|].
  injection Ei as <-. unfold loaded_from. by rewrite Hi, Hn.
Qed.

(** From a directory that exists, [loadMigrations] returns one
    definition per entry that ends in [.ts] or [.cql], in the sorted
    order of the names: the definition of position [k] has the file
    name of position [k], the leading digits of that name as its id,
    which is not empty, and no [appliedAt].  The files it read are
    those entries, each once and in that order. *)
Theorem loadMigrations_one_per_file dir w ms w' :
  existsSync dir = true ->
  loadMigrations dir w = (Ok ms, w') ->
  Forall2 loaded_from (recognized dir) ms
  /\ loaded w' = loaded w ++ (path_join dir <$> recognized dir).
Proof.
  intros Hdir. unfold FileSystemManager.loadMigrations. rewrite Hdir. simpl.
  intros H. split.
  - by apply load_loop_files in H as (ms' & -> & H).
  - by apply load_loop_loaded in H as [H _].
Qed.

(** *** The errors of the loader *)

Lemma loadMigrationFile_by_extension p i n :
  (Js.endsWith n ".ts" = true ->
   loadMigrationFile p i n
   = FileSystemManager.loadTypeScriptMigration importModule p i n)
  /\ (Js.endsWith n ".cql" = true ->
      loadMigrationFile p i n
      = FileSystemManager.loadCQLMigration readFileSync p i n).
Proof.
  unfold FileSystemManager.loadMigrationFile. split; intros H.
  - apply endsWith_app in H as [pre ->].
    rewrite (extname_of_suffix pre "ts"); [done|]. clear. vm_compute. intuition discriminate.
  - apply endsWith_app in H as [pre ->].
    rewrite (extname_of_suffix pre "cql"); [done|]. clear. vm_compute. intuition discriminate.
Qed.

Lemma loadMigrationFile_error p i n w e w1 :
  Js.endsWith n ".ts" || Js.endsWith n ".cql" = true ->
  loadMigrationFile p i n w = (Throw e, w1) ->
  (Js.endsWith n ".ts" = true
   /\ exists cause,
        e = JsError ("Failed to load TypeScript migration " +:+ n +:+ ": " +:+ cause))
  \/ (Js.endsWith n ".cql" = true
      /\ exists cause,
           e = JsError ("Failed to load CQL migration " +:+ n +:+ ": " +:+ cause)).
Proof.
  intros Hext. destruct (loadMigrationFile_by_extension p i n) as [Hts Hcql].
  destruct (Js.endsWith n ".ts") eqn:Ets.
  - rewrite Hts by done. intros H. left. split; [done|].
    unfold FileSystemManager.loadTypeScriptMigration, try_catch, bind, note_load,
      throw, ret in H.
    repeat (case_match; simplify_eq/=); by eexists.
  - simpl in Hext. rewrite Hcql by done. intros H. right. split; [done|].
    unfold FileSystemManager.loadCQLMigration, try_catch, bind, note_load, lift,
      throw, ret in H.
    repeat (case_match; simplify_eq/=); by eexists.
Qed.

Lemma load_loop_error dir files acc w e w1 :
  Forall (fun n => Js.endsWith n ".ts" || Js.endsWith n ".cql" = true) files ->
  load_loop dir files acc w = (Throw e, w1) ->
  exists name, In name files /\ load_error_of name e.
Proof.
  intros Hfiles. revert acc w.
  induction Hfiles as [|name rest Hname _ IH]; intros acc w; simpl; [done|].
  unfold bind at 1, lift.
  destruct (extractMigrationId name) as [i|e0] eqn:Ei.
  - unfold bind at 1, try_catch.
    destruct (loadMigrationFile _ _ _ w) as [[m|e1] w2] eqn:Em; simpl.
    + intros H. apply IH in H as (n & Hn & He). exists n. split; [by right|done].
    + unfold bind, logger, throw. simpl. intros [= <- <-].
      exists name. split; [by left|]. right.
      by apply (loadMigrationFile_error _ _ _ _ _ _ Hname Em).
  - intros [= <- <-]. exists name. split; [by left|]. left.
    unfold extractMigrationId in Ei.
    destruct (Js.leadingDigits name); [by injection Ei as <-|done].
Qed.

Lemma recognized_extensions dir :
  Forall (fun n => Js.endsWith n ".ts" || Js.endsWith n ".cql" = true) (recognized dir).
Proof.
  unfold FileSystemManager.recognized. rewrite sort_names_perm.
  apply List.Forall_forall. intros n Hn. by apply filter_In in Hn as [_ Hn].
Qed.


(** *** Without a migrations directory *)

Lemma loadMigrations_missing dir w :
  existsSync dir = false ->
  loadMigrations dir w
  = (Ok [], add_log w [(LWarn, "Migrations directory does not exist: " +:+ dir)]).
Proof. intros H. unfold FileSystemManager.loadMigrations. by rewrite H. Qed.

Lemma reset_calls_no_defs l : reset_calls [] l = [].
Proof. induction l as [|r l IH]; simpl; done. Qed.

Lemma reset_table_no_defs l t : reset_table [] l t = t.
Proof. induction l as [|r l IH]; simpl; done. Qed.

(** When the migrations directory does not exist, the loader warns and
    answers with no definition, and the engine goes on.  With the
    opening read resolved, [up()] finds nothing pending and returns,
    [status()] answers with the empty list, [reset()] rolls nothing
    back and returns, all three without a call beyond the opening read
    and with the table as it was; [down()], in live and in dry-run mode,
    raises [Migration file not found for applied migration: ...] for
    the newest record as soon as one record is applied. *)
Theorem missing_directory_is_no_definitions w :
  existsSync migrationsDir = false ->
  resolves_all client (calls w) [CreateTable; SelectApplied] ->
  (exists w',
     up_ false w = (Ok tt, w')
     /\ calls w' = calls w ++ [CreateTable; SelectApplied]
     /\ table w' = table w
     /\ last (log w') = Some (LSuccess, "No pending migrations found"))
  /\ (exists w',
     status_ w = (Ok [], w')
     /\ calls w' = calls w ++ [CreateTable; SelectApplied]
     /\ table w' = table w)
  /\ (exists w',
     reset_ false w = (Ok tt, w')
     /\ calls w' = calls w ++ [CreateTable; SelectApplied]
     /\ table w' = table w)
  /\ (forall dryRun lastApplied rest,
     sort_desc (rows_of (table w)) = lastApplied :: rest ->
     aborts (down_ dryRun) w
       (JsError ("Migration file not found for applied migration: "
                 +:+ filename lastApplied))
       [CreateTable; SelectApplied]).
Proof.
  intros Hdir Hopen.
  assert (forall w0, (loadMigrations migrationsDir w0).1 = Ok []) as Hload.
  { intros w0. by rewrite loadMigrations_missing. }
  split; [|split; [|split]].
  - destruct (up_nothing_pending [] w Hload eq_refl Hopen) as (w' & E & Hc & Ht & _ & Hl).
    by exists w'.
  - destruct (load_both_ok [] w Hload Hopen) as (w' & E & Hc & Ht & _).
    exists w'. by rewrite (status_after_load w [] (rows_of (table w)) w' E).
  - destruct (rows_of (table w)) as [|r rs] eqn:Er.
    + apply rows_of_nil in Er.
      destruct (reset_empty [] false w Hload Hopen Er) as (w' & E & Hc & Ht & _).
      by exists w'.
    + assert (rows_of (table w) <> []) as Hne by (by rewrite Er).
      destruct (reset_live_ok [] w Hload Hne) as (w' & E & Hc & Ht).
      { by rewrite reset_calls_no_defs, app_nil_r. }
      rewrite reset_calls_no_defs, app_nil_r in Hc. rewrite reset_table_no_defs in Ht.
      by exists w'.
  - intros dryRun lastApplied rest Hsort.
    destruct (load_both_ok [] (add_log w [(LInfo, "Starting migration down...")])
                Hload Hopen) as (w1 & E1 & Hc1 & Ht1 & _).
    exists w1. rewrite (down_after_load dryRun w [] (rows_of (table w)) w1 E1).
    destruct (List.length _ =? 0)%nat eqn:El0.
    { apply Nat.eqb_eq in El0. destruct (rows_of (table w)); done. }
    rewrite Hsort. simpl. done.
Qed.

(** *** A generated migration, applied as it was written *)

Lemma template_statements : statements template_up = [] /\ statements template_down = [].
Proof. split; vm_compute; reflexivity. Qed.

(** The module that [createMigration] writes exports two scripts made
    of comments.  Applied as written, such a migration sends no
    statement to the client: [up()] only inserts its record, so that it
    counts as applied, and [down()] only deletes the record. *)
Theorem generated_migration_runs_nothing m w :
  up m = template_up ->
  down m = template_down ->
  (client (calls w)
     (InsertRow (id m) (filename m) (clock (ticks w)) (calculateChecksum template_up))
   = None ->
   exists w',
     apply_one false m w = (Ok tt, w')
     /\ calls w' = calls w
                   ++ [InsertRow (id m) (filename m) (clock (ticks w))
                         (calculateChecksum template_up)]
     /\ table w' = <[id m := recorded_row clock calculateChecksum (ticks w) m]> (table w))
  /\ (client (calls w) (DeleteRow (id m)) = None ->
      exists w',
        rollback_one false m w = (Ok tt, w')
        /\ calls w' = calls w ++ [DeleteRow (id m)]
        /\ table w' = delete (id m) (table w)).
Proof.
  intros Hup Hdown. destruct template_statements as [Su Sd]. split; intros Hc.
  - destruct (apply_one_live_ok m w) as (w' & E & Hcalls & Ht & _).
    { unfold apply_calls. rewrite Hup, Su. simpl. auto. }
    exists w'. unfold apply_calls in Hcalls. rewrite Hup, Su in Hcalls. by simpl in Hcalls.
  - destruct (rollback_one_live_ok m w) as (w' & E & Hcalls & Ht & _).
    { unfold rollback_calls. rewrite Hdown, Sd. simpl. auto. }
    exists w'. unfold rollback_calls in Hcalls. rewrite Hdown, Sd in Hcalls.
    by simpl in Hcalls.
Qed.

End Properties.

(** ** The commands *)

Section CliProperties.

Variable existsSync : string -> bool.
Variable readdirSync : string -> list string.
Variable importModule : string -> Imported.
Variable readFileSync : string -> Result string.
Variable client : list Call -> Call -> option Exn.
Variable clock : nat -> Z.
Variable calculateChecksum : string -> string.
Variable env : ConfigLoader.Env.
Variable newClient : ConfigLoader.ClientOptions -> option Exn.
Variable connect : option Exn.
Variable shutdown : option Exn.
Variable answer : string.
Variable toISOString : Z -> string.

Local Abbreviation open_session := (Cli.open_session env newClient connect).
Local Abbreviation database_command := (Cli.database_command shutdown).
Local Abbreviation up_command :=
  (Cli.up_command existsSync readdirSync importModule readFileSync client clock
     calculateChecksum env newClient connect shutdown).
Local Abbreviation down_command :=
  (Cli.down_command existsSync readdirSync importModule readFileSync client env
     newClient connect shutdown).
Local Abbreviation reset_command :=
  (Cli.reset_command existsSync readdirSync importModule readFileSync client env
     newClient connect shutdown answer).
Local Abbreviation status_command :=
  (Cli.status_command existsSync readdirSync importModule readFileSync client env
     newClient connect shutdown toISOString).

Local Ltac no_shutdown :=
  auto;
  try (let Hin := fresh in
       intros Hin; simpl in Hin;
       repeat (destruct Hin as [Hin|Hin]; [discriminate|]); done);
  try (by repeat constructor).

Lemma createClient_log config w :
  exists lg, (ConfigLoader.createClient env config w).2 = add_log w lg.
Proof.
  unfold ConfigLoader.createClient, bind, lift.
  destruct (ConfigLoader.loadDatabaseConfig env) as [base|e]; simpl.
  - eexists [_; _]. unfold logger, add_log. simpl. by rewrite <- app_assoc.
  - exists []. by rewrite add_log_nil.
Qed.

Lemma createClient_needs_keyspace w :
  falsy (env !! "KEYSPACE_KEYSPACE") = true ->
  ConfigLoader.createClient env None w
  = (Throw (JsError "KEYSPACE_KEYSPACE environment variable is required"), w).
Proof.
  intros H. unfold ConfigLoader.createClient, ConfigLoader.loadDatabaseConfig, bind, lift.
  by rewrite H.
Qed.

(** The opening of a session adds to the log and to the events, and
    nothing else. *)
Lemma open_session_spec s :
  match open_session s with
  | (Ok config, s1) =>
      exists options lg,
        events s1 = events s ++ [NewClient options; Connect;
                                 SpinnerSucceed "Connected to database"]
        /\ world s1 = add_log (world s) lg
  | (Throw e, s1) =>
      exists k lg,
        events s1 = events s ++ k
        /\ ~ In Shutdown k
        /\ Forall (fun e => is_question e = false) k
        /\ world s1 = add_log (world s) lg
  end.
Proof.
  unfold Cli.open_session, cli_bind, engine at 1, attempt, emit.
  destruct (createClient_log None (world s)) as [lg Hlg].
  destruct (ConfigLoader.createClient env None (world s)) as [[options|e] w1];
    simpl in Hlg; subst w1; simpl.
  2:{ exists [], lg. rewrite app_nil_r. repeat split; auto. }
  destruct (newClient options); simpl.
  { exists [NewClient options], lg. repeat split; no_shutdown. }
  destruct connect; simpl.
  { exists [NewClient options; Connect], lg. rewrite <- app_assoc.
    repeat split; no_shutdown. }
  unfold engine, lift. simpl.
  destruct (ConfigLoader.loadDatabaseConfig env) as [cfg|e]; simpl.
  - exists options, lg. by rewrite <- !app_assoc.
  - exists [NewClient options; Connect; SpinnerSucceed "Connected to database"], lg.
    rewrite <- !app_assoc. repeat split; no_shutdown.
Qed.

Lemma database_command_lifecycle failText (body : Cli unit) s :
  (forall s0,
     match body s0 with
     | (Ok _, s1) =>
         exists options shown,
           events s1 = events s0 ++ [NewClient options; Connect;
                                     SpinnerSucceed "Connected to database"]
                       ++ (Console <$> shown)
     | (Throw e, s1) =>
         exists k, events s1 = events s0 ++ k /\ ~ In Shutdown k
                   /\ Forall (fun e => is_question e = false) k
     end) ->
  lifecycle failText s (database_command failText body s).
Proof.
  intros Hbody. unfold lifecycle, Cli.database_command, cli_bind, emit.
  match goal with |- context [body ?s0] => specialize (Hbody s0); destruct (body s0)
    as [[[]|e] s1] end; simpl in *.
  - destruct Hbody as (options & shown & Hev).
    assert (served s (mkSession (world s1) (events s1 ++ [Shutdown]))) as Hs.
    { exists options, shown. simpl. rewrite Hev. by rewrite <- !app_assoc. }
    by destruct shutdown.
  - destruct Hbody as (k & Hev & Hk & Hq). split; [done|].
    exists k, e. simpl. rewrite Hev, last_snoc, <- !app_assoc. auto.
Qed.

Lemma engine_after_open {A} (op : string * string -> M A) s :
  match (cli_bind open_session (fun config => engine (op config))) s with
  | (Ok _, s1) =>
      exists options,
        events s1 = events s ++ [NewClient options; Connect;
                                 SpinnerSucceed "Connected to database"]
  | (Throw e, s1) =>
      exists k, events s1 = events s ++ k /\ ~ In Shutdown k
                /\ Forall (fun e => is_question e = false) k
  end.
Proof.
  unfold cli_bind. pose proof (open_session_spec s) as H.
  destruct (open_session s) as [[config|e] s1].
  - destruct H as (options & lg & Hev & _). unfold engine.
    destruct (op config (world s1)) as [[a|e] w2]; simpl.
    + by exists options.
    + eexists. split; [exact Hev|]. split; no_shutdown.
  - destruct H as (k & lg & Hev & Hk & Hq & _). by exists k.
Qed.


Lemma reset_lifecycle optionsDryRun programDryRun s :
  lifecycle "Migration reset failed" s
    (reset_command true optionsDryRun programDryRun s).
Proof.
  unfold Cli.reset_command. simpl. apply database_command_lifecycle. intros s0.
  pose proof (engine_after_open
                (fun config =>
                   Migrator.reset existsSync readdirSync importModule readFileSync
                     client config.1 config.2 (optionsDryRun || programDryRun)) s0)
    as H.
  destruct (cli_bind _ _ s0) as [[[]|e] s1]; [|exact H].
  destruct H as [options H]. exists options, []. by rewrite app_nil_r.
Qed.

Lemma lifecycle_no_question failText s r :
  lifecycle failText s r ->
  exists k, events r.2 = events s ++ k /\ Forall (fun e => is_question e = false) k.
Proof.
  unfold lifecycle. destruct r as [[| code | e] s1]; simpl.
  - intros (options & shown & ->). eexists. split; [reflexivity|].
    repeat (apply Forall_cons; split; [done|]).
    apply Forall_app. split; [|by repeat constructor].
    apply Forall_fmap. by apply Forall_true.
  - intros (_ & k & error & -> & _ & Hq & _). eexists. split; [reflexivity|].
    apply Forall_cons. split; [done|]. apply Forall_app. split; [done|].
    by repeat constructor.
  - intros (options & shown & ->). eexists. split; [reflexivity|].
    repeat (apply Forall_cons; split; [done|]).
    apply Forall_app. split; [|by repeat constructor].
    apply Forall_fmap. by apply Forall_true.
Qed.

(** [reset] asks before it touches anything.  Without [--force] and
    without a dry-run flag the command warns and asks; on any answer
    other than [y] or [yes], in whatever case, it logs
    [Reset cancelled] and returns: no client is made, nothing is sent to
    the database and nothing else happens.  On [y] or [yes] it goes on
    exactly as [reset --force] does.  With [--force] or a dry-run flag
    it does not ask. *)
Theorem reset_command_asks_first s :
  (confirms answer = false ->
   reset_command false false false s
   = (Returned,
      mkSession (add_log (world (asked s)) [(LInfo, "Reset cancelled")])
        (events (asked s))))
  /\ (confirms answer = true ->
      reset_command false false false s = reset_command true false false (asked s))
  /\ (forall optionsForce optionsDryRun programDryRun,
        optionsForce || optionsDryRun || programDryRun = true ->
        exists k,
          events (reset_command optionsForce optionsDryRun programDryRun s).2
          = events s ++ k
          /\ Forall (fun e => is_question e = false) k).
Proof.
  split; [|split].
  - intros H. unfold Cli.reset_command. simpl. fold (confirms answer). by rewrite H.
  - intros H. unfold Cli.reset_command. simpl. fold (confirms answer). by rewrite H.
  - intros f d p H.
    assert (reset_command f d p s = reset_command true d p s) as ->.
    { unfold Cli.reset_command. destruct f, d, p; try done. }
    eapply lifecycle_no_question, reset_lifecycle.
Qed.

(** No keyspace, no connection.  When [KEYSPACE_KEYSPACE] is unset or
    empty, each database command stops before a client is made: the
    spinner starts and fails with the failure text of the command, the
    error [KEYSPACE_KEYSPACE environment variable is required] is
    logged, and the process exits with code 1.  Nothing is sent to the
    database. *)
Theorem commands_need_a_keyspace optionsDryRun programDryRun s :
  falsy (env !! "KEYSPACE_KEYSPACE") = true ->
  up_command optionsDryRun programDryRun s
  = (Exited 1, without_keyspace "Migration failed" s)
  /\ down_command optionsDryRun programDryRun s
     = (Exited 1, without_keyspace "Migration rollback failed" s)
  /\ reset_command true optionsDryRun programDryRun s
     = (Exited 1, without_keyspace "Migration reset failed" s)
  /\ status_command s
     = (Exited 1, without_keyspace "Failed to get migration status" s).
Proof.
  intros H.
  assert (forall s0, open_session s0
                     = (Throw (JsError "KEYSPACE_KEYSPACE environment variable is required"),
                        s0)) as Hopen.
  { intros s0. unfold Cli.open_session, cli_bind, engine.
    rewrite createClient_needs_keyspace by done. by destruct s0. }
  unfold without_keyspace.
  repeat split;
    unfold Cli.up_command, Cli.down_command, Cli.reset_command, Cli.status_command,
      Cli.database_command, cli_bind, emit; simpl; rewrite Hopen; simpl;
    by rewrite <- app_assoc.
Qed.

Lemma nothing_written_refl w : nothing_written w w.
Proof. split; [done|]. exists []. by rewrite app_nil_r. Qed.

Lemma nothing_written_add_log w w' a b :
  nothing_written w w' -> nothing_written (add_log w a) (add_log w' b).
Proof. by unfold nothing_written, add_log. Qed.

Lemma nothing_written_add_log_l w w' a :
  nothing_written (add_log w a) w' -> nothing_written w w'.
Proof. by unfold nothing_written, add_log. Qed.

Lemma nothing_written_add_log_r w w' a :
  nothing_written w w' -> nothing_written w (add_log w' a).
Proof. by unfold nothing_written, add_log. Qed.

Lemma database_command_reads_only failText (op : string * string -> M unit) s :
  (forall config w, nothing_written w (op config w).2) ->
  nothing_written (world s)
    (world (database_command failText
              (cli_bind open_session (fun config => engine (op config))) s).2).
Proof.
  intros Hop. unfold Cli.database_command, cli_bind at 1, emit.
  unfold cli_bind.
  match goal with |- context [open_session ?s0] =>
    pose proof (open_session_spec s0) as H; destruct (open_session s0)
      as [[config|e] s1] end; simpl in H.
  - destruct H as (options & lg & _ & Hw). unfold engine.
    specialize (Hop config (world s1)).
    destruct (op config (world s1)) as [[[]|e] w2]; simpl in *.
    + rewrite Hw in Hop. by apply nothing_written_add_log_l in Hop.
    + apply nothing_written_add_log_r. rewrite Hw in Hop.
      by apply nothing_written_add_log_l in Hop.
  - destruct H as (k & lg & _ & _ & _ & Hw). simpl. rewrite Hw.
    apply nothing_written_add_log_r.
    rewrite <- (add_log_nil (world s)) at 1.
    apply nothing_written_add_log, nothing_written_refl.
Qed.

(** A dry-run flag makes the whole command read-only.  With
    [--dry-run] given to the command or to the program, the commands
    [up], [down] and [reset] leave the tracking table as it was, and the
    client sees nothing but the creation of the table and the read of
    its rows, whatever the files, the answers of the client and the
    environment. *)
Theorem dry_run_flag_makes_commands_read_only optionsForce optionsDryRun programDryRun s :
  optionsDryRun || programDryRun = true ->
  nothing_written (world s) (world (up_command optionsDryRun programDryRun s).2)
  /\ nothing_written (world s) (world (down_command optionsDryRun programDryRun s).2)
  /\ nothing_written (world s)
       (world (reset_command optionsForce optionsDryRun programDryRun s).2).
Proof.
  intros H. split; [|split].
  - unfold Cli.up_command. rewrite H.
    apply (database_command_reads_only "Migration failed"
             (fun config =>
                Migrator.up existsSync readdirSync importModule readFileSync client
                  clock calculateChecksum config.1 config.2 true)).
    intros config w. apply reads_only_nothing_written, up_dry_reads_only.
  - unfold Cli.down_command. rewrite H.
    apply (database_command_reads_only "Migration rollback failed"
             (fun config =>
                Migrator.down existsSync readdirSync importModule readFileSync client
                  config.1 config.2 true)).
    intros config w. apply reads_only_nothing_written, down_dry_reads_only.
  - assert (reset_command optionsForce optionsDryRun programDryRun s
            = reset_command true optionsDryRun programDryRun s) as ->.
    { unfold Cli.reset_command. destruct optionsForce, optionsDryRun, programDryRun; done. }
    unfold Cli.reset_command. simpl. rewrite H.
    apply (database_command_reads_only "Migration reset failed"
             (fun config =>
                Migrator.reset existsSync readdirSync importModule readFileSync client
                  config.1 config.2 true)).
    intros config w. apply reads_only_nothing_written, reset_dry_reads_only.
Qed.

End CliProperties.

(** ** The command [create] *)


(** ** Instances *)


(** The directory of [Sample] loads to the definitions it was built
    from. *)
Lemma sample_three_broken_loads w0 :
  (FileSystemManager.loadMigrations Sample.existsSync
     (Sample.readdir_of Sample.three_broken)
     (Sample.import_from Sample.three_broken) Sample.readFileSync Sample.dir w0).1
  = Ok Sample.three_broken.
Proof. vm_compute. reflexivity. Qed.


Lemma sample_three_loads w0 :
  (FileSystemManager.loadMigrations Sample.existsSync
     (Sample.readdir_of Sample.three)
     (Sample.import_from Sample.three) Sample.readFileSync Sample.dir w0).1
  = Ok Sample.three.
Proof. vm_compute. reflexivity. Qed.

Lemma sample_empty_loads w0 :
  (FileSystemManager.loadMigrations Sample.existsSync
     (Sample.readdir_of []) (Sample.import_from []) Sample.readFileSync
     Sample.dir w0).1
  = Ok [].
Proof. vm_compute. reflexivity. Qed.

(** C1, at the failing input: one applied record, no definition on
    disk.  [reset(false)] rolls nothing back (no statement, no delete,
    the record stays) and still reports one migration rolled back. *)
Theorem reset_counts_skipped_records :
  let r :=
    Migrator.reset Sample.existsSync (Sample.readdir_of [])
      (Sample.import_from []) Sample.readFileSync Sample.always_ok Sample.dir
      "schema_migrations" false Sample.world_001 in
  r.1 = Ok tt
  /\ calls r.2 = [CreateTable; SelectApplied]
  /\ table r.2 = Sample.table_001
  /\ rolled_back [] (sort_desc (rows_of Sample.table_001)) = []
  /\ log r.2 =
     [(LInfo, "Starting migration reset...");
      (LDebug, "Migrations table schema_migrations initialized");
      (LInfo, "Found 1 applied migration(s) to rollback");
      (LWarn, "Migration file not found for applied migration: 001_create_users.ts");
      (LSuccess, "Successfully rolled back 1 migration(s)")].
Proof. vm_compute. repeat split; reflexivity. Qed.


(** Witness of C6: the orphan [007] is skipped, [002] is rolled back,
    the down-script of [001] is rejected; [002] stays removed. *)
Lemma reset_newest_first_witness :
  exists w',
    Migrator.reset Sample.existsSync (Sample.readdir_of Sample.three)
      (Sample.import_from Sample.three) Sample.readFileSync
      Sample.rejects_drop_users Sample.dir "schema_migrations" false
      Sample.world_mixed
    = (Throw (JsError ("Failed to execute CQL: DROP TABLE users" +:+ Js.nl
                       +:+ "Error: ResponseError: unconfigured table users")), w')
    /\ calls w' =
       [CreateTable; SelectApplied; Statement "DROP INDEX users_email_idx";
        DeleteRow "002"; Statement "DROP TABLE users"]
    /\ table w' = delete "002" Sample.table_mixed
    /\ (forall p mp, In p [Sample.r007; Sample.r002] ->
        find_by_id (id p) Sample.three = Some mp -> table w' !! id p = None)
    /\ (forall p, In p [Sample.r007; Sample.r002] ->
        find_by_id (id p) Sample.three = None ->
        In (LWarn, "Migration file not found for applied migration: " +:+ filename p)
          (log w')).
Proof.
  apply (proj2 (proj2 (proj2
           (reset_newest_first Sample.existsSync (Sample.readdir_of Sample.three)
              (Sample.import_from Sample.three) Sample.readFileSync
              Sample.rejects_drop_users Sample.dir "schema_migrations"
              Sample.three Sample.world_mixed sample_three_loads
              ltac:(vm_compute; auto) ltac:(vm_compute; discriminate))))
         [Sample.r007; Sample.r002] Sample.r001 [] Sample.m001
         [] (Statement "DROP TABLE users") [DeleteRow "001"]
         (External "ResponseError: unconfigured table users")).
  - vm_compute. reflexivity.
  - vm_compute. reflexivity.
  - vm_compute. auto.
  - vm_compute. reflexivity.
  - vm_compute. auto.
  - vm_compute. reflexivity.
Defined.

(** Witness of C8: [down()] on an empty table, and [reset()] twice over
    a table that records [001] and [002]. *)
Lemma zero_applied_is_not_an_error_witness :
  (exists w',
     Migrator.down Sample.existsSync (Sample.readdir_of Sample.three)
       (Sample.import_from Sample.three) Sample.readFileSync Sample.always_ok
       Sample.dir "schema_migrations" false Sample.world0 = (Ok tt, w')
     /\ calls w' = [CreateTable; SelectApplied]
     /\ table w' = ∅
     /\ In (LWarn, "No applied migrations found") (log w'))
  /\ (exists w1 w2,
     Migrator.reset Sample.existsSync (Sample.readdir_of Sample.three)
       (Sample.import_from Sample.three) Sample.readFileSync Sample.always_ok
       Sample.dir "schema_migrations" false Sample.world_12 = (Ok tt, w1)
     /\ table w1 = ∅
     /\ Migrator.reset Sample.existsSync (Sample.readdir_of Sample.three)
          (Sample.import_from Sample.three) Sample.readFileSync Sample.always_ok
          Sample.dir "schema_migrations" false w1 = (Ok tt, w2)
     /\ calls w2 = calls w1 ++ [CreateTable; SelectApplied]
     /\ table w2 = ∅
     /\ In (LWarn, "No applied migrations found") (log w2)).
Proof.
  destruct (zero_applied_is_not_an_error Sample.existsSync
              (Sample.readdir_of Sample.three) (Sample.import_from Sample.three)
              Sample.readFileSync Sample.always_ok Sample.dir "schema_migrations"
              Sample.three sample_three_loads) as [Hzero Htwice].
  split.
  - apply (Hzero false Sample.world0); [vm_compute; auto|reflexivity].
  - apply (Htwice Sample.world_12).
    + intros r Hr. vm_compute in Hr.
      destruct Hr as [<-|[<-|[]]]; vm_compute; by eexists.
    + vm_compute. repeat split.
Defined.


(** Witness of C10: three definitions; [001], [002] and the orphan
    [007] are recorded.  The answer has three entries and none for
    [007]. *)
Lemma status_lists_definitions_witness :
  exists w',
    Migrator.status Sample.existsSync (Sample.readdir_of Sample.three)
      (Sample.import_from Sample.three) Sample.readFileSync Sample.always_ok
      Sample.dir "schema_migrations" Sample.world_mixed
    = (Ok [mkStatus "001" "001_create_users.ts" applied (Some 1600000000000);
           mkStatus "002" "002_add_email_index.ts" applied (Some 1600000000002);
           mkStatus "003" "003_create_posts.ts" pending None], w')
    /\ table w' = Sample.table_mixed.
Proof.
  destruct (status_lists_definitions Sample.existsSync
              (Sample.readdir_of Sample.three) (Sample.import_from Sample.three)
              Sample.readFileSync Sample.always_ok Sample.dir "schema_migrations"
              Sample.three Sample.world_mixed sample_three_loads)
    as (sts & w' & E & _ & _ & _ & Ht).
  - vm_compute. auto.
  - exists w'. split; [|exact Ht].
    rewrite E. f_equal. f_equal.
    vm_compute in E. by injection E as <- _.
Defined.

(** Witness of C7: nothing is applied; [up()] applies [001], [002] and
    then [003], and [down()] takes [003] back. *)
Lemma up_down_round_trip_witness :
  exists w1 sts1 w2 w3 sts3 w4,
    Migrator.up Sample.existsSync (Sample.readdir_of Sample.three)
      (Sample.import_from Sample.three) Sample.readFileSync Sample.always_ok
      Sample.clock Sample.checksum Sample.dir "schema_migrations" false
      Sample.world0 = (Ok tt, w1)
    /\ Migrator.status Sample.existsSync (Sample.readdir_of Sample.three)
         (Sample.import_from Sample.three) Sample.readFileSync Sample.always_ok
         Sample.dir "schema_migrations" w1 = (Ok sts1, w2)
    /\ (exists s, In s sts1 /\ st_id s = "003")
    /\ (forall s, In s sts1 -> st_id s = "003" -> st_status s = applied)
    /\ Migrator.down Sample.existsSync (Sample.readdir_of Sample.three)
         (Sample.import_from Sample.three) Sample.readFileSync Sample.always_ok
         Sample.dir "schema_migrations" false w2 = (Ok tt, w3)
    /\ Migrator.status Sample.existsSync (Sample.readdir_of Sample.three)
         (Sample.import_from Sample.three) Sample.readFileSync Sample.always_ok
         Sample.dir "schema_migrations" w3 = (Ok sts3, w4)
    /\ (exists s, In s sts3 /\ st_id s = "003")
    /\ (forall s, In s sts3 -> st_id s = "003" -> st_status s = pending)
    /\ sts3 = status_of_table Sample.three
                (up_table Sample.clock Sample.checksum 0 [Sample.m001; Sample.m002] ∅)
    /\ table w3 = up_table Sample.clock Sample.checksum 0 [Sample.m001; Sample.m002] ∅.
Proof.
  apply (up_down_round_trip Sample.existsSync (Sample.readdir_of Sample.three)
           (Sample.import_from Sample.three) Sample.readFileSync Sample.always_ok
           Sample.clock Sample.checksum Sample.dir "schema_migrations"
           Sample.three Sample.world0 [Sample.m001; Sample.m002] Sample.m003
           sample_three_loads).
  - vm_compute. reflexivity.
  - intros p [<-|[<-|[]]]; vm_compute; discriminate.
  - intros r Hr. vm_compute in Hr.
    destruct Hr as [<-|[<-|[]]]; vm_compute; reflexivity.
  - vm_compute. repeat split.
Defined.

(** C7, as first stated, fails for a migration that is not the one
    applied last: [up()] applies [001], [002] and [003], the [down()]
    that follows takes back [003] alone, and [status()] still has [001]
    and [002] as [applied]. *)
Lemma round_trip_keeps_earlier_migrations :
  let after_up :=
    Migrator.up Sample.existsSync (Sample.readdir_of Sample.three)
      (Sample.import_from Sample.three) Sample.readFileSync Sample.always_ok
      Sample.clock Sample.checksum Sample.dir "schema_migrations" false
      Sample.world0 in
  let after_down :=
    Migrator.down Sample.existsSync (Sample.readdir_of Sample.three)
      (Sample.import_from Sample.three) Sample.readFileSync Sample.always_ok
      Sample.dir "schema_migrations" false after_up.2 in
  let answer :=
    Migrator.status Sample.existsSync (Sample.readdir_of Sample.three)
      (Sample.import_from Sample.three) Sample.readFileSync Sample.always_ok
      Sample.dir "schema_migrations" after_down.2 in
  after_up.1 = Ok tt
  /\ after_down.1 = Ok tt
  /\ answer.1 =
     Ok [mkStatus "001" "001_create_users.ts" applied (Some 1700000000000);
         mkStatus "002" "002_add_email_index.ts" applied (Some 1700000000001);
         mkStatus "003" "003_create_posts.ts" pending None].
Proof. vm_compute. repeat split; reflexivity. Qed.

(** C8, as first stated, fails when a record has no definition: the
    first [reset()] skips the record [001] and leaves it in the table,
    and the second [reset()] meets it again instead of reporting that
    nothing is applied. *)
Lemma second_reset_meets_skipped_record :
  let first :=
    Migrator.reset Sample.existsSync (Sample.readdir_of [])
      (Sample.import_from []) Sample.readFileSync Sample.always_ok Sample.dir
      "schema_migrations" false Sample.world_001 in
  let second :=
    Migrator.reset Sample.existsSync (Sample.readdir_of [])
      (Sample.import_from []) Sample.readFileSync Sample.always_ok Sample.dir
      "schema_migrations" false first.2 in
  first.1 = Ok tt
  /\ table first.2 = Sample.table_001
  /\ second.1 = Ok tt
  /\ log second.2 =
     log first.2
     ++ [(LInfo, "Starting migration reset...");
         (LDebug, "Migrations table schema_migrations initialized");
         (LInfo, "Found 1 applied migration(s) to rollback");
         (LWarn, "Migration file not found for applied migration: 001_create_users.ts");
         (LSuccess, "Successfully rolled back 1 migration(s)")].
Proof. vm_compute. repeat split; reflexivity. Qed.

(** The client refuses to create the tracking table: [up()] raises after
    that one call; it refuses the read of the rows: [status()] raises
    after the read. *)
Lemma opening_read_failure_aborts_witness :
  aborts
    (Migrator.up Sample.existsSync (Sample.readdir_of Sample.three)
       (Sample.import_from Sample.three) Sample.readFileSync
       Sample.rejects_create_table Sample.clock Sample.checksum Sample.dir
       "schema_migrations" false)
    Sample.world_001
    (init_error (External "NoHostAvailableError: All host(s) tried for query failed"))
    [CreateTable]
  /\ aborts
       (Migrator.status Sample.existsSync (Sample.readdir_of Sample.three)
          (Sample.import_from Sample.three) Sample.readFileSync
          Sample.rejects_select Sample.dir "schema_migrations")
       Sample.world_001
       (read_error (External "ResponseError: Keyspace does not exist"))
       [CreateTable; SelectApplied].
Proof.
  split.
  - apply (proj1 (opening_read_failure_aborts Sample.existsSync
                    (Sample.readdir_of Sample.three) (Sample.import_from Sample.three)
                    Sample.readFileSync Sample.rejects_create_table Sample.clock
                    Sample.checksum Sample.dir "schema_migrations" Sample.three false
                    Sample.world_001 sample_three_loads)).
    reflexivity.
  - apply (proj2 (opening_read_failure_aborts Sample.existsSync
                    (Sample.readdir_of Sample.three) (Sample.import_from Sample.three)
                    Sample.readFileSync Sample.rejects_select Sample.clock
                    Sample.checksum Sample.dir "schema_migrations" Sample.three false
                    Sample.world_001 sample_three_loads)); reflexivity.
Defined.

(** [001] is recorded: [up()] applies [002] and [003], and a second
    [up()] finds nothing pending. *)
Lemma up_twice_applies_once_witness :
  exists w1 w2,
    Migrator.up Sample.existsSync (Sample.readdir_of Sample.three)
      (Sample.import_from Sample.three) Sample.readFileSync Sample.always_ok
      Sample.clock Sample.checksum Sample.dir "schema_migrations" false
      Sample.world_001 = (Ok tt, w1)
    /\ table w1 = up_table Sample.clock Sample.checksum 0 [Sample.m002; Sample.m003]
                    Sample.table_001
    /\ Migrator.up Sample.existsSync (Sample.readdir_of Sample.three)
         (Sample.import_from Sample.three) Sample.readFileSync Sample.always_ok
         Sample.clock Sample.checksum Sample.dir "schema_migrations" false w1
       = (Ok tt, w2)
    /\ calls w2 = calls w1 ++ [CreateTable; SelectApplied]
    /\ table w2 = table w1
    /\ last (log w2) = Some (LSuccess, "No pending migrations found").
Proof.
  apply (up_twice_applies_once Sample.existsSync (Sample.readdir_of Sample.three)
           (Sample.import_from Sample.three) Sample.readFileSync Sample.always_ok
           Sample.clock Sample.checksum Sample.dir "schema_migrations" Sample.three
           Sample.world_001 sample_three_loads).
  vm_compute. repeat split.
Defined.

(** [001] and [002] are recorded and [003] is pending: the dry runs of
    [up], [reset] and [down] announce what their live runs send. *)
Lemma dry_run_previews_live_run_witness :
  previews
    (Migrator.up Sample.existsSync (Sample.readdir_of Sample.three)
       (Sample.import_from Sample.three) Sample.readFileSync Sample.always_ok
       Sample.clock Sample.checksum Sample.dir "schema_migrations")
    Sample.world_12
  /\ previews
       (Migrator.reset Sample.existsSync (Sample.readdir_of Sample.three)
          (Sample.import_from Sample.three) Sample.readFileSync Sample.always_ok
          Sample.dir "schema_migrations")
       Sample.world_12
  /\ previews
       (Migrator.down Sample.existsSync (Sample.readdir_of Sample.three)
          (Sample.import_from Sample.three) Sample.readFileSync Sample.always_ok
          Sample.dir "schema_migrations")
       Sample.world_12.
Proof.
  destruct (dry_run_previews_live_run Sample.existsSync
              (Sample.readdir_of Sample.three) (Sample.import_from Sample.three)
              Sample.readFileSync Sample.always_ok Sample.clock Sample.checksum
              Sample.dir "schema_migrations" Sample.three Sample.world_12
              sample_three_loads) as (Hup & Hreset & Hdown).
  split; [|split].
  - apply Hup. vm_compute. repeat split.
  - apply Hreset. vm_compute. repeat split.
  - apply (Hdown Sample.r002 [Sample.r001] Sample.m002).
    + vm_compute. reflexivity.
    + reflexivity.
    + vm_compute. repeat split.
Defined.

(** The three files of the sample directory give its three definitions,
    in the order of their names. *)
Lemma loadMigrations_one_per_file_witness :
  Forall2 loaded_from
    ["001_create_users.ts"; "002_add_email_index.ts"; "003_create_posts.ts"]
    Sample.three
  /\ loaded (FileSystemManager.loadMigrations Sample.existsSync
               (Sample.readdir_of Sample.three) (Sample.import_from Sample.three)
               Sample.readFileSync Sample.dir Sample.world0).2
     = ["./migrations/001_create_users.ts"; "./migrations/002_add_email_index.ts";
        "./migrations/003_create_posts.ts"].
Proof.
  eapply (loadMigrations_one_per_file Sample.existsSync
            (Sample.readdir_of Sample.three) (Sample.import_from Sample.three)
            Sample.readFileSync Sample.dir Sample.world0 Sample.three _ eq_refl).
  vm_compute. reflexivity.
Defined.


(** No directory, [001] and [002] recorded: [up()] has nothing to do
    and [down()] raises for [002]. *)
Lemma missing_directory_is_no_definitions_witness :
  (exists w',
     Migrator.up Sample.no_directory (Sample.readdir_of Sample.three)
       (Sample.import_from Sample.three) Sample.readFileSync Sample.always_ok
       Sample.clock Sample.checksum Sample.dir "schema_migrations" false
       Sample.world_12 = (Ok tt, w')
     /\ calls w' = [CreateTable; SelectApplied]
     /\ table w' = Sample.table_12
     /\ last (log w') = Some (LSuccess, "No pending migrations found"))
  /\ aborts
       (Migrator.down Sample.no_directory (Sample.readdir_of Sample.three)
          (Sample.import_from Sample.three) Sample.readFileSync Sample.always_ok
          Sample.dir "schema_migrations" false)
       Sample.world_12
       (JsError "Migration file not found for applied migration: 002_add_email_index.ts")
       [CreateTable; SelectApplied].
Proof.
  destruct (missing_directory_is_no_definitions Sample.no_directory
              (Sample.readdir_of Sample.three) (Sample.import_from Sample.three)
              Sample.readFileSync Sample.always_ok Sample.clock Sample.checksum
              Sample.dir "schema_migrations" Sample.world_12 eq_refl)
    as (Hup & _ & _ & Hdown).
  { vm_compute. auto. }
  split; [exact Hup|].
  apply (Hdown false Sample.r002 [Sample.r001]). vm_compute. reflexivity.
Defined.

(** A [.cql] file with a header, three lines of [Up] and one of [Down]. *)
Lemma parseCQLFile_reads_sections_witness :
  parseCQLFile
    ("-- Migration: create users" +:+ Js.nl +:+ Js.nl
     +:+ "-- +migrate Up" +:+ Js.nl
     +:+ "CREATE TABLE users (" +:+ Js.nl +:+ "  id UUID PRIMARY KEY" +:+ Js.nl
     +:+ ");" +:+ Js.nl +:+ Js.nl
     +:+ "-- +migrate Down" +:+ Js.nl
     +:+ "DROP TABLE users;" +:+ Js.nl)
  = Ok ("CREATE TABLE users (" +:+ Js.nl +:+ "  id UUID PRIMARY KEY" +:+ Js.nl
        +:+ ");" +:+ Js.nl +:+ Js.nl,
        "DROP TABLE users;" +:+ Js.nl +:+ Js.nl).
Proof.
  apply (parseCQLFile_reads_sections Sample.cql_header "-- +migrate Up"
           Sample.cql_ups "-- +migrate Down" Sample.cql_downs).
  - repeat constructor; vm_compute; intuition discriminate.
  - repeat constructor.
  - reflexivity.
  - reflexivity.
  - repeat constructor.
  - reflexivity.
  - reflexivity.
Defined.

(** The sections of that file, read back. *)
Lemma parseCQLFile_keeps_whole_lines_witness :
  exists us ds,
    "DROP TABLE users;" +:+ Js.nl +:+ Js.nl = section_text ds
    /\ Forall (fun l => is_comment l = false) us
    /\ Forall (fun l => is_comment l = false) ds.
Proof.
  destruct (parseCQLFile_keeps_whole_lines
              ("-- Migration: create users" +:+ Js.nl +:+ Js.nl
               +:+ "-- +migrate Up" +:+ Js.nl
               +:+ "CREATE TABLE users (" +:+ Js.nl +:+ "  id UUID PRIMARY KEY" +:+ Js.nl
               +:+ ");" +:+ Js.nl +:+ Js.nl
               +:+ "-- +migrate Down" +:+ Js.nl
               +:+ "DROP TABLE users;" +:+ Js.nl)
              ("CREATE TABLE users (" +:+ Js.nl +:+ "  id UUID PRIMARY KEY" +:+ Js.nl
               +:+ ");" +:+ Js.nl +:+ Js.nl)
              ("DROP TABLE users;" +:+ Js.nl +:+ Js.nl) eq_refl)
    as (us & ds & _ & Hd & _ & _ & Fu & Fd & _).
  by exists us, ds.
Defined.


(** The text written for [create --cql "add users"] does not parse. *)
Lemma created_cql_migration_does_not_load_witness :
  parseCQLFile (getCQLMigrationTemplate "add users" "2024-01-05T08:03:07.000Z")
  = Throw no_up_section.
Proof.
  apply (created_cql_migration_does_not_load "add users" "2024-01-05T08:03:07.000Z");
    vm_compute; intuition discriminate.
Defined.

(** The generated definition, applied to an empty database: one call,
    the insert of its record. *)
Lemma generated_migration_runs_nothing_witness :
  exists w',
    Migrator.apply_one Sample.always_ok Sample.clock Sample.checksum false
      Sample.generated Sample.world0 = (Ok tt, w')
    /\ calls w'
       = [InsertRow "20240105090307" "20240105090307_add_users_table.ts"
            1700000000000 "d41d8cd98f00b204e9800998ecf8427e"]
    /\ table w'
       = <[ "20240105090307" :=
              recorded_row Sample.clock Sample.checksum 0 Sample.generated ]> ∅.
Proof.
  apply (proj1 (generated_migration_runs_nothing Sample.always_ok Sample.clock
                  Sample.checksum Sample.generated Sample.world0 eq_refl eq_refl)).
  reflexivity.
Defined.

(** With an empty environment, [up] stops before it makes a client. *)
Lemma commands_need_a_keyspace_witness :
  Cli.up_command Sample.existsSync (Sample.readdir_of Sample.three)
    (Sample.import_from Sample.three) Sample.readFileSync Sample.always_ok
    Sample.clock Sample.checksum ∅ Sample.any_client None None false false
    Sample.session_12
  = (Exited 1, without_keyspace "Migration failed" Sample.session_12).
Proof.
  apply (commands_need_a_keyspace Sample.existsSync (Sample.readdir_of Sample.three)
           (Sample.import_from Sample.three) Sample.readFileSync Sample.always_ok
           Sample.clock Sample.checksum ∅ Sample.any_client None None "no" Sample.iso
           false false Sample.session_12).
  reflexivity.
Defined.

(** [up --dry-run] with [003] pending writes nothing. *)
Lemma dry_run_flag_makes_commands_read_only_witness :
  nothing_written Sample.world_12
    (world (Cli.up_command Sample.existsSync (Sample.readdir_of Sample.three)
              (Sample.import_from Sample.three) Sample.readFileSync Sample.always_ok
              Sample.clock Sample.checksum Sample.shop_env Sample.any_client None None
              true false Sample.session_12).2).
Proof.
  apply (dry_run_flag_makes_commands_read_only Sample.existsSync
           (Sample.readdir_of Sample.three) (Sample.import_from Sample.three)
           Sample.readFileSync Sample.always_ok Sample.clock Sample.checksum
           Sample.shop_env Sample.any_client None None "no" false true false
           Sample.session_12 eq_refl).
Defined.

